(** * California wildfire seasons: forecaster, scrollable scene and hit-testing

    A shallow embedding of the Python modules [fire_classes],
    [data_functions], [scrollable_classes], [graphics_functions],
    [county_mapping], [colour_fonts] and of the scroll handling of [main],
    followed by the properties stated about them.

    Conventions of the embedding:
    - a Python [int] is a [Z];
    - a Python [float] is an IEEE 754 binary64 value, taken from the
      Standard Library's [SpecFloat] with [prec = 53] and [emax = 1024];
    - a raised exception is an [Err e] result, [e] naming the Python
      exception class;
    - a [dict] is an association list in insertion order, since the code
      iterates over its dictionaries;
    - [random.choice] reads its draws from an explicit source of naturals. *)

From Stdlib Require Import ZArith List Lia Bool String Ascii Permutation.
From Stdlib Require Import Floats.SpecFloat.
From Stdlib Require Import DecimalString.
Import ListNotations.

Open Scope Z_scope.

(** ** Exceptions and results *)

Inductive exn : Type :=
| ZeroDivisionError
| OverflowError
| ValueError
| IndexError
| KeyError
| AttributeError.

Inductive result (A : Type) : Type :=
| Ok (a : A)
| Err (e : exn).

Arguments Ok {A} a.
Arguments Err {A} e.

Definition bind {A B : Type} (r : result A) (k : A -> result B) : result B :=
  match r with
  | Ok a => k a
  | Err e => Err e
  end.

Notation "x <- r ;; k" := (bind r (fun x => k))
  (at level 61, r at next level, right associativity).

Notation "' pat <- r ;; k" := (bind r (fun x => match x with pat => k end))
  (at level 61, pat pattern, r at next level, right associativity).

Definition is_ok {A : Type} (r : result A) : bool :=
  match r with Ok _ => true | Err _ => false end.

(** [[g(x) for x in xs]], stopping at the first element that raises. *)
Fixpoint mapM {A B : Type} (f : A -> result B) (xs : list A) : result (list B) :=
  match xs with
  | [] => Ok []
  | x :: xs' =>
      y <- f x ;;
      ys <- mapM f xs' ;;
      Ok (y :: ys)
  end.

(** [xs[i]] for an index that is never negative in this program. *)
Definition index {A : Type} (xs : list A) (i : nat) : result A :=
  match nth_error xs i with
  | Some x => Ok x
  | None => Err IndexError
  end.

(** [len(xs)] *)
Definition len {A : Type} (xs : list A) : Z := Z.of_nat (List.length xs).

(** [sum(xs)] on a list of ints. *)
Definition sumZ (xs : list Z) : Z := fold_left Z.add xs 0.

(** [range(lo, hi)] *)
Definition range (lo hi : Z) : list Z :=
  map (fun k => lo + Z.of_nat k) (seq 0 (Z.to_nat (hi - lo))).

(** ** Python floats *)

Module PyFloat.

Definition prec : Z := 53.
Definition emax : Z := 1024.

Definition float : Type := spec_float.

Definition zero : float := S754_zero false.

Definition is_inf (x : float) : bool :=
  match x with S754_infinity _ => true | _ => false end.

Definition is_zero (x : float) : bool :=
  match x with S754_zero _ => true | _ => false end.

(** The binary64 value nearest to an int (ties to even). *)
Definition round_int (z : Z) : float := binary_normalize prec emax z 0 false.

(** [float(z)], as done implicitly when an int meets a float: an int
    beyond the float range raises OverflowError. *)
Definition of_int (z : Z) : result float :=
  let x := round_int z in
  if is_inf x then Err OverflowError else Ok x.

(** The binary64 value nearest to the exact quotient of two ints. *)
Definition round_quot (a b : Z) : float :=
  let '(q, e, l) := SFdiv_core_binary prec emax (Z.abs a) 0 (Z.abs b) 0 in
  binary_round_aux prec emax (xorb (a <? 0) (b <? 0)) q e l.

(** [a / b] on two ints: the correctly rounded quotient. *)
Definition int_truediv (a b : Z) : result float :=
  if b =? 0 then Err ZeroDivisionError
  else
    let x := round_quot a b in
    if is_inf x then Err OverflowError else Ok x.

Definition add : float -> float -> float := SFadd prec emax.
Definition sub : float -> float -> float := SFsub prec emax.
Definition mul : float -> float -> float := SFmul prec emax.

(** [x / y] on two floats. *)
Definition truediv (x y : float) : result float :=
  if is_zero y then Err ZeroDivisionError
  else Ok (SFdiv prec emax x y).

(** [x ** 2]: the rounded square; a finite base whose square leaves the
    float range raises OverflowError. *)
Definition pow2 (x : float) : result float :=
  let r := mul x x in
  match x with
  | S754_finite _ _ _ => if is_inf r then Err OverflowError else Ok r
  | _ => Ok r
  end.

(** [int(x)]: truncation toward zero. *)
Definition to_int (x : float) : result Z :=
  match x with
  | S754_zero _ => Ok 0
  | S754_infinity _ => Err OverflowError
  | S754_nan => Err ValueError
  | S754_finite s m e =>
      Ok (cond_Zopp s
            (match e with
             | Zneg p => Z.shiftr (Zpos m) (Zpos p)
             | _ => Z.shiftl (Zpos m) e
             end))
  end.

(** [i - x] and [i * x] for an int [i] and a float [x]. *)
Definition int_sub (i : Z) (x : float) : result float :=
  fi <- of_int i ;; Ok (sub fi x).

Definition int_mul (i : Z) (x : float) : result float :=
  fi <- of_int i ;; Ok (mul fi x).

(** [sum(...)] over floats: the int start value 0 meets the first float
    as 0.0 and the terms are added from left to right. Every call site
    sums over a list already known to be non-empty. *)
Definition sum (xs : list float) : float := fold_left add xs zero.

(** [i + x], [x + i], [x * i] and [x / i] for an int [i] and a float
    [x]. *)
Definition int_add (i : Z) (x : float) : result float :=
  fi <- of_int i ;; Ok (add fi x).

Definition add_int (x : float) (i : Z) : result float :=
  fi <- of_int i ;; Ok (add x fi).

Definition sub_int (x : float) (i : Z) : result float :=
  fi <- of_int i ;; Ok (sub x fi).

Definition mul_int (x : float) (i : Z) : result float :=
  fi <- of_int i ;; Ok (mul x fi).

Definition truediv_int (x : float) (i : Z) : result float :=
  fi <- of_int i ;; truediv x fi.

End PyFloat.

(** ** Dictionaries

    A [dict] keeps its keys in insertion order; assigning to a key that is
    present replaces the value where it stands, assigning to a new key
    appends. *)

Class KeyEq (K : Type) : Type := {
  keqb : K -> K -> bool;
  keqb_eq : forall a b, keqb a b = true <-> a = b
}.

#[export] Instance KeyEq_Z : KeyEq Z :=
  {| keqb := Z.eqb; keqb_eq := Z.eqb_eq |}.

#[export] Instance KeyEq_string : KeyEq string :=
  {| keqb := String.eqb; keqb_eq := String.eqb_eq |}.

Section Dict.
Context {K V : Type} `{KeyEq K}.

Definition dict : Type := list (K * V).

(** [d.get(k)] *)
Fixpoint dict_get (d : dict) (k : K) : option V :=
  match d with
  | [] => None
  | (k', v) :: d' => if keqb k k' then Some v else dict_get d' k
  end.

(** [k in d] *)
Definition dict_mem (d : dict) (k : K) : bool :=
  match dict_get d k with Some _ => true | None => false end.

(** [d[k]] *)
Definition getitem (d : dict) (k : K) : result V :=
  match dict_get d k with
  | Some v => Ok v
  | None => Err KeyError
  end.

(** [d[k] = v] *)
Fixpoint dict_set (d : dict) (k : K) (v : V) : dict :=
  match d with
  | [] => [(k, v)]
  | (k', v') :: d' =>
      if keqb k k' then (k', v) :: d' else (k', v') :: dict_set d' k v
  end.

(** [list(d.keys())], the order of [for k in d]. *)
Definition dict_keys (d : dict) : list K := map fst d.
End Dict.

Arguments dict K V : clear implicits.

(** ** fire_classes *)

Module CaliFire.
Record t : Type := mk {
  year : Z;
  county : string;
  acreage : Z;
  cause : string;
  structures_destroyed : Z
}.
End CaliFire.

Module CaliFireSeason.
Record t : Type := mk {
  year : Z;
  fires : Z;
  acreage : Z;
  top_five : list CaliFire.t
}.
End CaliFireSeason.

(** ** The random source

    [random.choice(seq)] raises IndexError on an empty sequence and returns
    [seq[j]] for some position [j] otherwise. The positions come from a list
    of draws, each reduced modulo the length; an exhausted list draws 0. All
    theorems quantify over the list, hence over every outcome. *)

Module random.
Definition Rng : Type := list nat.

Definition next (g : Rng) : nat * Rng :=
  match g with
  | [] => (0%nat, [])
  | r :: g' => (r, g')
  end.

Definition choice {A : Type} (xs : list A) (g : Rng) : result (A * Rng) :=
  match xs with
  | [] => Err IndexError
  | x0 :: _ =>
      let '(r, g') := next g in
      Ok (nth (r mod List.length xs) xs x0, g')
  end.
End random.

(** ** data_functions *)

Module data_functions.
Import PyFloat.

(** The inner [f] of both extrapolations: [int(a + x * b)]. *)
Definition f (a b : float) (x : Z) : result Z :=
  xb <- int_mul x b ;;
  to_int (add a xb).

Definition extrapolate_num_fires (years fires : list Z) (n : Z)
  : result (list Z) :=
  avr_x <- int_truediv (sumZ years) (len years) ;;
  avr_y <- int_truediv (sumZ fires) (len fires) ;;
  num_terms <-
    mapM (fun i =>
            year_i <- index years i ;;
            dx <- int_sub year_i avr_x ;;
            fires_i <- index fires i ;;
            dy <- int_sub fires_i avr_y ;;
            Ok (mul dx dy))
         (seq 0 (List.length fires)) ;;
  let b_numerator := sum num_terms in
  den_terms <-
    mapM (fun i =>
            year_i <- index years i ;;
            dx <- int_sub year_i avr_x ;;
            pow2 dx)
         (seq 0 (List.length years)) ;;
  let b_denominator := sum den_terms in
  b <- truediv b_numerator b_denominator ;;
  let a := sub avr_y (mul b avr_x) in
  mapM (fun i => f a b (2020 + i)) (range 1 (n + 1)).

Definition extrapolate_acreages (fires acreages next_fires : list Z)
  : result (list Z) :=
  avr_x <- int_truediv (sumZ fires) (len fires) ;;
  avr_y <- int_truediv (sumZ acreages) (len acreages) ;;
  num_terms <-
    mapM (fun i =>
            fires_i <- index fires i ;;
            dx <- int_sub fires_i avr_x ;;
            acreages_i <- index acreages i ;;
            dy <- int_sub acreages_i avr_y ;;
            Ok (mul dx dy))
         (seq 0 (List.length fires)) ;;
  let b_numerator := sum num_terms in
  den_terms <-
    mapM (fun i =>
            fires_i <- index fires i ;;
            dx <- int_sub fires_i avr_x ;;
            pow2 dx)
         (seq 0 (List.length fires)) ;;
  let b_denominator := sum den_terms in
  b <- truediv b_numerator b_denominator ;;
  let a := sub avr_y (mul b avr_x) in
  mapM (fun fire => f a b fire) next_fires.

(** [random.choice(causes)] *)
Definition predict_cause (causes : list string) (g : random.Rng)
  : result (string * random.Rng) :=
  random.choice causes g.

(** [[random.choice(counties) for _ in range(k)]] *)
Fixpoint choices (k : nat) (counties : list string) (g : random.Rng)
  : result (list string * random.Rng) :=
  match k with
  | O => Ok ([], g)
  | S k' =>
      '(c, g1) <- random.choice counties g ;;
      '(cs, g2) <- choices k' counties g1 ;;
      Ok (c :: cs, g2)
  end.

Definition predict_next_five_counties (counties : list string)
    (g : random.Rng) : result (list string * random.Rng) :=
  choices 5 counties g.

(** The loop [for county in five_counties] of [predict_next_top_five]. *)
Fixpoint top_five_loop (year : Z) (five_counties : list string)
    (counties_causes : dict string (list string))
    (top_five_so_far : list CaliFire.t) (g : random.Rng)
  : result (list CaliFire.t * random.Rng) :=
  match five_counties with
  | [] => Ok (top_five_so_far, g)
  | county :: rest =>
      causes <- getitem counties_causes county ;;
      '(cause, g') <- predict_cause causes g ;;
      top_five_loop year rest counties_causes
        (top_five_so_far ++ [CaliFire.mk year county 90000 cause 32]) g'
  end.

Definition predict_next_top_five (year : Z) (counties : list string)
    (counties_causes : dict string (list string)) (g : random.Rng)
  : result (list CaliFire.t * random.Rng) :=
  '(five_counties, g') <- predict_next_five_counties counties g ;;
  top_five_loop year five_counties counties_causes [] g'.

(** One pass of the body of [for fire in seasons[year].top_five]. *)
Definition note_fire
    (acc : list string * dict string (list string)) (fire : CaliFire.t)
  : result (list string * dict string (list string)) :=
  let '(all_counties, counties_causes) := acc in
  let all_counties := all_counties ++ [CaliFire.county fire] in
  let counties_causes :=
    if dict_mem counties_causes (CaliFire.county fire) then counties_causes
    else dict_set counties_causes (CaliFire.county fire) [] in
  causes <- getitem counties_causes (CaliFire.county fire) ;;
  Ok (all_counties,
      dict_set counties_causes (CaliFire.county fire)
        (causes ++ [CaliFire.cause fire])).

Fixpoint note_fires
    (acc : list string * dict string (list string))
    (top_five : list CaliFire.t)
  : result (list string * dict string (list string)) :=
  match top_five with
  | [] => Ok acc
  | fire :: rest => acc' <- note_fire acc fire ;; note_fires acc' rest
  end.

(** The loop [for year in seasons] that fills [all_counties] and
    [counties_causes]. *)
Fixpoint collect (seasons : dict Z CaliFireSeason.t) (years : list Z)
    (acc : list string * dict string (list string))
  : result (list string * dict string (list string)) :=
  match years with
  | [] => Ok acc
  | year :: rest =>
      s <- getitem seasons year ;;
      acc' <- note_fires acc (CaliFireSeason.top_five s) ;;
      collect seasons rest acc'
  end.

(** [[g(seasons[year]) for year in seasons]] *)
Definition column {A : Type} (seasons : dict Z CaliFireSeason.t)
    (g : CaliFireSeason.t -> A) : result (list A) :=
  mapM (fun year => s <- getitem seasons year ;; Ok (g s))
       (dict_keys seasons).

(** The final loop [for i in range(1, n + 1)]. The dictionary is the
    caller's object: what was stored before an exception stays stored,
    so the loop returns the dictionary together with the outcome. *)
Fixpoint register (steps : list Z) (next_fires next_acreages : list Z)
    (all_counties : list string)
    (counties_causes : dict string (list string))
    (seasons : dict Z CaliFireSeason.t) (g : random.Rng)
  : dict Z CaliFireSeason.t * result random.Rng :=
  match steps with
  | [] => (seasons, Ok g)
  | i :: rest =>
      let year := 2020 + i in
      match
        (fires <- index next_fires (Z.to_nat (i - 1)) ;;
         acreage <- index next_acreages (Z.to_nat (i - 1)) ;;
         '(top_five, g') <-
           predict_next_top_five year all_counties counties_causes g ;;
         Ok (CaliFireSeason.mk year fires acreage top_five, g'))
      with
      | Ok (season, g') =>
          register rest next_fires next_acreages all_counties
            counties_causes (dict_set seasons year season) g'
      | Err e => (seasons, Err e)
      end
  end.

(** Everything [predict_fire_season_data] computes before its last loop,
    none of which touches [seasons]. *)
Definition prepare (seasons : dict Z CaliFireSeason.t) (n : Z)
  : result (list Z * list Z * list string * dict string (list string)) :=
  all_years <- column seasons CaliFireSeason.year ;;
  all_num_fires <- column seasons CaliFireSeason.fires ;;
  all_acreage <- column seasons CaliFireSeason.acreage ;;
  '(all_counties, counties_causes) <-
    collect seasons (dict_keys seasons) ([], []) ;;
  next_fires <- extrapolate_num_fires all_years all_num_fires n ;;
  next_acreages <-
    extrapolate_acreages all_num_fires all_acreage next_fires ;;
  Ok (next_fires, next_acreages, all_counties, counties_causes).

(** [predict_fire_season_data(seasons, n)]: the dictionary after the call
    and the outcome (the state of the random source, or the exception). *)
Definition predict_fire_season_data (seasons : dict Z CaliFireSeason.t)
    (n : Z) (g : random.Rng)
  : dict Z CaliFireSeason.t * result random.Rng :=
  match prepare seasons n with
  | Err e => (seasons, Err e)
  | Ok (next_fires, next_acreages, all_counties, counties_causes) =>
      register (range 1 (n + 1)) next_fires next_acreages all_counties
        counties_causes seasons g
  end.

(** [row.split(',')] *)
Fixpoint split (row : string) : list string :=
  match row with
  | EmptyString => [EmptyString]
  | String c rest =>
      if Ascii.eqb c "," then EmptyString :: split rest
      else
        match split rest with
        | field :: fields => String c field :: fields
        | [] => [String c EmptyString]
        end
  end.

(** The outcome of reading rows: the value, the exception, or
    [YearMissing] where the source builds a [CaliFire] or a
    [CaliFireSeason] while [curr_year] is still [None], a value outside
    the types of [fire_classes] at which the embedding stops. *)
Inductive loaded (A : Type) : Type :=
| Loaded (a : A)
| Raised (e : exn)
| YearMissing.

Arguments Loaded {A} a.
Arguments Raised {A} e.
Arguments YearMissing {A}.

(** The variables of the loop of [get_fire_data]. *)
Record loader : Type := mk_loader {
  data_so_far : dict Z CaliFireSeason.t;
  top_five_fires : list CaliFire.t;
  curr_year : option Z
}.

Section Builtins.
(** [int(s)] and [s.isnumeric()] on a [str] belong to Python. *)
Variable parse_int : string -> result Z.
Variable isnumeric : string -> bool.

(** The body of [for entry in split_data]. *)
Definition read_entry (st : loader) (entry : list string) : loaded loader :=
  if len entry =? 1 then
    match (first <- index entry 0 ;; parse_int first) with
    | Ok year =>
        Loaded (mk_loader (data_so_far st) (top_five_fires st) (Some year))
    | Err e => Raised e
    end
  else
    match index entry 0 with
    | Err e => Raised e
    | Ok first =>
        if negb (isnumeric first) then
          match
            (let county := first in
             second <- index entry 1 ;;
             acreage <- parse_int second ;;
             cause <- index entry 2 ;;
             fourth <- index entry 3 ;;
             destroyed <- parse_int fourth ;;
             Ok (county, acreage, cause, destroyed))
          with
          | Err e => Raised e
          | Ok (county, acreage, cause, destroyed) =>
              match curr_year st with
              | None => YearMissing
              | Some year =>
                  Loaded
                    (mk_loader (data_so_far st)
                       (top_five_fires st
                        ++ [CaliFire.mk year county acreage cause destroyed])
                       (curr_year st))
              end
          end
        else
          match
            (num_fires <- parse_int first ;;
             second <- index entry 1 ;;
             acreage <- parse_int second ;;
             Ok (num_fires, acreage))
          with
          | Err e => Raised e
          | Ok (num_fires, acreage) =>
              match curr_year st with
              | None => YearMissing
              | Some year =>
                  let fire_season :=
                    CaliFireSeason.mk year num_fires acreage
                      (top_five_fires st) in
                  Loaded
                    (mk_loader (dict_set (data_so_far st) year fire_season)
                       [] (curr_year st))
              end
          end
    end.

Fixpoint read_entries (st : loader) (split_data : list (list string))
  : loaded loader :=
  match split_data with
  | [] => Loaded st
  | entry :: rest =>
      match read_entry st entry with
      | Loaded st' => read_entries st' rest
      | Raised e => Raised e
      | YearMissing => YearMissing
      end
  end.

(** [get_fire_data(filename)], on the rows of the file. *)
Definition get_fire_data (rows : list string)
  : loaded (dict Z CaliFireSeason.t) :=
  let split_data := map split rows in
  match read_entries (mk_loader [] [] None) split_data with
  | Loaded st => Loaded (data_so_far st)
  | Raised e => Raised e
  | YearMissing => YearMissing
  end.
End Builtins.

End data_functions.


(** ** colour_fonts *)

Module colour_fonts.
Definition colour : Type := (Z * Z * Z)%type.

Definition WHITE : colour := (255, 255, 255).
Definition BLACK : colour := (0, 0, 0).
Definition RED : colour := (255, 0, 0).
Definition LIGHT_RED : colour := (255, 125, 125).
Definition ORANGE : colour := (255, 127, 0).
Definition LIGHT_ORANGE : colour := (255, 190, 125).
Definition YELLOW : colour := (245, 206, 66).
Definition LIGHT_BLUE : colour := (200, 234, 247).

(** [pygame.font.SysFont(name, size, bold=...)]; what the font measures
    for a text belongs to pygame and is a parameter wherever it is used. *)
Record Font : Type := SysFont {
  font_name : string;
  font_points : Z;
  font_bold : bool
}.

Definition CALIBRI_14_B : Font := SysFont "Calibri" 14 true.
Definition CALIBRI_24_B : Font := SysFont "Calibri" 24 true.
End colour_fonts.

(** ** county_mapping *)

Module county_mapping.
Definition MAPPING : dict string (Z * Z) :=
  [ ("Ventura", (212, 398));
    ("Los Angeles", (248, 399));
    ("Santa Barbara", (171, 385));
    ("Colusa", (90, 155));
    ("Sonoma", (57, 182));
    ("Mendocino", (41, 129));
    ("Plumas", (146, 110));
    ("Butte", (112, 127));
    ("Placer", (151, 157));
    ("San Bernardino", (330, 376));
    ("Inyo", (271, 282));
    ("San Francisco", (76, 225));
    ("San Joaquin", (125, 219));
    ("San Luis Obispo", (157, 353));
    ("Lassen", (151, 68));
    ("Tuolumne", (175, 213));
    ("Fresno", (172, 287));
    ("Amador", (151, 191));
    ("Riverside", (336, 430));
    ("Modoc", (148, 20));
    ("Lake", (66, 157));
    ("Monterey", (128, 316));
    ("Shasta", (99, 66));
    ("Siskiyou", (76, 19));
    ("Trinity", (53, 69));
    ("Kern", (228, 352));
    ("El Dorado", (155, 174));
    ("Mariposa", (176, 236));
    ("San Diego", (314, 469)) ]%string.
End county_mapping.

(** ** pygame: the calls made on the screen

    Drawing is pygame's; the program is known here by the calls it makes
    on the screen, in order, with the arguments it passes. *)

Module pygame.
Import colour_fonts.

(** A number handed to pygame: an int or a float. *)
Inductive num : Type :=
| Int (z : Z)
| Float (x : PyFloat.float).

(** [pygame.Rect(left, top, width, height)], with the arguments as
    passed. *)
Record Rect : Type := mkRect {
  left : num;
  top : num;
  width : num;
  height : num
}.

Inductive Surface : Type :=
| load (filename : string)
| render (font : Font) (text : string) (antialias : bool) (c : colour)
| rotate (surface : Surface) (angle : Z).

Inductive call : Type :=
| blit (source : Surface) (dest : num * num)
| draw_rect (c : colour) (rect : Rect)
| draw_line (c : colour) (start_pos end_pos : Z * Z) (thickness : Z)
| draw_circle (c : colour) (center : Z * Z) (radius : Z).
End pygame.

(** A procedure that draws: the calls it makes, in order, and its
    outcome. The calls made before an exception stay made. *)
Definition drawing (A : Type) : Type := (list pygame.call * result A)%type.

Definition emit (c : pygame.call) : drawing unit := ([c], Ok tt).

Definition lift {A : Type} (r : result A) : drawing A := ([], r).

Definition and_then {A B : Type} (m : drawing A) (k : A -> drawing B)
  : drawing B :=
  match m with
  | (calls, Ok a) => let '(calls', r) := k a in (calls ++ calls', r)
  | (calls, Err e) => (calls, Err e)
  end.

Notation "x <~ m ;; k" := (and_then m (fun x => k))
  (at level 61, m at next level, right associativity).

Notation "m ;;; k" := (and_then m (fun _ => k))
  (at level 61, right associativity).

(** [for x in xs: body(x)] *)
Fixpoint for_each {A : Type} (xs : list A) (body : A -> drawing unit)
  : drawing unit :=
  match xs with
  | [] => ([], Ok tt)
  | x :: rest => body x ;;; for_each rest body
  end.

(** [enumerate(xs)] *)
Definition enumerate {A : Type} (xs : list A) : list (Z * A) :=
  combine (map Z.of_nat (seq 0 (List.length xs))) xs.

(** ** scrollable_classes *)

(** The part every scrollable object inherits: its coordinates and the
    methods that read and move them. *)
Module ScrollableObject.
Record t : Type := mk { _x : Z; _y : Z }.

Definition get_coords (self : t) : Z * Z := (_x self, _y self).

Definition translate (self : t) (dx dy : Z) : t :=
  {| _x := _x self + dx; _y := _y self + dy |}.

Definition move_to (self : t) (x y : Z) : t := {| _x := x; _y := y |}.
End ScrollableObject.

Module Image.
(** The loaded surface is pygame's; the object is known here by the file
    it was loaded from. *)
Record t : Type := mk { base : ScrollableObject.t; _image : string }.

Definition init (x y : Z) (filename : string) : t :=
  mk (ScrollableObject.mk x y) filename.

Definition get_coords (self : t) : Z * Z :=
  ScrollableObject.get_coords (base self).

Definition translate (self : t) (dx dy : Z) : t :=
  mk (ScrollableObject.translate (base self) dx dy) (_image self).
Definition draw (self : t) : drawing unit :=
  emit (pygame.blit (pygame.load (_image self))
          (pygame.Int (ScrollableObject._x (base self)),
           pygame.Int (ScrollableObject._y (base self)))).
End Image.

Module FireCircle.
Import colour_fonts.

(** [_radius] and [_colour] are assigned inside branches of [__init__];
    [None] is the attribute not having been assigned. *)
Record t : Type := mk {
  base : ScrollableObject.t;
  _county : string;
  _acreage : Z;
  _fires : list CaliFire.t;
  _radius : option Z;
  _colour : option colour
}.

(** The dictionary of acreage bounds, in the order it is written. *)
Definition bounds : dict Z (colour * Z) :=
  [ (0, (YELLOW, 10));
    (10000, (YELLOW, 12));
    (20000, (YELLOW, 15));
    (40000, (ORANGE, 18));
    (60000, (ORANGE, 20));
    (80000, (RED, 22));
    (100000, (RED, 25)) ].

Definition add_acreage (self : t) (fire : CaliFire.t) : t :=
  mk (base self) (_county self) (_acreage self + CaliFire.acreage fire)
     (_fires self) (_radius self) (_colour self).

(** The body of [for bound in bounds]. *)
Definition apply_bound (self : t) (bound : Z) : result t :=
  if _acreage self >=? bound then
    '(c, r) <- getitem bounds bound ;;
    Ok (mk (base self) (_county self) (_acreage self) (_fires self)
           (Some r) (Some c))
  else Ok self.

Fixpoint apply_bounds (self : t) (keys : list Z) : result t :=
  match keys with
  | [] => Ok self
  | bound :: rest => self' <- apply_bound self bound ;; apply_bounds self' rest
  end.

(** [FireCircle(x, y, fires)] *)
Definition init (x y : Z) (fires : list CaliFire.t) : result t :=
  fire0 <- index fires 0 ;;
  let self :=
    mk (ScrollableObject.mk x y) (CaliFire.county fire0) 0 fires None None in
  if CaliFire.year fire0 >? 2020 then
    Ok (mk (base self) (_county self) (_acreage self) (_fires self)
           (Some 25) (Some LIGHT_RED))
  else
    let self := fold_left add_acreage fires self in
    apply_bounds self (dict_keys bounds).

Definition get_coords (self : t) : Z * Z :=
  ScrollableObject.get_coords (base self).

Definition translate (self : t) (dx dy : Z) : t :=
  mk (ScrollableObject.translate (base self) dx dy) (_county self)
     (_acreage self) (_fires self) (_radius self) (_colour self).

(** Reading [self._radius]. *)
Definition radius (self : t) : result Z :=
  match _radius self with
  | Some r => Ok r
  | None => Err AttributeError
  end.

Definition get_bounds (self : t) : result (Z * Z * Z * Z) :=
  r <- radius self ;;
  let x := ScrollableObject._x (base self) - r in
  let y := ScrollableObject._y (base self) - r in
  Ok (x, y, r * 2, r * 2).

Definition get_fires (self : t) : list CaliFire.t := _fires self.
(** Reading [self._colour]. *)
Definition colour_of (self : t) : result colour :=
  match _colour self with
  | Some c => Ok c
  | None => Err AttributeError
  end.

Section Pygame.
Variable size : Font -> string -> Z * Z.

Definition draw (self : t) : drawing unit :=
  let font := CALIBRI_14_B in
  c <~ lift (colour_of self) ;;
  r <~ lift (radius self) ;;
  emit (pygame.draw_circle c (get_coords self) r) ;;;
  let '(width, height) := size font (_county self) in
  let text := pygame.render font (_county self) true BLACK in
  half_width <~ lift (PyFloat.int_truediv width 2) ;;
  x <~ lift (PyFloat.int_sub (ScrollableObject._x (base self)) half_width) ;;
  half_height <~ lift (PyFloat.int_truediv height 2) ;;
  y <~ lift (PyFloat.int_sub (ScrollableObject._y (base self)) half_height) ;;
  emit (pygame.blit text (pygame.Float x, pygame.Float y)).
End Pygame.
End FireCircle.

Module TextLabel.
Import colour_fonts PyFloat.

Record t : Type := mk {
  base : ScrollableObject.t;
  text : string;
  _font : Font;
  _colour : colour
}.

Definition init (x y : Z) (text : string) (font : Font) (c : colour) : t :=
  mk (ScrollableObject.mk x y) text font c.

Definition get_coords (self : t) : Z * Z :=
  ScrollableObject.get_coords (base self).

Definition translate (self : t) (dx dy : Z) : t :=
  mk (ScrollableObject.translate (base self) dx dy) (text self)
     (_font self) (_colour self).

Section Pygame.
(** [font.size(text)], the width and height in pixels of a rendered
    text. *)
Variable size : Font -> string -> Z * Z.

(** [self._x = int(screen_w / 2 - text_w / 2)] *)
Definition centerize_width (self : t) (screen_w : Z) : result t :=
  let text_w := fst (size (_font self) (text self)) in
  half_screen <- int_truediv screen_w 2 ;;
  half_text <- int_truediv text_w 2 ;;
  x <- to_int (sub half_screen half_text) ;;
  Ok (mk (ScrollableObject.mk x (ScrollableObject._y (base self)))
         (text self) (_font self) (_colour self)).
End Pygame.
Definition draw (self : t) : drawing unit :=
  let text := pygame.render (_font self) (text self) true (_colour self) in
  emit (pygame.blit text
          (pygame.Int (fst (get_coords self)),
           pygame.Int (snd (get_coords self)))).
End TextLabel.

(** A [List[ScrollableObject]] holds objects of the three subclasses. *)
Inductive Scrollable : Type :=
| AnImage (i : Image.t)
| ACircle (c : FireCircle.t)
| ALabel (l : TextLabel.t).

(** Method dispatch on the subclass. *)
Definition get_coords (o : Scrollable) : Z * Z :=
  match o with
  | AnImage i => Image.get_coords i
  | ACircle c => FireCircle.get_coords c
  | ALabel l => TextLabel.get_coords l
  end.

Definition translate (o : Scrollable) (dx dy : Z) : Scrollable :=
  match o with
  | AnImage i => AnImage (Image.translate i dx dy)
  | ACircle c => ACircle (FireCircle.translate c dx dy)
  | ALabel l => ALabel (TextLabel.translate l dx dy)
  end.

Definition draw (size : colour_fonts.Font -> string -> Z * Z)
    (o : Scrollable) : drawing unit :=
  match o with
  | AnImage i => Image.draw i
  | ACircle c => FireCircle.draw size c
  | ALabel l => TextLabel.draw l
  end.

(** [str(i)] of an int, as an f-string formats it. *)
Definition str (i : Z) : string := NilZero.string_of_int (Z.to_int i).

(** ** graphics_functions *)

Module graphics_functions.
Import colour_fonts county_mapping.

Definition WIDTH : Z := 800.
Definition HEIGHT : Z := 800.

(** One pass of [for fire in season.top_five] in [get_counties_on_map]. *)
Definition file_fire (fire_dict : dict string (list CaliFire.t))
    (fire : CaliFire.t) : result (dict string (list CaliFire.t)) :=
  let fire_dict :=
    if dict_mem fire_dict (CaliFire.county fire) then fire_dict
    else dict_set fire_dict (CaliFire.county fire) [] in
  fires <- getitem fire_dict (CaliFire.county fire) ;;
  Ok (dict_set fire_dict (CaliFire.county fire) (fires ++ [fire])).

Fixpoint file_fires (fire_dict : dict string (list CaliFire.t))
    (top_five : list CaliFire.t) : result (dict string (list CaliFire.t)) :=
  match top_five with
  | [] => Ok fire_dict
  | fire :: rest =>
      fire_dict' <- file_fire fire_dict fire ;;
      file_fires fire_dict' rest
  end.

(** The loop [for county in fire_dict]. *)
Fixpoint place_circles (fire_dict : dict string (list CaliFire.t))
    (img_map : Image.t) (counties : list string)
    (circles_so_far : list FireCircle.t) : result (list FireCircle.t) :=
  match counties with
  | [] => Ok circles_so_far
  | county :: rest =>
      '(x1, y1) <- getitem MAPPING county ;;
      let '(x2, y2) := Image.get_coords img_map in
      fires <- getitem fire_dict county ;;
      circle <- FireCircle.init (x1 + x2) (y1 + y2) fires ;;
      place_circles fire_dict img_map rest (circles_so_far ++ [circle])
  end.

Definition get_counties_on_map (season : CaliFireSeason.t)
    (img_map : Image.t) : result (list FireCircle.t) :=
  fire_dict <- file_fires [] (CaliFireSeason.top_five season) ;;
  place_circles fire_dict img_map (dict_keys fire_dict) [].

Section Pygame.
Variable size : Font -> string -> Z * Z.

Definition get_scrollables_for_season (season : CaliFireSeason.t)
    (img_map : Image.t) : result (list Scrollable) :=
  let season_text :=
    ("Total # of fires: " ++ str (CaliFireSeason.fires season) ++ "    "
     ++ "Total acreage burned: " ++ str (CaliFireSeason.acreage season))%string in
  let map_text := "Top Five Fires:"%string in
  let '(season_text, map_text) :=
    if CaliFireSeason.year season >? 2020 then
      (("Total # of fires: ~" ++ str (CaliFireSeason.fires season) ++ "    "
        ++ "Total acreage burned: ~"
        ++ str (CaliFireSeason.acreage season))%string,
       "Five Vulnerable Counties:"%string)
    else (season_text, map_text) in
  let season_data_label :=
    TextLabel.init 0 160 season_text CALIBRI_24_B BLACK in
  season_data_label <-
    TextLabel.centerize_width size season_data_label WIDTH ;;
  let map_label := TextLabel.init 0 200 map_text CALIBRI_24_B BLACK in
  map_label <- TextLabel.centerize_width size map_label WIDTH ;;
  let scrollables_so_far :=
    [ALabel season_data_label; ALabel map_label; AnImage img_map] in
  county_circles <- get_counties_on_map season img_map ;;
  Ok (scrollables_so_far ++ map ACircle county_circles).
End Pygame.

(** [scroll_objects]: every object is translated by [(0, scroll_amount)]. *)
Definition scroll_objects (scrollables : list Scrollable)
    (scroll_amount : Z) : list Scrollable :=
  map (fun scrollable => translate scrollable 0 scroll_amount) scrollables.

Fixpoint get_mouse_on_fire_circle (x y : Z) (scrollables : list Scrollable)
  : result (option FireCircle.t) :=
  match scrollables with
  | [] => Ok None
  | ACircle scrollable :: rest =>
      '(cx, cy, w, h) <- FireCircle.get_bounds scrollable ;;
      if ((cx <? x) && (x <? cx + w)) && ((cy <? y) && (y <? cy + h))
      then Ok (Some scrollable)
      else get_mouse_on_fire_circle x y rest
  | _ :: rest => get_mouse_on_fire_circle x y rest
  end.
Section Drawing.
Import pygame PyFloat.
Variable size : Font -> string -> Z * Z.
(** The int a [pygame.Rect] holds for an argument it was built from. *)
Variable pixels : num -> Z.

Definition draw_scrollables (scrollables : list Scrollable) : drawing unit :=
  for_each scrollables (draw size).

Definition draw_rect_outline (rect : Rect) (c : colour) (thickness : Z)
  : drawing unit :=
  let x := pixels (left rect) in
  let y := pixels (top rect) in
  let w := pixels (width rect) in
  let h := pixels (height rect) in
  emit (draw_line c (x, y) (x + w, y) thickness) ;;;
  emit (draw_line c (x, y + h) (x + w, y + h) thickness) ;;;
  emit (draw_line c (x, y) (x, y + h) thickness) ;;;
  emit (draw_line c (x + w, y) (x + w, y + h) thickness).

(** The body of [for i, fire in enumerate(fires)] in
    [display_county_fire_info]. *)
Definition display_fire (year x y width height_per_fire text_gap : Z)
    (edge_offset : float) (font : Font) (entry : Z * CaliFire.t)
  : drawing unit :=
  let '(i, fire) := entry in
  let height := y + i * height_per_fire in
  (if i >=? 1
   then emit (draw_line BLACK (x, height) (x + width, height) 1)
   else ([], Ok tt)) ;;;
  let county := CaliFire.county fire in
  let acreage := str (CaliFire.acreage fire) in
  let cause := CaliFire.cause fire in
  let destroyed := CaliFire.structures_destroyed fire in
  first_line_y <~ lift (int_add height edge_offset) ;;
  if year >? 2020 then
    tx <~ lift (int_add x edge_offset) ;;
    emit (blit (render font ("County: " ++ county) true BLACK)
            (Float tx, Float first_line_y)) ;;;
    tx <~ lift (int_add x edge_offset) ;;
    ty <~ lift (add_int first_line_y text_gap) ;;
    emit (blit (render font ("Most Likely Cause: " ++ cause) true BLACK)
            (Float tx, Float ty))
  else
    tx <~ lift (int_add x edge_offset) ;;
    emit (blit (render font ("County: " ++ county) true BLACK)
            (Float tx, Float first_line_y)) ;;;
    tx <~ lift (int_add x edge_offset) ;;
    ty <~ lift (add_int first_line_y text_gap) ;;
    emit (blit (render font ("Acreage: " ++ acreage) true BLACK)
            (Float tx, Float ty)) ;;;
    tx <~ lift (int_add x edge_offset) ;;
    ty <~ lift (add_int first_line_y (2 * text_gap)) ;;
    emit (blit (render font ("Cause: " ++ cause) true BLACK)
            (Float tx, Float ty)) ;;;
    tx <~ lift (int_add x edge_offset) ;;
    ty <~ lift (add_int first_line_y (3 * text_gap)) ;;
    emit (blit (render font ("Structures destroyed: " ++ str destroyed)
                  true BLACK)
            (Float tx, Float ty)).

Definition display_county_fire_info (circle : FireCircle.t) : drawing unit :=
  let fires := FireCircle.get_fires circle in
  fire0 <~ lift (index fires 0) ;;
  let year := CaliFire.year fire0 in
  let width := 200 in
  let height_per_fire := if year >? 2020 then 45 else 90 in
  let '(x, y) := FireCircle.get_coords circle in
  edge_offset <~ lift (int_truediv width 25) ;;
  let text_gap := 20 in
  let display_rect :=
    mkRect (Int x) (Int y) (Int width) (Int (height_per_fire * len fires)) in
  emit (draw_rect WHITE display_rect) ;;;
  let font := CALIBRI_14_B in
  for_each (enumerate fires)
    (display_fire year x y width height_per_fire text_gap edge_offset font) ;;;
  draw_rect_outline display_rect BLACK 1.

(** [max(xs)] *)
Definition max_of (xs : list Z) : result Z :=
  match xs with
  | [] => Err ValueError
  | x :: rest => Ok (fold_left Z.max rest x)
  end.

(** The body of [for x in range(len(seasons))] in
    [display_season_data]. *)
Definition display_section (current_index : Z) (years : list Z)
    (all_num_fires all_acreage : list Z) (max_num_fires max_acreage : Z)
    (horiz_edge_offset vert_edge_offset section_height section_offset : Z)
    (section_width bar_width : float) (font : Font) (x : Z)
  : drawing unit :=
  x_width <~ lift (int_mul x section_width) ;;
  section_x <~ lift (int_add horiz_edge_offset x_width) ;;
  red_bar_x <~ lift (add_int section_x section_offset) ;;
  let orange_bar_x := add red_bar_x bar_width in
  num_fires <~ lift (index all_num_fires (Z.to_nat x)) ;;
  fires_share <~ lift (int_truediv num_fires max_num_fires) ;;
  fires_scaled <~ lift (mul_int fires_share (section_height - vert_edge_offset)) ;;
  red_bar_height <~ lift (to_int fires_scaled) ;;
  acreage <~ lift (index all_acreage (Z.to_nat x)) ;;
  acreage_share <~ lift (int_truediv acreage max_acreage) ;;
  acreage_scaled <~
    lift (mul_int acreage_share (section_height - vert_edge_offset)) ;;
  orange_bar_height <~ lift (to_int acreage_scaled) ;;
  let red_bar_y := section_height - red_bar_height + vert_edge_offset in
  let orange_bar_y := section_height - orange_bar_height + vert_edge_offset in
  (if x =? current_index then
     let highlight :=
       mkRect (Float section_x) (Int 0) (Float section_width)
         (Int (section_height + 3 * vert_edge_offset)) in
     emit (draw_rect LIGHT_BLUE highlight)
   else ([], Ok tt)) ;;;
  let red_bar :=
    mkRect (Float red_bar_x) (Int red_bar_y) (Float bar_width)
      (Int red_bar_height) in
  let orange_bar :=
    mkRect (Float orange_bar_x) (Int orange_bar_y) (Float bar_width)
      (Int orange_bar_height) in
  year <~ lift (index years (Z.to_nat x)) ;;
  (if year >? 2020 then
     emit (draw_rect LIGHT_RED red_bar) ;;;
     emit (draw_rect LIGHT_ORANGE orange_bar)
   else
     emit (draw_rect RED red_bar) ;;;
     emit (draw_rect ORANGE orange_bar)) ;;;
  year <~ lift (index years (Z.to_nat x)) ;;
  let year_text := render font (str year) true BLACK in
  year <~ lift (index years (Z.to_nat x)) ;;
  let text_width := fst (size font (str year)) in
  half_section <~ lift (truediv_int section_width 2) ;;
  half_text <~ lift (int_truediv text_width 2) ;;
  let text_x := sub (add section_x half_section) half_text in
  half_offset <~ lift (int_truediv section_offset 2) ;;
  text_y <~ lift (int_add (red_bar_y + red_bar_height) half_offset) ;;
  emit (blit year_text (Float text_x, Float text_y)) ;;;
  num_fires <~ lift (index all_num_fires (Z.to_nat x)) ;;
  (if num_fires =? max_num_fires
   then draw_rect_outline red_bar BLACK 3
   else ([], Ok tt)) ;;;
  acreage <~ lift (index all_acreage (Z.to_nat x)) ;;
  if acreage =? max_acreage
  then draw_rect_outline orange_bar BLACK 3
  else ([], Ok tt).

Definition display_season_data (seasons : dict Z CaliFireSeason.t)
    (current_index : Z) : drawing unit :=
  seasons_list <~
    lift (mapM (fun s => getitem seasons s) (dict_keys seasons)) ;;
  let years := dict_keys seasons in
  let horiz_edge_offset := 20 in
  let vert_edge_offset := 10 in
  let section_height := 100 in
  let total_width := WIDTH - (2 * horiz_edge_offset) in
  section_width <~ lift (int_truediv total_width (len seasons)) ;;
  let section_offset := 5 in
  narrowed <~ lift (sub_int section_width (2 * section_offset)) ;;
  bar_width <~ lift (truediv_int narrowed 2) ;;
  let all_num_fires := map CaliFireSeason.fires seasons_list in
  let all_acreage := map CaliFireSeason.acreage seasons_list in
  max_num_fires <~ lift (max_of all_num_fires) ;;
  max_acreage <~ lift (max_of all_acreage) ;;
  let background :=
    mkRect (Int 0) (Int 0) (Int total_width)
      (Int (section_height + 3 * vert_edge_offset)) in
  emit (draw_rect WHITE background) ;;;
  let font := CALIBRI_14_B in
  let num_fires_text := render font "# of Fires" true RED in
  let num_fires_text := rotate num_fires_text 90 in
  label_x <~ lift (int_truediv horiz_edge_offset 4) ;;
  half_height <~ lift (int_truediv section_height 2) ;;
  label_y <~ lift (sub_int half_height vert_edge_offset) ;;
  emit (blit num_fires_text (Float label_x, Float label_y)) ;;;
  let acreage_text := render font "Acreage" true ORANGE in
  let acreage_text := rotate acreage_text 90 in
  half_height <~ lift (int_truediv section_height 2) ;;
  label_y <~ lift (sub_int half_height vert_edge_offset) ;;
  emit (blit acreage_text (Int (WIDTH - horiz_edge_offset), Float label_y)) ;;;
  for_each (range 0 (len seasons))
    (display_section current_index years all_num_fires all_acreage
       max_num_fires max_acreage horiz_edge_offset vert_edge_offset
       section_height section_offset section_width bar_width font).
End Drawing.
End graphics_functions.

(** ** main: the frame loop *)

Module main.
Import graphics_functions.

Definition FUTURE_YEARS : Z := 10.
Definition SCROLL_SPEED : Z := 15.
Definition MAX_SCROLL : Z := 600.

Inductive key : Type := K_RIGHT | K_LEFT | K_other.

(** What [pygame.event.get()] hands to the loop, by [event.type]. *)
Inductive event : Type :=
| QUIT
| MOUSEBUTTONDOWN (button : Z)
| KEYDOWN (k : key)
| other_event.

(** The variables of the loop. *)
Record state : Type := mk {
  running : bool;
  scrollables : list Scrollable;
  scroll_amount : Z;
  curr_index : Z
}.

Section Session.
Variable size : colour_fonts.Font -> string -> Z * Z.
(** [fire_season_data] after the forecast, and [years], its keys. *)
Variable fire_season_data : dict Z CaliFireSeason.t.
Variable years : list Z.

Definition season_scene (i : Z) : result (list Scrollable) :=
  year <- index years (Z.to_nat i) ;;
  season <- getitem fire_season_data year ;;
  get_scrollables_for_season size season
    (Image.init 190 240 "county_map.jpg").

(** The state on entering [while running]. *)
Definition initial : result state :=
  scrollables <- season_scene 0 ;;
  Ok (mk true scrollables 0 0).

(** [x % len(fire_season_data)] *)
Definition wrap (x : Z) : result Z :=
  if len fire_season_data =? 0 then Err ZeroDivisionError
  else Ok (x mod len fire_season_data).

(** The body of [for event in pygame.event.get()]. *)
Definition handle (st : state) (ev : event) : result state :=
  match ev with
  | QUIT =>
      Ok (mk false (scrollables st) (scroll_amount st) (curr_index st))
  | MOUSEBUTTONDOWN button =>
      let scroll_direction := if button =? 5 then -1 else 1 in
      let scroll_translate := scroll_direction * SCROLL_SPEED in
      if (0 <=? scroll_amount st - scroll_translate)
         && (scroll_amount st - scroll_translate <=? MAX_SCROLL)
      then
        Ok (mk (running st)
               (scroll_objects (scrollables st) scroll_translate)
               (scroll_amount st - scroll_translate)
               (curr_index st))
      else Ok st
  | KEYDOWN k =>
      curr_index <-
        match k with
        | K_RIGHT => wrap (curr_index st + 1)
        | K_LEFT => wrap (curr_index st - 1)
        | K_other => Ok (curr_index st)
        end ;;
      scrollables <- season_scene curr_index ;;
      Ok (mk (running st) scrollables 0 curr_index)
  | other_event => Ok st
  end.

Fixpoint handle_all (st : state) (evs : list event) : result state :=
  match evs with
  | [] => Ok st
  | ev :: rest => st' <- handle st ev ;; handle_all st' rest
  end.

(** One frame: the escape key, then the pending events. *)
Definition frame (st : state) (escape : bool) (evs : list event)
  : result state :=
  let st :=
    if escape
    then mk false (scrollables st) (scroll_amount st) (curr_index st)
    else st in
  handle_all st evs.

(** The states the loop passes through between frames. *)
Inductive reachable : state -> Prop :=
| reach_initial : forall st, initial = Ok st -> reachable st
| reach_frame : forall st escape evs st',
    reachable st -> running st = true ->
    frame st escape evs = Ok st' -> reachable st'.
End Session.
End main.

(** * Notions used to state the properties *)

(** A sequence of [translate(dx, dy)] calls on one object. *)
Definition translate_all (o : Scrollable) (moves : list (Z * Z)) : Scrollable :=
  fold_left (fun o m => translate o (fst m) (snd m)) moves o.

(** The acreage a county's records add up to. *)
Definition accumulated (fires : list CaliFire.t) : Z :=
  sumZ (map CaliFire.acreage fires).

(** Following the specification's words: an entry of a threshold table is
    the highest satisfied lower bound for an acreage when its bound is at
    most the acreage and no other entry with that property has a larger
    bound. *)
Definition highest_satisfied {V : Type} (table : dict Z V) (a : Z)
    (entry : Z * V) : Prop :=
  In entry table /\ fst entry <= a /\
  forall entry', In entry' table -> fst entry' <= a -> fst entry' <= fst entry.

(** The threshold table read as intervals of acreage. *)
Definition style_of (a : Z) : option (colour_fonts.colour * Z) :=
  if a <? 0 then None
  else if a <? 10000 then Some (colour_fonts.YELLOW, 10)
  else if a <? 20000 then Some (colour_fonts.YELLOW, 12)
  else if a <? 40000 then Some (colour_fonts.YELLOW, 15)
  else if a <? 60000 then Some (colour_fonts.ORANGE, 18)
  else if a <? 80000 then Some (colour_fonts.ORANGE, 20)
  else if a <? 100000 then Some (colour_fonts.RED, 22)
  else Some (colour_fonts.RED, 25).

(** Following the specification's words: the bounding box of a circle with
    centre [(cx, cy)] and radius [r] is the square with top-left corner
    [(cx - r, cy - r)] and side [2 r]; a point is strictly inside when it
    lies between the edges and on none of them. *)
Definition strictly_inside (x y cx cy r : Z) : bool :=
  let left := cx - r in
  let top := cy - r in
  let side := 2 * r in
  (left <? x) && (x <? left + side) && (top <? y) && (y <? top + side).

Definition circle_hit (x y : Z) (c : FireCircle.t) : bool :=
  match FireCircle._radius c with
  | Some r =>
      strictly_inside x y (ScrollableObject._x (FireCircle.base c))
        (ScrollableObject._y (FireCircle.base c)) r
  | None => false
  end.

(** The first FireCircle of a list, in list order, that is hit. *)
Fixpoint first_hit (x y : Z) (objects : list Scrollable) : option FireCircle.t :=
  match objects with
  | [] => None
  | ACircle c :: rest => if circle_hit x y c then Some c else first_hit x y rest
  | _ :: rest => first_hit x y rest
  end.

(** Every FireCircle of a list has had its radius assigned. *)
Definition radii_assigned (objects : list Scrollable) : Prop :=
  forall c, In (ACircle c) objects -> FireCircle._radius c <> None.

(** A record of some season of the dictionary handed to the forecaster. *)
Definition historical (seasons : dict Z CaliFireSeason.t) (fire : CaliFire.t)
  : Prop :=
  exists year season,
    dict_get seasons year = Some season /\
    In fire (CaliFireSeason.top_five season).

(** What the forecaster relies on between its sampling population
    [all_counties] and its dictionary [counties_causes]: every county of the
    population has a non-empty cause list, and the counties and the causes
    are those of historical records. *)
Definition sound_sample (seasons : dict Z CaliFireSeason.t)
    (all_counties : list string)
    (counties_causes : dict string (list string)) : Prop :=
  (forall county, In county all_counties ->
     exists causes,
       dict_get counties_causes county = Some causes /\ causes <> []) /\
  (forall county, In county all_counties ->
     exists fire, historical seasons fire /\ CaliFire.county fire = county) /\
  (forall county causes cause,
     dict_get counties_causes county = Some causes -> In cause causes ->
     exists fire,
       historical seasons fire /\ CaliFire.county fire = county /\
       CaliFire.cause fire = cause).

(** A synthetic record: placeholder acreage and destroyed structures, and a
    county and a cause taken from one historical record. *)
Definition synthetic (seasons : dict Z CaliFireSeason.t) (year : Z)
    (fire : CaliFire.t) : Prop :=
  CaliFire.year fire = year /\
  CaliFire.acreage fire = 90000 /\
  CaliFire.structures_destroyed fire = 32 /\
  exists fire',
    historical seasons fire' /\
    CaliFire.county fire' = CaliFire.county fire /\
    CaliFire.cause fire' = CaliFire.cause fire.

(** The records of the seasons of some keys, in key order. *)
Definition records_of (seasons : dict Z CaliFireSeason.t) (years : list Z)
  : list CaliFire.t :=
  flat_map (fun year =>
              match dict_get seasons year with
              | Some season => CaliFireSeason.top_five season
              | None => []
              end) years.

(** A season stored by the forecaster for a future year: its counts are the
    extrapolated ones for that year and its five records are synthetic. *)
Definition forecast_season (seasons : dict Z CaliFireSeason.t)
    (next_fires next_acreages : list Z) (year : Z)
    (season : CaliFireSeason.t) : Prop :=
  CaliFireSeason.year season = year /\
  nth_error next_fires (Z.to_nat (year - 2021))
  = Some (CaliFireSeason.fires season) /\
  nth_error next_acreages (Z.to_nat (year - 2021))
  = Some (CaliFireSeason.acreage season) /\
  List.length (CaliFireSeason.top_five season) = 5%nat /\
  Forall (synthetic seasons year) (CaliFireSeason.top_five season).

(** The scroll offset lies between its two bounds. *)
Definition within_bounds (st : main.state) : Prop :=
  0 <= main.scroll_amount st <= main.MAX_SCROLL.

(** Following the specification's words: the distinct counties of a top
    five, each at the place of its first record. *)
Fixpoint distinct (names : list string) : list string :=
  match names with
  | [] => []
  | name :: rest =>
      name :: filter (fun other => negb (String.eqb other name)) (distinct rest)
  end.

Definition distinct_counties (top_five : list CaliFire.t) : list string :=
  distinct (map CaliFire.county top_five).

(** Following the specification's words: the subset of the records of a
    top five that belong to one county, in their order. *)
Definition county_records (top_five : list CaliFire.t) (county : string)
  : list CaliFire.t :=
  filter (fun fire => String.eqb (CaliFire.county fire) county) top_five.

(** Following the specification's words: a text of width [text_w] is
    horizontally centred on a canvas of width [screen_w] when its left edge
    is at half of what the canvas has left over, rounded toward zero. *)
Definition centred_x (screen_w text_w : Z) : Z := Z.quot (screen_w - text_w) 2.

(** The binary64 value of half an int [v] with [0 < v < 2 ^ 53], with sign
    [s]: the mantissa is [v] scaled to 53 bits. *)
Definition half_float (s : bool) (v : Z) : PyFloat.float :=
  S754_finite s (Z.to_pos (v * 2 ^ (53 - Zdigits2 v))) (Zdigits2 v - 54).

(** The two texts of a season's scene. *)
Definition summary_text (season : CaliFireSeason.t) : string :=
  let mark :=
    if CaliFireSeason.year season >? 2020 then "~"%string else EmptyString in
  ("Total # of fires: " ++ mark ++ str (CaliFireSeason.fires season)
   ++ "    Total acreage burned: " ++ mark
   ++ str (CaliFireSeason.acreage season))%string.

Definition title_text (season : CaliFireSeason.t) : string :=
  if CaliFireSeason.year season >? 2020 then "Five Vulnerable Counties:"%string
  else "Top Five Fires:"%string.

(** The dictionary [fire_dict] of [get_counties_on_map] after the records
    [seen]: its keys are their distinct counties and each key holds the
    records of its county. *)
Definition filed (seen : list CaliFire.t)
    (fire_dict : dict string (list CaliFire.t)) : Prop :=
  dict_keys fire_dict = distinct_counties seen /\
  forall county,
    dict_get fire_dict county
    = match county_records seen county with
      | [] => None
      | fires => Some fires
      end.

(** Following the specification's words: the circle of a county is built
    from the county's records and stands at the map origin plus the
    county's pixel offset. *)
Definition placed (top_five : list CaliFire.t) (img_map : Image.t)
    (county : string) (circle : FireCircle.t) : Prop :=
  exists x1 y1,
    dict_get county_mapping.MAPPING county = Some (x1, y1) /\
    FireCircle.init (x1 + fst (Image.get_coords img_map))
      (y1 + snd (Image.get_coords img_map))
      (county_records top_five county)
    = Ok circle /\
    FireCircle.get_coords circle
    = (x1 + fst (Image.get_coords img_map),
       y1 + snd (Image.get_coords img_map)) /\
    FireCircle.get_fires circle = county_records top_five county.

(** An int that [float(...)] converts without OverflowError. *)
Definition in_float_range (v : Z) : Prop := is_ok (PyFloat.of_int v) = true.

(** A column whose mean [sum(vs) / len(vs)] is a float. *)
Definition mean_in_float_range (vs : list Z) : Prop :=
  is_ok (PyFloat.int_truediv (sumZ vs) (len vs)) = true.

(** The input of a regression with a constant independent column [xs]:
    paired columns whose ints and whose sum are below [2 ^ 1023] in
    magnitude, far inside the float range. *)
Definition regression_input (xs ys : list Z) (c : Z) : Prop :=
  List.length ys = List.length xs /\
  Z.abs c < 2 ^ 1023 /\
  (forall v, In v ys -> Z.abs v < 2 ^ 1023) /\
  Z.abs (sumZ ys) < 2 ^ 1023.

(** A session to run the frame loop on: a font measure of 13 pixels per
    character and the season 2008 of the data set. *)
Definition sample_size (font : colour_fonts.Font) (text : string) : Z * Z :=
  (13 * Z.of_nat (String.length text), colour_fonts.font_points font).

Definition sample_season : CaliFireSeason.t :=
  CaliFireSeason.mk 2008 6255 1593690
    [CaliFire.mk 2008 "Butte" 47647 "Lightning" 117;
     CaliFire.mk 2008 "Mariposa" 34091 "Other" 133;
     CaliFire.mk 2008 "Riverside" 30305 "Structure" 245;
     CaliFire.mk 2008 "Shasta" 27936 "Lightning" 12;
     CaliFire.mk 2008 "Butte" 23344 "Arson" 351].

Definition sample_data : dict Z CaliFireSeason.t := [(2008, sample_season)].

(** The outcome of a hit test, moved with the scene. *)
Definition shifted (a : Z) (hit : result (option FireCircle.t))
  : result (option FireCircle.t) :=
  match hit with
  | Ok (Some c) => Ok (Some (FireCircle.translate c 0 a))
  | other => other
  end.

(** The scene of a state is the scene of its season, scrolled by the
    offset. *)
Definition scene_in_step (size : colour_fonts.Font -> string -> Z * Z)
    (fire_season_data : dict Z CaliFireSeason.t) (years : list Z)
    (st : main.state) : Prop :=
  exists scene,
    main.season_scene size fire_season_data years (main.curr_index st)
    = Ok scene /\
    main.scrollables st
    = graphics_functions.scroll_objects scene (- main.scroll_amount st).

(** The index of the current season is a position of the data. *)
Definition season_index_valid (fire_season_data : dict Z CaliFireSeason.t)
    (st : main.state) : Prop :=
  0 <= main.curr_index st < len fire_season_data.

(** The texts a sequence of calls puts on the screen through
    [font.render], in order. *)
Definition rendered_texts (calls : list pygame.call) : list string :=
  flat_map (fun c =>
              match c with
              | pygame.blit (pygame.render _ text _ _) _ => [text]
              | _ => []
              end) calls.

(** Following the source's f-strings: the lines of the information panel
    for one record, of a forecast season and of a historical one. *)
Definition panel_lines (forecast : bool) (fire : CaliFire.t) : list string :=
  if forecast then
    [("County: " ++ CaliFire.county fire)%string;
     ("Most Likely Cause: " ++ CaliFire.cause fire)%string]
  else
    [("County: " ++ CaliFire.county fire)%string;
     ("Acreage: " ++ str (CaliFire.acreage fire))%string;
     ("Cause: " ++ CaliFire.cause fire)%string;
     ("Structures destroyed: "
      ++ str (CaliFire.structures_destroyed fire))%string].



(** The height of a bar: [int((v / largest) * 90)]. *)
Definition bar_height (v largest : Z) : result Z :=
  share <- PyFloat.int_truediv v largest ;;
  scaled <- PyFloat.mul_int share 90 ;;
  PyFloat.to_int scaled.

(** What [display_season_data] draws before its sections: the white
    background of the graph and the two rotated axis labels. *)
Definition graph_frame : list pygame.call :=
  [pygame.draw_rect colour_fonts.WHITE
     (pygame.mkRect (pygame.Int 0) (pygame.Int 0) (pygame.Int 760)
        (pygame.Int 130));
   pygame.blit
     (pygame.rotate
        (pygame.render colour_fonts.CALIBRI_14_B "# of Fires" true
           colour_fonts.RED) 90)
     (pygame.Float (PyFloat.round_int 5), pygame.Float (PyFloat.round_int 40));
   pygame.blit
     (pygame.rotate
        (pygame.render colour_fonts.CALIBRI_14_B "Acreage" true
           colour_fonts.ORANGE) 90)
     (pygame.Int 780, pygame.Float (PyFloat.round_int 40))].

(** A stand-in for the ints a [pygame.Rect] holds: an int as it is, a
    float truncated. *)
Definition sample_pixels (n : pygame.num) : Z :=
  match n with
  | pygame.Int z => z
  | pygame.Float x =>
      match PyFloat.to_int x with
      | Ok z => z
      | Err _ => 0
      end
  end.

(** Two seasons to draw the graph of: one of the data set and a forecast
    one. *)
Definition sample_forecast : CaliFireSeason.t :=
  CaliFireSeason.mk 2021 7000 2000000
    [CaliFire.mk 2021 "Butte" 90000 "Lightning" 32;
     CaliFire.mk 2021 "Shasta" 90000 "Arson" 32;
     CaliFire.mk 2021 "Butte" 90000 "Other" 32;
     CaliFire.mk 2021 "Mariposa" 90000 "Lightning" 32;
     CaliFire.mk 2021 "Riverside" 90000 "Structure" 32].

Definition sample_graph : dict Z CaliFireSeason.t :=
  [(2008, sample_season); (2021, sample_forecast)].

(** The format of the data file, following the comment in
    [get_fire_data]: a block is a row with the year, a row per top fire
    (county, acreage, cause, structures destroyed) and a row with the
    season's number of fires and acreage; every row ends with a newline. *)
Record block : Type := mk_block {
  block_year : Z;
  block_fires : list (string * Z * string * Z);
  block_num_fires : Z;
  block_acreage : Z
}.

Definition newline : string := String (ascii_of_nat 10) EmptyString.

Definition fire_row (fire : string * Z * string * Z) : string :=
  let '(county, acreage, cause, destroyed) := fire in
  (county ++ "," ++ str acreage ++ "," ++ cause ++ "," ++ str destroyed
   ++ newline)%string.

Definition block_rows (b : block) : list string :=
  [(str (block_year b) ++ newline)%string]
  ++ map fire_row (block_fires b)
  ++ [(str (block_num_fires b) ++ "," ++ str (block_acreage b)
       ++ newline)%string].

(** The season a block describes. *)
Definition block_season (b : block) : CaliFireSeason.t :=
  CaliFireSeason.mk (block_year b) (block_num_fires b) (block_acreage b)
    (map (fun fire : string * Z * string * Z =>
            let '(county, acreage, cause, destroyed) := fire in
            CaliFire.mk (block_year b) county acreage cause destroyed)
       (block_fires b)).

Fixpoint comma_free (s : string) : bool :=
  match s with
  | EmptyString => true
  | String c rest => negb (Ascii.eqb c ",") && comma_free rest
  end.

(** What reading a block asks of Python's [int] and [isnumeric]: [int]
    reads back the decimal form of an int, with or without the newline
    that ends a row. *)
Definition reads (parse_int : string -> result Z) (z : Z) : Prop :=
  parse_int (str z) = Ok z /\ parse_int (str z ++ newline)%string = Ok z.

Definition readable (parse_int : string -> result Z)
    (isnumeric : string -> bool) (b : block) : Prop :=
  reads parse_int (block_year b)
  /\ reads parse_int (block_num_fires b)
  /\ reads parse_int (block_acreage b)
  /\ isnumeric (str (block_num_fires b)) = true
  /\ Forall (fun fire : string * Z * string * Z =>
               let '(county, acreage, cause, destroyed) := fire in
               isnumeric county = false /\
               comma_free county = true /\
               comma_free cause = true /\
               reads parse_int acreage /\
               reads parse_int destroyed)
       (block_fires b).

(** Stand-ins for the two builtins: decimal digits with an optional sign,
    and an optional newline at the end, are read as an int; a text is
    numeric when it is non-empty and made of digits. *)
Fixpoint without_newline (s : string) : string :=
  match s with
  | EmptyString => EmptyString
  | String c rest =>
      if Ascii.eqb c (ascii_of_nat 10) then
        match rest with
        | EmptyString => EmptyString
        | _ => String c (without_newline rest)
        end
      else String c (without_newline rest)
  end.

Definition sample_int (s : string) : result Z :=
  match NilZero.int_of_string (without_newline s) with
  | Some d => Ok (Z.of_int d)
  | None => Err ValueError
  end.

Fixpoint all_digits (s : string) : bool :=
  match s with
  | EmptyString => true
  | String c rest =>
      (48 <=? nat_of_ascii c)%nat && (nat_of_ascii c <=? 57)%nat
      && all_digits rest
  end.

Definition sample_isnumeric (s : string) : bool :=
  match s with
  | EmptyString => false
  | _ => all_digits s
  end.

Definition sample_block : block :=
  mk_block 2008
    [("Butte", 47647, "Lightning", 117);
     ("Mariposa", 34091, "Other", 133);
     ("Riverside", 30305, "Structure", 245);
     ("Shasta", 27936, "Lightning", 12);
     ("Butte", 23344, "Arson", 351)]%string
    6255 1593690.

(** * Properties *)

(** ** Results and lists *)

Lemma sumZ_from (xs : list Z) (a : Z) : fold_left Z.add xs a = a + sumZ xs.
Proof.
  unfold sumZ. revert a.
  induction xs as [|x xs IH]; intros a; simpl.
  - lia.
  - rewrite (IH (a + x)), (IH x). lia.
Qed.

Lemma sumZ_cons (x : Z) (xs : list Z) : sumZ (x :: xs) = x + sumZ xs.
Proof. unfold sumZ at 1. simpl. apply sumZ_from. Qed.

Lemma sumZ_perm (xs ys : list Z) : Permutation xs ys -> sumZ xs = sumZ ys.
Proof.
  induction 1 as [|x xs ys _ IH|x y xs|xs ys zs _ IH1 _ IH2].
  - reflexivity.
  - rewrite !sumZ_cons. lia.
  - rewrite !sumZ_cons. lia.
  - congruence.
Qed.

(** ** Scrollable objects *)

Lemma get_coords_translate (o : Scrollable) (dx dy : Z) :
  get_coords (translate o dx dy)
  = (fst (get_coords o) + dx, snd (get_coords o) + dy).
Proof. destruct o; reflexivity. Qed.

Lemma get_coords_translate_all (moves : list (Z * Z)) (o : Scrollable) :
  get_coords (translate_all o moves)
  = (fst (get_coords o) + sumZ (map fst moves),
     snd (get_coords o) + sumZ (map snd moves)).
Proof.
  revert o. induction moves as [|[dx dy] moves IH]; intros o.
  - unfold translate_all, sumZ. simpl.
    destruct (get_coords o) as [x y]. simpl. f_equal; lia.
  - change (translate_all o ((dx, dy) :: moves))
      with (translate_all (translate o dx dy) moves).
    rewrite IH, get_coords_translate. cbn [map fst snd].
    rewrite !sumZ_cons. f_equal; lia.
Qed.

(** C8. [translate] is additive and order-independent: after any sequence
    of [translate(dx_i, dy_i)] calls on an object at [(x, y)], [get_coords]
    returns [(x + sum dx_i, y + sum dy_i)]; the same calls in any other
    order give the same coordinates; and two calls in either order give
    what the single call with the summed offsets gives. *)
Theorem translate_additive_order_independent (o : Scrollable) :
  (forall moves,
      get_coords (translate_all o moves)
      = (fst (get_coords o) + sumZ (map fst moves),
         snd (get_coords o) + sumZ (map snd moves)))
  /\ (forall moves moves',
         Permutation moves moves' ->
         get_coords (translate_all o moves')
         = get_coords (translate_all o moves))
  /\ (forall dx1 dy1 dx2 dy2,
         get_coords (translate (translate o dx1 dy1) dx2 dy2)
         = get_coords (translate (translate o dx2 dy2) dx1 dy1)
         /\ get_coords (translate (translate o dx1 dy1) dx2 dy2)
            = get_coords (translate o (dx1 + dx2) (dy1 + dy2))).
Proof.
  split; [|split].
  - intros moves. apply get_coords_translate_all.
  - intros moves moves' P. rewrite !get_coords_translate_all.
    rewrite (sumZ_perm _ _ (Permutation_map fst P)).
    rewrite (sumZ_perm _ _ (Permutation_map snd P)). reflexivity.
  - intros dx1 dy1 dx2 dy2. rewrite !get_coords_translate. cbn [fst snd].
    split; f_equal; lia.
Qed.

(** ** FireCircle: colour, radius and bounding box *)

Lemma fold_add_acreage (fires : list CaliFire.t) (self : FireCircle.t) :
  fold_left FireCircle.add_acreage fires self
  = FireCircle.mk (FireCircle.base self) (FireCircle._county self)
      (FireCircle._acreage self + accumulated fires)
      (FireCircle._fires self) (FireCircle._radius self)
      (FireCircle._colour self).
Proof.
  revert self. induction fires as [|fire fires IH]; intros self.
  - destruct self. unfold accumulated, sumZ. simpl. f_equal. lia.
  - simpl fold_left. rewrite IH. unfold accumulated. simpl map.
    rewrite sumZ_cons. destruct self. simpl. f_equal. lia.
Qed.

Ltac split_order :=
  repeat match goal with
    | |- context [?a <=? ?b] => destruct (Z.leb_spec a b); try (exfalso; lia)
    | |- context [?a <? ?b] => destruct (Z.ltb_spec a b); try (exfalso; lia)
    end.

(** The loop over the bounds leaves the style of the interval the acreage
    falls in, and leaves the object as it was below every bound. *)
Lemma apply_bounds_style (self : FireCircle.t) :
  FireCircle.apply_bounds self (dict_keys FireCircle.bounds)
  = Ok match style_of (FireCircle._acreage self) with
       | Some (c, r) =>
           FireCircle.mk (FireCircle.base self) (FireCircle._county self)
             (FireCircle._acreage self) (FireCircle._fires self)
             (Some r) (Some c)
       | None => self
       end.
Proof.
  destruct self as [b cty a fs r c].
  unfold style_of, FireCircle.apply_bounds, FireCircle.apply_bound.
  repeat (cbn -[Z.leb Z.ltb Z.geb]; rewrite ?Z.geb_leb;
          match goal with
          | |- context [?a <=? ?b] =>
              destruct (Z.leb_spec a b); try (exfalso; lia)
          | |- context [?a <? ?b] =>
              destruct (Z.ltb_spec a b); try (exfalso; lia)
          end);
    reflexivity.
Qed.

Lemma highest_satisfied_style (a bound : Z) (c : colour_fonts.colour) (r : Z) :
  highest_satisfied FireCircle.bounds a (bound, (c, r)) ->
  style_of a = Some (c, r).
Proof.
  intros (Hin & Hle & Hmax). cbn [fst] in Hle, Hmax.
  assert (H0 := Hmax (0, (colour_fonts.YELLOW, 10))).
  assert (H1 := Hmax (10000, (colour_fonts.YELLOW, 12))).
  assert (H2 := Hmax (20000, (colour_fonts.YELLOW, 15))).
  assert (H3 := Hmax (40000, (colour_fonts.ORANGE, 18))).
  assert (H4 := Hmax (60000, (colour_fonts.ORANGE, 20))).
  assert (H5 := Hmax (80000, (colour_fonts.RED, 22))).
  assert (H6 := Hmax (100000, (colour_fonts.RED, 25))).
  cbn [fst] in *.
  unfold FireCircle.bounds in *. cbn [In] in *.
  unfold style_of.
  repeat match goal with
    | H : ?P -> _ -> _ |- _ =>
        let HP := fresh in
        assert (HP : P) by tauto; specialize (H HP); clear HP
    end.
  repeat match goal with
    | H : _ \/ _ |- _ => destruct H as [H|H]
    | H : (_, _) = (_, _) |- _ => inversion H; subst; clear H
    | H : False |- _ => destruct H
    end;
  split_order; reflexivity.
Qed.

Lemma init_historical (x y : Z) (fire0 : CaliFire.t) (rest : list CaliFire.t) :
  CaliFire.year fire0 <= 2020 ->
  exists self,
    FireCircle.init x y (fire0 :: rest) = Ok self /\
    FireCircle.base self = ScrollableObject.mk x y /\
    FireCircle._acreage self = accumulated (fire0 :: rest) /\
    match style_of (accumulated (fire0 :: rest)) with
    | Some (c, r) =>
        FireCircle._colour self = Some c /\ FireCircle._radius self = Some r
    | None =>
        FireCircle._colour self = None /\ FireCircle._radius self = None
    end.
Proof.
  intros Hy. unfold FireCircle.init. cbn [index nth_error bind].
  destruct (Z.gtb_spec (CaliFire.year fire0) 2020) as [?|_]; [lia|].
  rewrite fold_add_acreage, apply_bounds_style.
  cbn [FireCircle.base FireCircle._county FireCircle._acreage
       FireCircle._fires FireCircle._radius FireCircle._colour].
  rewrite Z.add_0_l. eexists. split; [reflexivity|].
  destruct (style_of _) as [[c r]|]; repeat split.
Qed.

Lemma init_fields (x y : Z) (fires : list CaliFire.t) (self : FireCircle.t) :
  FireCircle.init x y fires = Ok self ->
  FireCircle.get_coords self = (x, y) /\ FireCircle.get_fires self = fires.
Proof.
  destruct fires as [|fire0 rest]; [discriminate|].
  unfold FireCircle.init. cbn [index nth_error bind].
  destruct (CaliFire.year fire0 >? 2020).
  - intros Hi. injection Hi as <-. split; reflexivity.
  - rewrite fold_add_acreage, apply_bounds_style. intros Hi.
    injection Hi as <-. destruct (style_of _) as [[c r]|]; split; reflexivity.
Qed.

Lemma init_forecast (x y : Z) (fire0 : CaliFire.t) (rest : list CaliFire.t) :
  2020 < CaliFire.year fire0 ->
  FireCircle.init x y (fire0 :: rest)
  = Ok (FireCircle.mk (ScrollableObject.mk x y) (CaliFire.county fire0) 0
          (fire0 :: rest) (Some 25) (Some colour_fonts.LIGHT_RED)).
Proof.
  intros Hy. unfold FireCircle.init. cbn [index nth_error bind].
  destruct (Z.gtb_spec (CaliFire.year fire0) 2020) as [_|?]; [|lia].
  reflexivity.
Qed.

(** C4. A FireCircle built from a non-empty record list: when the first
    record's year is at most 2020, its colour and radius are those of the
    highest satisfied lower bound of the threshold table for the acreage
    accumulated over all records; in particular 39999 gives (yellow, 15),
    40000 gives (orange, 18) and 150000 gives (red, 25). When the first
    record's year is greater than 2020, the colour is light red and the
    radius 25 whatever the acreages. *)
Theorem FireCircle_style_by_threshold (x y : Z) (fires : list CaliFire.t) :
  fires <> [] ->
  exists fire0 self,
    hd_error fires = Some fire0 /\
    FireCircle.init x y fires = Ok self /\
    (CaliFire.year fire0 <= 2020 ->
       FireCircle._acreage self = accumulated fires /\
       (forall bound c r,
           highest_satisfied FireCircle.bounds (accumulated fires)
             (bound, (c, r)) ->
           FireCircle._colour self = Some c /\ FireCircle._radius self = Some r) /\
       (accumulated fires = 39999 ->
          FireCircle._colour self = Some colour_fonts.YELLOW /\
          FireCircle._radius self = Some 15) /\
       (accumulated fires = 40000 ->
          FireCircle._colour self = Some colour_fonts.ORANGE /\
          FireCircle._radius self = Some 18) /\
       (accumulated fires = 150000 ->
          FireCircle._colour self = Some colour_fonts.RED /\
          FireCircle._radius self = Some 25)) /\
    (2020 < CaliFire.year fire0 ->
       FireCircle._colour self = Some colour_fonts.LIGHT_RED /\
       FireCircle._radius self = Some 25).
Proof.
  intros Hne. destruct fires as [|fire0 rest]; [congruence|].
  exists fire0.
  destruct (Z.le_gt_cases (CaliFire.year fire0) 2020) as [Hy|Hy].
  - destruct (init_historical x y fire0 rest Hy) as (self & Hi & _ & Ha & Hs).
    exists self. split; [reflexivity|]. split; [exact Hi|].
    split; [intros _|lia].
    split; [exact Ha|].
    split; [intros bound c r Hh;
            rewrite (highest_satisfied_style _ _ _ _ Hh) in Hs; exact Hs|].
    split; [|split]; intros Hacc; rewrite Hacc in Hs; exact Hs.
  - eexists. split; [reflexivity|]. split; [apply init_forecast, Hy|].
    split; [lia|]. intros _. split; reflexivity.
Qed.

Lemma FireCircle_style_by_threshold_witness :
  let fires := [CaliFire.mk 2008 "Butte" 47647 "Lightning" 117;
                CaliFire.mk 2008 "Butte" 23344 "Arson" 351] in
  fires <> [] /\
  exists fire0 self,
    hd_error fires = Some fire0 /\
    FireCircle.init 302 367 fires = Ok self /\
    (CaliFire.year fire0 <= 2020 ->
       FireCircle._acreage self = accumulated fires /\
       (forall bound c r,
           highest_satisfied FireCircle.bounds (accumulated fires)
             (bound, (c, r)) ->
           FireCircle._colour self = Some c /\ FireCircle._radius self = Some r) /\
       (accumulated fires = 39999 ->
          FireCircle._colour self = Some colour_fonts.YELLOW /\
          FireCircle._radius self = Some 15) /\
       (accumulated fires = 40000 ->
          FireCircle._colour self = Some colour_fonts.ORANGE /\
          FireCircle._radius self = Some 18) /\
       (accumulated fires = 150000 ->
          FireCircle._colour self = Some colour_fonts.RED /\
          FireCircle._radius self = Some 25)) /\
    (2020 < CaliFire.year fire0 ->
       FireCircle._colour self = Some colour_fonts.LIGHT_RED /\
       FireCircle._radius self = Some 25).
Proof.
  intros fires. split; [discriminate|].
  apply (FireCircle_style_by_threshold 302 367 fires). discriminate.
Defined.

Lemma accumulated_pos (fires : list CaliFire.t) :
  fires <> [] ->
  Forall (fun fire => 0 < CaliFire.acreage fire) fires ->
  0 < accumulated fires.
Proof.
  intros Hne Hpos. induction Hpos as [|fire fires Hf Hpos IH]; [congruence|].
  unfold accumulated in *. simpl map. rewrite sumZ_cons.
  destruct fires as [|fire' fires'].
  - unfold sumZ. simpl. lia.
  - assert (0 < sumZ (map CaliFire.acreage (fire' :: fires'))) by
      (apply IH; discriminate).
    lia.
Qed.

Lemma style_of_radius (a : Z) :
  0 <= a ->
  exists c r, style_of a = Some (c, r) /\ In r [10; 12; 15; 18; 20; 22; 25].
Proof.
  intros Ha. unfold style_of. split_order; do 2 eexists;
    (split; [reflexivity|]); simpl; tauto.
Qed.

Lemma get_bounds_of (self : FireCircle.t) (x y r : Z) :
  FireCircle.base self = ScrollableObject.mk x y ->
  FireCircle._radius self = Some r ->
  FireCircle.get_bounds self = Ok (x - r, y - r, r * 2, r * 2).
Proof.
  intros Hb Hr. unfold FireCircle.get_bounds, FireCircle.radius.
  rewrite Hb, Hr. reflexivity.
Qed.

Lemma init_assigns (x y : Z) (fires : list CaliFire.t) :
  fires <> [] ->
  Forall (fun fire => 0 < CaliFire.acreage fire) fires ->
  exists self c r,
    FireCircle.init x y fires = Ok self /\
    FireCircle.base self = ScrollableObject.mk x y /\
    FireCircle._colour self = Some c /\
    FireCircle._radius self = Some r /\
    In r [10; 12; 15; 18; 20; 22; 25].
Proof.
  intros Hne Hpos.
  assert (Hacc := accumulated_pos fires Hne Hpos).
  destruct fires as [|fire0 rest]; [congruence|].
  destruct (Z.le_gt_cases (CaliFire.year fire0) 2020) as [Hy|Hy].
  - destruct (init_historical x y fire0 rest Hy) as (self & Hi & Hb & _ & Hs).
    destruct (style_of_radius (accumulated (fire0 :: rest)))
      as (c & r & Hst & Hr); [lia|].
    rewrite Hst in Hs. destruct Hs as [Hc Hrad].
    exists self, c, r. auto.
  - exists (FireCircle.mk (ScrollableObject.mk x y) (CaliFire.county fire0) 0
              (fire0 :: rest) (Some 25) (Some colour_fonts.LIGHT_RED)),
      colour_fonts.LIGHT_RED, 25.
    split; [apply init_forecast, Hy|].
    repeat split. simpl. tauto.
Qed.

(** C10. For a non-empty record list with positive acreages,
    [FireCircle.__init__] assigns a colour and a radius, the radius is one
    of 10, 12, 15, 18, 20, 22, 25, and [get_bounds] returns the square
    around the centre whose side is twice the radius, at least 20. *)
Theorem FireCircle_init_assigns_style (x y : Z) (fires : list CaliFire.t) :
  fires <> [] ->
  Forall (fun fire => 0 < CaliFire.acreage fire) fires ->
  exists self c r,
    FireCircle.init x y fires = Ok self /\
    FireCircle._colour self = Some c /\
    FireCircle._radius self = Some r /\
    In r [10; 12; 15; 18; 20; 22; 25] /\
    FireCircle.get_bounds self = Ok (x - r, y - r, r * 2, r * 2) /\
    20 <= r * 2.
Proof.
  intros Hne Hpos.
  destruct (init_assigns x y fires Hne Hpos)
    as (self & c & r & Hi & Hb & Hc & Hr & Hin).
  exists self, c, r.
  repeat (split; [assumption|]). split.
  - exact (get_bounds_of self x y r Hb Hr).
  - simpl in Hin. lia.
Qed.

Lemma FireCircle_init_assigns_style_witness :
  let fires := [CaliFire.mk 2008 "Butte" 47647 "Lightning" 117;
                CaliFire.mk 2008 "Butte" 23344 "Arson" 351] in
  fires <> [] /\
  Forall (fun fire => 0 < CaliFire.acreage fire) fires /\
  exists self c r,
    FireCircle.init 302 367 fires = Ok self /\
    FireCircle._colour self = Some c /\
    FireCircle._radius self = Some r /\
    In r [10; 12; 15; 18; 20; 22; 25] /\
    FireCircle.get_bounds self = Ok (302 - r, 367 - r, r * 2, r * 2) /\
    20 <= r * 2.
Proof.
  intros fires.
  assert (Hne : fires <> []) by discriminate.
  assert (Hpos : Forall (fun fire => 0 < CaliFire.acreage fire) fires)
    by (repeat constructor).
  split; [exact Hne|]. split; [exact Hpos|].
  exact (FireCircle_init_assigns_style 302 367 fires Hne Hpos).
Defined.

(** ** Hit-testing *)

Lemma get_bounds_hit (x y : Z) (c : FireCircle.t) (r : Z) :
  FireCircle._radius c = Some r ->
  exists cx cy w h,
    FireCircle.get_bounds c = Ok (cx, cy, w, h) /\
    ((cx <? x) && (x <? cx + w)) && ((cy <? y) && (y <? cy + h))
    = circle_hit x y c.
Proof.
  intros Hr. unfold FireCircle.get_bounds, FireCircle.radius, circle_hit.
  rewrite Hr. cbn [bind]. do 4 eexists. split; [reflexivity|].
  unfold strictly_inside. rewrite (Z.mul_comm 2 r).
  rewrite <- !andb_assoc. reflexivity.
Qed.

Lemma first_hit_none (x y : Z) (objects : list Scrollable) :
  first_hit x y objects = None <->
  forall c, In (ACircle c) objects -> circle_hit x y c = false.
Proof.
  induction objects as [|o objects IH]; simpl.
  - split; [intros _ c []|reflexivity].
  - destruct o as [i|c0|l].
    + rewrite IH. split; intros Hall c Hc.
      * destruct Hc as [Hc|Hc]; [discriminate|auto].
      * auto.
    + destruct (circle_hit x y c0) eqn:Hhit.
      * split; [discriminate|]. intros Hall.
        rewrite (Hall c0) in Hhit by auto. discriminate.
      * rewrite IH. split; intros Hall c Hc.
        -- destruct Hc as [Hc|Hc]; [inversion Hc; subst; exact Hhit|auto].
        -- auto.
    + rewrite IH. split; intros Hall c Hc.
      * destruct Hc as [Hc|Hc]; [discriminate|auto].
      * auto.
Qed.

Lemma first_hit_some (x y : Z) (objects : list Scrollable) (c : FireCircle.t) :
  first_hit x y objects = Some c ->
  exists before after,
    objects = before ++ ACircle c :: after /\
    circle_hit x y c = true /\
    forall c', In (ACircle c') before -> circle_hit x y c' = false.
Proof.
  induction objects as [|o objects IH]; simpl; [discriminate|].
  intros Hf.
  assert (Hrec : first_hit x y objects = Some c ->
                 (forall c', o = ACircle c' -> circle_hit x y c' = false) ->
                 exists before after,
                   o :: objects = before ++ ACircle c :: after /\
                   circle_hit x y c = true /\
                   forall c', In (ACircle c') before -> circle_hit x y c' = false).
  { intros Hr Ho. destruct (IH Hr) as (before & after & -> & Hc & Hb).
    exists (o :: before), after. split; [reflexivity|]. split; [exact Hc|].
    intros c' [Hc'|Hc']; auto. }
  destruct o as [i|c0|l].
  - apply Hrec; [exact Hf|discriminate].
  - destruct (circle_hit x y c0) eqn:Hhit.
    + inversion Hf; subst. exists [], objects.
      split; [reflexivity|]. split; [exact Hhit|]. intros c' [].
    + apply Hrec; [exact Hf|]. intros c' Hc'. inversion Hc'; subst. exact Hhit.
  - apply Hrec; [exact Hf|discriminate].
Qed.

Lemma edge_not_hit (x y : Z) (c : FireCircle.t) (r : Z) :
  FireCircle._radius c = Some r ->
  x = ScrollableObject._x (FireCircle.base c) - r \/
  x = ScrollableObject._x (FireCircle.base c) + r \/
  y = ScrollableObject._y (FireCircle.base c) - r \/
  y = ScrollableObject._y (FireCircle.base c) + r ->
  circle_hit x y c = false.
Proof.
  intros Hr Hedge. unfold circle_hit, strictly_inside. rewrite Hr.
  apply not_true_is_false. intros Hhit.
  apply andb_prop in Hhit as [Hhit H4]. apply andb_prop in Hhit as [Hhit H3].
  apply andb_prop in Hhit as [H1 H2].
  apply Z.ltb_lt in H1, H2, H3, H4. lia.
Qed.

(** C5. [get_mouse_on_fire_circle] returns the first FireCircle in list
    order whose bounding box, the square with top-left corner
    [(cx - r, cy - r)] and side [2 r] around the centre, strictly contains
    the point; a point on an edge of a box is no hit; and it returns None
    exactly when no FireCircle of the list is hit, in particular when the
    list holds no FireCircle. The circles are those whose radius has been
    assigned. *)
Theorem get_mouse_on_fire_circle_first_hit (x y : Z)
    (objects : list Scrollable) :
  radii_assigned objects ->
  graphics_functions.get_mouse_on_fire_circle x y objects
  = Ok (first_hit x y objects)
  /\ (forall c, first_hit x y objects = Some c ->
        exists before after,
          objects = before ++ ACircle c :: after /\
          circle_hit x y c = true /\
          forall c', In (ACircle c') before -> circle_hit x y c' = false)
  /\ (first_hit x y objects = None <->
      forall c, In (ACircle c) objects -> circle_hit x y c = false)
  /\ (forall c r,
        FireCircle._radius c = Some r ->
        x = ScrollableObject._x (FireCircle.base c) - r \/
        x = ScrollableObject._x (FireCircle.base c) + r \/
        y = ScrollableObject._y (FireCircle.base c) - r \/
        y = ScrollableObject._y (FireCircle.base c) + r ->
        circle_hit x y c = false).
Proof.
  intros Hrad.
  split; [|split; [apply first_hit_some|]; split;
          [apply first_hit_none|apply edge_not_hit]].
  induction objects as [|o objects IH]; [reflexivity|].
  assert (Hrest : radii_assigned objects)
    by (intros c Hc; apply Hrad; right; exact Hc).
  destruct o as [i|c0|l]; simpl; auto.
  destruct (FireCircle._radius c0) as [r|] eqn:Hr.
  - destruct (get_bounds_hit x y c0 r Hr) as (cx & cy & w & h & -> & Htest).
    cbn [bind]. rewrite Htest.
    destruct (circle_hit x y c0); auto.
  - exfalso. apply (Hrad c0); [left; reflexivity|exact Hr].
Qed.

Lemma get_mouse_on_fire_circle_first_hit_witness :
  let far := FireCircle.mk (ScrollableObject.mk 302 367) "Butte" 70991
               [CaliFire.mk 2008 "Butte" 47647 "Lightning" 117;
                CaliFire.mk 2008 "Butte" 23344 "Arson" 351]
               (Some 20) (Some colour_fonts.ORANGE) in
  let near := FireCircle.mk (ScrollableObject.mk 366 476) "Mariposa" 34091
                [CaliFire.mk 2008 "Mariposa" 34091 "Other" 133]
                (Some 15) (Some colour_fonts.YELLOW) in
  let objects :=
    [AnImage (Image.init 190 240 "county_map.jpg"); ACircle far; ACircle near] in
  radii_assigned objects /\
  graphics_functions.get_mouse_on_fire_circle 352 470 objects = Ok (Some near).
Proof.
  intros far near objects.
  assert (Hrad : radii_assigned objects).
  { intros c [Hc|[Hc|[Hc|[]]]]; inversion Hc; subst; discriminate. }
  split; [exact Hrad|].
  exact (proj1 (get_mouse_on_fire_circle_first_hit 352 470 objects Hrad)).
Defined.

(** ** The scroll offset of the frame loop *)

Section Scrolling.
Variable size : colour_fonts.Font -> string -> Z * Z.
Variable fire_season_data : dict Z CaliFireSeason.t.
Variable years : list Z.

Lemma handle_within_bounds (st st' : main.state) (ev : main.event) :
  within_bounds st ->
  main.handle size fire_season_data years st ev = Ok st' ->
  within_bounds st'.
Proof.
  unfold within_bounds, main.handle. intros Hb Hh.
  destruct ev as [|button|k|].
  - inversion Hh; subst. exact Hb.
  - destruct (_ && _) eqn:Hok.
    + inversion Hh; subst. cbn [main.scroll_amount].
      apply andb_prop in Hok as [H1 H2].
      apply Z.leb_le in H1, H2. lia.
    + inversion Hh; subst. exact Hb.
  - destruct (match k with
              | main.K_RIGHT => _ | main.K_LEFT => _ | main.K_other => _
              end) as [i|e]; cbn [bind] in Hh; [|discriminate].
    destruct (main.season_scene _ _ _ _) as [scene|e]; cbn [bind] in Hh;
      [|discriminate].
    inversion Hh; subst. cbn [main.scroll_amount].
    unfold main.MAX_SCROLL. lia.
  - inversion Hh; subst. exact Hb.
Qed.

Lemma handle_all_within_bounds (evs : list main.event) (st st' : main.state) :
  within_bounds st ->
  main.handle_all size fire_season_data years st evs = Ok st' ->
  within_bounds st'.
Proof.
  revert st. induction evs as [|ev evs IH]; intros st Hb Hh.
  - inversion Hh; subst. exact Hb.
  - cbn [main.handle_all] in Hh.
    destruct (main.handle size fire_season_data years st ev) as [st1|e] eqn:H1;
      cbn [bind] in Hh; [|discriminate].
    apply (IH st1); [apply (handle_within_bounds st st1 ev Hb H1)|exact Hh].
Qed.

Lemma reachable_within_bounds (st : main.state) :
  main.reachable size fire_season_data years st -> within_bounds st.
Proof.
  induction 1 as [st Hinit|st escape evs st' _ IH _ Hframe].
  - unfold main.initial in Hinit.
    destruct (main.season_scene _ _ _ _) as [scene|e]; cbn [bind] in Hinit;
      [|discriminate].
    inversion Hinit; subst. unfold within_bounds, main.MAX_SCROLL. simpl. lia.
  - unfold main.frame in Hframe.
    apply (handle_all_within_bounds evs _ st' ) in Hframe; [exact Hframe|].
    destruct escape; exact IH.
Qed.

Lemma scroll_refused (st : main.state) (button : Z) :
  let scroll_translate := (if button =? 5 then -1 else 1) * main.SCROLL_SPEED in
  ~ (0 <= main.scroll_amount st - scroll_translate <= main.MAX_SCROLL) ->
  main.handle size fire_season_data years st (main.MOUSEBUTTONDOWN button) = Ok st.
Proof.
  intros t Hout. unfold main.handle. fold t.
  destruct (_ && _) eqn:Hok; [|reflexivity].
  exfalso. apply Hout. apply andb_prop in Hok as [H1 H2].
  apply Z.leb_le in H1, H2. lia.
Qed.

Lemma scroll_accepted (st : main.state) (button : Z) :
  let scroll_translate := (if button =? 5 then -1 else 1) * main.SCROLL_SPEED in
  0 <= main.scroll_amount st - scroll_translate <= main.MAX_SCROLL ->
  main.handle size fire_season_data years st (main.MOUSEBUTTONDOWN button)
  = Ok (main.mk (main.running st)
          (graphics_functions.scroll_objects (main.scrollables st)
             scroll_translate)
          (main.scroll_amount st - scroll_translate) (main.curr_index st)).
Proof.
  intros t Hin. unfold main.handle. fold t.
  destruct (_ && _) eqn:Hok; [reflexivity|].
  exfalso. apply andb_false_iff in Hok as [H1|H1];
    apply Z.leb_gt in H1; lia.
Qed.

(** C7. The cumulative scroll offset is an invariant of the frame loop:
    it starts at 0 and every state the loop reaches has it between 0 and
    600; every single event keeps it there; a scroll request of step 15
    that would take it past either bound is refused, leaving the whole
    state, offset and scene objects, as it was; a request within the
    bounds moves the offset and the objects by the step; and at offset 0
    an upward scroll request leaves the offset at 0. *)
Theorem scroll_offset_invariant (st : main.state) :
  main.reachable size fire_season_data years st ->
  0 <= main.scroll_amount st <= 600
  /\ (forall st0, main.initial size fire_season_data years = Ok st0 ->
        main.scroll_amount st0 = 0)
  /\ (forall ev st', main.handle size fire_season_data years st ev = Ok st' ->
        0 <= main.scroll_amount st' <= 600)
  /\ (forall button,
        let scroll_translate := (if button =? 5 then -1 else 1) * 15 in
        (~ (0 <= main.scroll_amount st - scroll_translate <= 600) ->
         main.handle size fire_season_data years st
           (main.MOUSEBUTTONDOWN button)
         = Ok st)
        /\ (0 <= main.scroll_amount st - scroll_translate <= 600 ->
            main.handle size fire_season_data years st (main.MOUSEBUTTONDOWN button)
            = Ok (main.mk (main.running st)
                    (map (fun o => translate o 0 scroll_translate)
                       (main.scrollables st))
                    (main.scroll_amount st - scroll_translate)
                    (main.curr_index st))))
  /\ (main.scroll_amount st = 0 ->
      forall button, button <> 5 ->
        main.handle size fire_season_data years st
          (main.MOUSEBUTTONDOWN button)
        = Ok st).
Proof.
  intros Hreach.
  assert (Hb := reachable_within_bounds st Hreach).
  split; [exact Hb|]. split; [|split; [|split]].
  - intros st0 Hinit. unfold main.initial in Hinit.
    destruct (main.season_scene _ _ _ _) as [scene|e]; cbn [bind] in Hinit;
      [|discriminate].
    inversion Hinit; subst. reflexivity.
  - intros ev st' Hh. exact (handle_within_bounds st st' ev Hb Hh).
  - intros button t. split.
    + apply scroll_refused.
    + apply scroll_accepted.
  - intros H0 button Hup. apply scroll_refused.
    destruct (Z.eqb_spec button 5) as [?|_]; [contradiction|].
    rewrite H0. unfold main.SCROLL_SPEED, main.MAX_SCROLL. lia.
Qed.
End Scrolling.

Lemma scroll_offset_invariant_witness :
  exists st,
    main.reachable sample_size sample_data [2008] st /\
    main.scroll_amount st = 15 /\
    0 <= main.scroll_amount st <= 600.
Proof.
  destruct (main.initial sample_size sample_data [2008]) as [st0|e] eqn:Hinit;
    [|vm_compute in Hinit; discriminate].
  assert (Hreach0 := main.reach_initial _ _ _ st0 Hinit).
  assert (Hshape : main.running st0 = true /\ main.scroll_amount st0 = 0).
  { unfold main.initial in Hinit.
    destruct (main.season_scene _ _ _ _); cbn [bind] in Hinit; [|discriminate].
    injection Hinit as <-. split; reflexivity. }
  destruct Hshape as [Hrun Hzero].
  set (st1 := main.mk (main.running st0)
                (graphics_functions.scroll_objects (main.scrollables st0) (-15))
                15 (main.curr_index st0)).
  assert (Hframe : main.frame sample_size sample_data [2008] st0 false
                     [main.MOUSEBUTTONDOWN 5] = Ok st1).
  { unfold main.frame. cbn [main.handle_all main.handle].
    rewrite Hzero. reflexivity. }
  assert (Hreach1 := main.reach_frame _ _ _ st0 false _ st1 Hreach0 Hrun Hframe).
  exists st1. split; [exact Hreach1|]. split; [reflexivity|].
  exact (proj1 (scroll_offset_invariant sample_size sample_data [2008] st1
                  Hreach1)).
Defined.

(** ** Dictionaries *)

Section DictFacts.
Context {K V : Type} `{KeyEq K}.

Lemma keqb_refl (k : K) : keqb k k = true.
Proof. apply keqb_eq. reflexivity. Qed.

Lemma keqb_neq (a b : K) : a <> b -> keqb a b = false.
Proof.
  intros Hne. destruct (keqb a b) eqn:E; [|reflexivity].
  apply keqb_eq in E. contradiction.
Qed.

Lemma dict_get_set_same (d : dict K V) (k : K) (v : V) :
  dict_get (dict_set d k v) k = Some v.
Proof.
  induction d as [|[k' v'] d IH]; simpl.
  - rewrite keqb_refl. reflexivity.
  - destruct (keqb k k') eqn:E; simpl; rewrite E; [reflexivity|exact IH].
Qed.

Lemma dict_get_set_other (d : dict K V) (k k' : K) (v : V) :
  k <> k' -> dict_get (dict_set d k v) k' = dict_get d k'.
Proof.
  intros Hne. induction d as [|[k0 v0] d IH]; simpl.
  - rewrite keqb_neq by congruence. reflexivity.
  - destruct (keqb k k0) eqn:E; simpl.
    + apply keqb_eq in E. subst k0.
      rewrite keqb_neq by congruence. reflexivity.
    + destruct (keqb k' k0); [reflexivity|exact IH].
Qed.

Lemma dict_get_in_keys (d : dict K V) (k : K) :
  In k (dict_keys d) <-> exists v, dict_get d k = Some v.
Proof.
  induction d as [|[k' v'] d IH]; simpl.
  - split; [intros []|intros [v Hv]; discriminate].
  - destruct (keqb k k') eqn:E.
    + apply keqb_eq in E. subst k'. split; eauto.
    + rewrite IH. split; [intros [Hk|Hk]; [subst; rewrite keqb_refl in E;
                                           discriminate|exact Hk]|auto].
Qed.

Lemma dict_keys_set_new (d : dict K V) (k : K) (v : V) :
  ~ In k (dict_keys d) -> dict_keys (dict_set d k v) = dict_keys d ++ [k].
Proof.
  induction d as [|[k' v'] d IH]; simpl; intros Hnew; [reflexivity|].
  rewrite keqb_neq by (intros ->; apply Hnew; left; reflexivity).
  simpl. f_equal. apply IH. intros Hk. apply Hnew. right. exact Hk.
Qed.

Lemma dict_keys_set_old (d : dict K V) (k : K) (v : V) :
  In k (dict_keys d) -> dict_keys (dict_set d k v) = dict_keys d.
Proof.
  induction d as [|[k' v'] d IH]; simpl; intros Hold; [destruct Hold|].
  destruct (keqb k k') eqn:E; simpl; [reflexivity|].
  f_equal. apply IH. destruct Hold as [->|Hold]; [|exact Hold].
  rewrite keqb_refl in E. discriminate.
Qed.
End DictFacts.

(** ** The random source *)

Import data_functions.

Lemma choice_in {A : Type} (xs : list A) (g g' : random.Rng) (x : A) :
  random.choice xs g = Ok (x, g') -> In x xs.
Proof.
  unfold random.choice. destruct xs as [|x0 xs]; [discriminate|].
  destruct (random.next g) as [r g1]. set (l := x0 :: xs). intros Hc.
  assert (Hx : fst (nth (r mod List.length l) l x0, g1) = fst (x, g'))
    by congruence.
  cbn [fst] in Hx. rewrite <- Hx.
  apply nth_In, Nat.mod_upper_bound. discriminate.
Qed.

Lemma choice_total {A : Type} (xs : list A) (g : random.Rng) :
  xs <> [] -> exists x g', random.choice xs g = Ok (x, g').
Proof.
  unfold random.choice. destruct xs as [|x0 xs]; [congruence|].
  intros _. destruct (random.next g) as [r g1]. eauto.
Qed.

Lemma choices_spec (k : nat) (counties : list string) (g : random.Rng) :
  counties <> [] ->
  exists cs g',
    choices k counties g = Ok (cs, g') /\
    List.length cs = k /\ forall c, In c cs -> In c counties.
Proof.
  intros Hne. revert g. induction k as [|k IH]; intros g.
  - exists [], g. repeat split. intros c [].
  - destruct (choice_total counties g Hne) as (c & g1 & Hc).
    destruct (IH g1) as (cs & g2 & Hcs & Hlen & Hin).
    exists (c :: cs), g2. cbn [choices]. rewrite Hc. cbn [bind]. rewrite Hcs.
    cbn [bind]. split; [reflexivity|]. split; [simpl; congruence|].
    intros c' [<-|Hc']; [exact (choice_in _ _ _ _ Hc)|auto].
Qed.

(** ** The forecaster's sampling population *)

Section Sampling.
Variable seasons : dict Z CaliFireSeason.t.

Lemma note_fire_sound (all_counties : list string)
    (counties_causes : dict string (list string)) (fire : CaliFire.t) :
  sound_sample seasons all_counties counties_causes ->
  historical seasons fire ->
  exists counties_causes',
    note_fire (all_counties, counties_causes) fire
    = Ok (all_counties ++ [CaliFire.county fire], counties_causes') /\
    sound_sample seasons (all_counties ++ [CaliFire.county fire])
      counties_causes'.
Proof.
  intros (Hcauses & Hcounty & Hcause) Hhist. unfold note_fire.
  set (c := CaliFire.county fire).
  set (cc1 := if dict_mem counties_causes c then counties_causes
              else dict_set counties_causes c []).
  assert (Hget : exists causes,
             dict_get cc1 c = Some causes /\
             forall x, In x causes ->
               exists fire', historical seasons fire' /\
                 CaliFire.county fire' = c /\ CaliFire.cause fire' = x).
  { unfold cc1, dict_mem. destruct (dict_get counties_causes c) as [l|] eqn:E.
    - exists l. split; [exact E|]. intros x Hx. exact (Hcause c l x E Hx).
    - exists []. split; [apply dict_get_set_same|]. intros x []. }
  assert (Hother : forall c', c <> c' ->
             dict_get cc1 c' = dict_get counties_causes c').
  { intros c' Hne. unfold cc1. destruct (dict_mem counties_causes c);
      [reflexivity|apply dict_get_set_other, Hne]. }
  destruct Hget as (causes & Hg & Hold).
  unfold getitem. rewrite Hg. cbn [bind]. eexists. split; [reflexivity|].
  split; [|split].
  - intros c' Hin. destruct (string_dec c c') as [<-|Hne].
    + exists (causes ++ [CaliFire.cause fire]).
      split; [apply dict_get_set_same|]. destruct causes; discriminate.
    + rewrite dict_get_set_other, Hother by exact Hne.
      apply in_app_or in Hin as [Hin|[Hin|[]]]; [auto|contradiction].
  - intros c' Hin. apply in_app_or in Hin as [Hin|[<-|[]]]; [auto|].
    exists fire. split; [exact Hhist|reflexivity].
  - intros c' causes' x Hget Hx. destruct (string_dec c c') as [<-|Hne].
    + rewrite dict_get_set_same in Hget. inversion Hget; subst causes'.
      apply in_app_or in Hx as [Hx|[<-|[]]]; [auto|].
      exists fire. repeat split. exact Hhist.
    + rewrite dict_get_set_other, Hother in Hget by exact Hne. eauto.
Qed.

Lemma note_fires_sound (top_five : list CaliFire.t) (all_counties : list string)
    (counties_causes : dict string (list string)) :
  sound_sample seasons all_counties counties_causes ->
  (forall fire, In fire top_five -> historical seasons fire) ->
  exists counties_causes',
    note_fires (all_counties, counties_causes) top_five
    = Ok (all_counties ++ map CaliFire.county top_five, counties_causes') /\
    sound_sample seasons (all_counties ++ map CaliFire.county top_five)
      counties_causes'.
Proof.
  revert all_counties counties_causes.
  induction top_five as [|fire rest IH]; intros ac cc Hs Hh.
  - exists cc. simpl. rewrite app_nil_r. auto.
  - destruct (note_fire_sound ac cc fire Hs) as (cc1 & Hn & Hs1);
      [apply Hh; left; reflexivity|].
    destruct (IH _ cc1 Hs1) as (cc2 & Hr & Hs2);
      [intros f Hf; apply Hh; right; exact Hf|].
    exists cc2. cbn [note_fires]. rewrite Hn. cbn [bind]. rewrite Hr.
    simpl map. rewrite <- app_assoc in *. auto.
Qed.

Lemma collect_sound (years : list Z) (all_counties : list string)
    (counties_causes : dict string (list string)) :
  sound_sample seasons all_counties counties_causes ->
  (forall year, In year years -> In year (dict_keys seasons)) ->
  exists counties_causes',
    collect seasons years (all_counties, counties_causes)
    = Ok (all_counties ++ map CaliFire.county (records_of seasons years),
          counties_causes') /\
    sound_sample seasons
      (all_counties ++ map CaliFire.county (records_of seasons years))
      counties_causes'.
Proof.
  revert all_counties counties_causes.
  induction years as [|year rest IH]; intros ac cc Hs Hk.
  - exists cc. simpl. rewrite app_nil_r. auto.
  - destruct (proj1 (dict_get_in_keys seasons year)) as [s Hget];
      [apply Hk; left; reflexivity|].
    destruct (note_fires_sound (CaliFireSeason.top_five s) ac cc Hs)
      as (cc1 & Hn & Hs1); [intros f Hf; exists year, s; auto|].
    destruct (IH _ cc1 Hs1) as (cc2 & Hr & Hs2);
      [intros y Hy; apply Hk; right; exact Hy|].
    exists cc2. cbn [collect]. unfold getitem. rewrite Hget. cbn [bind].
    rewrite Hn. cbn [bind]. rewrite Hr.
    unfold records_of. cbn [flat_map]. rewrite Hget.
    rewrite map_app, app_assoc. fold (records_of seasons rest). auto.
Qed.

Lemma sound_sample_empty : sound_sample seasons [] [].
Proof.
  split; [|split].
  - intros c [].
  - intros c [].
  - intros c causes x Hget. discriminate.
Qed.

Lemma top_five_loop_sound (year : Z) (all_counties : list string)
    (counties_causes : dict string (list string))
    (five_counties : list string) (so_far : list CaliFire.t)
    (g : random.Rng) :
  sound_sample seasons all_counties counties_causes ->
  (forall c, In c five_counties -> In c all_counties) ->
  Forall (synthetic seasons year) so_far ->
  exists top_five g',
    top_five_loop year five_counties counties_causes so_far g
    = Ok (top_five, g') /\
    List.length top_five = (List.length so_far + List.length five_counties)%nat /\
    Forall (synthetic seasons year) top_five.
Proof.
  intros (Hcauses & Hcounty & Hcause) Hsub.
  revert so_far g. induction five_counties as [|c rest IH]; intros so_far g Hsf.
  - exists so_far, g. simpl. rewrite Nat.add_0_r. auto.
  - destruct (Hcauses c) as (causes & Hget & Hne); [apply Hsub; left; reflexivity|].
    destruct (choice_total causes g Hne) as (x & g1 & Hx).
    destruct (Hcause c causes x Hget (choice_in _ _ _ _ Hx))
      as (f & Hf & Hfc & Hfx).
    destruct (IH (fun c' Hc' => Hsub c' (or_intror Hc'))
                (so_far ++ [CaliFire.mk year c 90000 x 32]) g1)
      as (top & g2 & Hloop & Hlen & Hall).
    { apply Forall_app. split; [exact Hsf|]. constructor; [|constructor].
      repeat split. exists f. simpl. auto. }
    exists top, g2. cbn [top_five_loop]. unfold getitem, predict_cause.
    rewrite Hget. cbn [bind]. rewrite Hx. cbn [bind].
    split; [exact Hloop|]. split; [|exact Hall].
    rewrite Hlen, length_app. simpl. lia.
Qed.

Lemma predict_next_top_five_sound (year : Z) (all_counties : list string)
    (counties_causes : dict string (list string)) (g : random.Rng) :
  sound_sample seasons all_counties counties_causes ->
  all_counties <> [] ->
  exists top_five g',
    predict_next_top_five year all_counties counties_causes g
    = Ok (top_five, g') /\
    List.length top_five = 5%nat /\
    Forall (synthetic seasons year) top_five.
Proof.
  intros Hs Hne. unfold predict_next_top_five, predict_next_five_counties.
  destruct (choices_spec 5 all_counties g Hne) as (cs & g1 & Hcs & Hlen & Hin).
  rewrite Hcs. cbn [bind].
  destruct (top_five_loop_sound year all_counties counties_causes cs [] g1 Hs Hin)
    as (top & g2 & Hloop & Hl & Hall); [constructor|].
  exists top, g2. split; [exact Hloop|]. split; [|exact Hall].
  rewrite Hl, Hlen. reflexivity.
Qed.
End Sampling.

(** ** The forecaster's last loop *)

Ltac bind_inv H :=
  repeat match type of H with
    | bind ?r _ = Ok _ =>
        let E := fresh "E" in
        destruct r eqn:E; cbn [bind] in H; [|discriminate]
    end.

Lemma range_empty (lo hi : Z) : hi <= lo -> range lo hi = [].
Proof.
  intros Hle. unfold range. replace (Z.to_nat (hi - lo)) with 0%nat by lia.
  reflexivity.
Qed.

Lemma range_unfold (lo hi : Z) :
  lo < hi -> range lo hi = lo :: range (lo + 1) hi.
Proof.
  intros Hlt. unfold range.
  replace (Z.to_nat (hi - lo)) with (S (Z.to_nat (hi - (lo + 1)))) by lia.
  cbn [seq map]. f_equal; [lia|].
  rewrite <- seq_shift, map_map. apply map_ext. intros k. lia.
Qed.

Lemma predict_next_top_five_ok (seasons : dict Z CaliFireSeason.t) (year : Z)
    (all_counties : list string) (counties_causes : dict string (list string))
    (g g' : random.Rng) (top_five : list CaliFire.t) :
  sound_sample seasons all_counties counties_causes ->
  predict_next_top_five year all_counties counties_causes g
  = Ok (top_five, g') ->
  List.length top_five = 5%nat /\ Forall (synthetic seasons year) top_five.
Proof.
  intros Hs Hp. destruct all_counties as [|c ac]; [discriminate|].
  destruct (predict_next_top_five_sound seasons year (c :: ac) counties_causes g Hs)
    as (top & g1 & Hp' & Hl & Hall); [discriminate|].
  rewrite Hp in Hp'. inversion Hp'; subst. auto.
Qed.

Section Register.
Variable seasons0 : dict Z CaliFireSeason.t.
Variable next_fires next_acreages : list Z.
Variable all_counties : list string.
Variable counties_causes : dict string (list string).
Hypothesis sample : sound_sample seasons0 all_counties counties_causes.

(** One pass of the last loop either stores a forecast season under the
    year [2020 + i] or stops the loop with an exception. *)
Lemma register_step (i : Z) (rest : list Z) (seasons : dict Z CaliFireSeason.t)
    (g : random.Rng) :
  1 <= i ->
  (exists season g',
      forecast_season seasons0 next_fires next_acreages (2020 + i) season /\
      register (i :: rest) next_fires next_acreages all_counties
        counties_causes seasons g
      = register rest next_fires next_acreages all_counties counties_causes
          (dict_set seasons (2020 + i) season) g')
  \/ (exists e,
        register (i :: rest) next_fires next_acreages all_counties
          counties_causes seasons g
        = (seasons, Err e)).
Proof.
  intros Hi. cbn [register].
  destruct (index next_fires (Z.to_nat (i - 1))) as [fires|e] eqn:Ef;
    cbn [bind]; [|right; eauto].
  destruct (index next_acreages (Z.to_nat (i - 1))) as [acreage|e] eqn:Ea;
    cbn [bind]; [|right; eauto].
  destruct (predict_next_top_five (2020 + i) all_counties counties_causes g)
    as [[top g']|e] eqn:Ep; cbn [bind]; [|right; eauto].
  left. exists (CaliFireSeason.mk (2020 + i) fires acreage top), g'.
  split; [|reflexivity].
  destruct (predict_next_top_five_ok _ _ _ _ _ _ _ sample Ep) as [Hl Hall].
  unfold forecast_season.
  cbn [CaliFireSeason.year CaliFireSeason.fires CaliFireSeason.acreage
       CaliFireSeason.top_five].
  unfold index in Ef, Ea. replace (2020 + i - 2021) with (i - 1) by lia.
  destruct (nth_error next_fires _); [|discriminate].
  destruct (nth_error next_acreages _); [|discriminate].
  repeat split; auto; congruence.
Qed.

(** The entries of the dictionary after the loop: an entry is as it was
    before the loop or is a forecast season stored by the loop. *)
Lemma register_entries (steps : list Z) (seasons : dict Z CaliFireSeason.t)
    (g : random.Rng) (year : Z) :
  (forall i, In i steps -> 1 <= i) ->
  let seasons' :=
    fst (register steps next_fires next_acreages all_counties counties_causes
           seasons g) in
  dict_get seasons' year = dict_get seasons year
  \/ (In (year - 2020) steps /\
      exists season,
        dict_get seasons' year = Some season /\
        forecast_season seasons0 next_fires next_acreages year season).
Proof.
  revert seasons g. induction steps as [|i rest IH]; intros seasons g Hpos.
  - left. reflexivity.
  - destruct (register_step i rest seasons g) as [(s & g' & Hf & ->)|(e & ->)];
      [apply Hpos; left; reflexivity| |left; reflexivity].
    destruct (IH (dict_set seasons (2020 + i) s) g') as [Hsame|(Hin & s' & Hs')];
      [intros j Hj; apply Hpos; right; exact Hj| |].
    + cbv zeta. rewrite Hsame.
      destruct (Z.eq_dec (2020 + i) year) as [<-|Hne].
      * right. split; [left; lia|]. exists s.
        rewrite dict_get_set_same. auto.
      * left. apply dict_get_set_other. exact Hne.
    + right. split; [right; exact Hin|]. exists s'. exact Hs'.
Qed.

(** The keys after the loop over [range(lo, hi)], when every key before the
    loop is below [2020 + lo]: the years of the passes completed are
    appended, and no entry below [2020 + lo] is touched. *)
Lemma register_keys (m : nat) (lo hi : Z) (seasons : dict Z CaliFireSeason.t)
    (g : random.Rng) :
  m = Z.to_nat (hi - lo) -> 1 <= lo ->
  (forall k, In k (dict_keys seasons) -> k < 2020 + lo) ->
  let after :=
    register (range lo hi) next_fires next_acreages all_counties
      counties_causes seasons g in
  (forall k, k < 2020 + lo -> dict_get (fst after) k = dict_get seasons k)
  /\ exists j,
       lo <= j <= Z.max lo hi /\
       dict_keys (fst after)
       = dict_keys seasons ++ map (Z.add 2020) (range lo j) /\
       (is_ok (snd after) = true -> j = Z.max lo hi).
Proof.
  revert lo seasons g. induction m as [|m IH]; intros lo seasons g Hm Hlo Hkeys.
  - rewrite range_empty by lia. cbn. split; [reflexivity|].
    exists lo. rewrite range_empty, app_nil_r by lia. repeat split; lia.
  - rewrite range_unfold by lia.
    destruct (register_step lo (range (lo + 1) hi) seasons g Hlo)
      as [(s & g' & _ & ->)|(e & ->)].
    + assert (Hnew : ~ In (2020 + lo) (dict_keys seasons))
        by (intros Hin; apply Hkeys in Hin; lia).
      destruct (IH (lo + 1) (dict_set seasons (2020 + lo) s) g')
        as (Hget & j & Hj & Hk & Hok); [lia|lia| |].
      { intros k. rewrite dict_keys_set_new by exact Hnew.
        intros Hin. apply in_app_or in Hin as [Hin|[<-|[]]];
          [apply Hkeys in Hin|]; lia. }
      cbv zeta. split.
      * intros k Hk'. rewrite Hget by lia. apply dict_get_set_other. lia.
      * exists j. split; [lia|]. split; [|intros H; rewrite Hok by exact H; lia].
        rewrite Hk, dict_keys_set_new by exact Hnew.
        rewrite <- app_assoc. f_equal.
        destruct (Z.eq_dec j lo) as [->|Hne].
        -- rewrite (range_empty (lo + 1)), (range_unfold lo), range_empty
             by lia. reflexivity.
        -- rewrite (range_unfold lo j) by lia. reflexivity.
    + cbn. split; [reflexivity|]. exists lo.
      rewrite range_empty, app_nil_r by lia.
      split; [lia|]. split; [reflexivity|discriminate].
Qed.
End Register.

(** ** The forecaster *)

Lemma prepare_sample (seasons : dict Z CaliFireSeason.t) (n : Z)
    (next_fires next_acreages : list Z) (all_counties : list string)
    (counties_causes : dict string (list string)) :
  prepare seasons n
  = Ok (next_fires, next_acreages, all_counties, counties_causes) ->
  collect seasons (dict_keys seasons) ([], [])
  = Ok (all_counties, counties_causes)
  /\ sound_sample seasons all_counties counties_causes
  /\ all_counties
     = map CaliFire.county (records_of seasons (dict_keys seasons)).
Proof.
  intros Hp. unfold prepare in Hp.
  destruct (collect_sound seasons (dict_keys seasons) [] []
              (sound_sample_empty seasons) (fun _ H => H))
    as (cc & Hc & Hs).
  cbn [app] in *. bind_inv Hp.
  match goal with
  | E : collect _ _ _ = Ok ?p |- _ =>
      is_var p; pose proof (eq_trans (eq_sym E) Hc) as Heq;
      injection Heq as Heq; subst p
  end.
  bind_inv Hp. inversion Hp; subst. auto.
Qed.

(** C9. The sampling population and the cause dictionary built by
    [predict_fire_season_data] fit together: the collecting loop returns,
    every county of [all_counties] is a key of [counties_causes] with a
    non-empty cause list, so [predict_next_top_five] never fails on the
    lookup [counties_causes[county]] (it returns five records unless the
    population is empty, where [random.choice] raises IndexError), and
    every synthetic record, of [predict_next_top_five] and of the seasons
    the forecaster stores, has the county and the cause of a record of some
    historical season's top five. *)
Theorem sampled_counties_have_causes (seasons : dict Z CaliFireSeason.t) :
  exists all_counties counties_causes,
    collect seasons (dict_keys seasons) ([], [])
    = Ok (all_counties, counties_causes)
    /\ (forall county, In county all_counties ->
          exists causes,
            dict_get counties_causes county = Some causes /\ causes <> [])
    /\ (forall year g,
          match predict_next_top_five year all_counties counties_causes g with
          | Ok (top_five, _) =>
              List.length top_five = 5%nat /\
              forall fire, In fire top_five ->
                In (CaliFire.county fire) all_counties /\
                (exists fire', historical seasons fire' /\
                   CaliFire.county fire' = CaliFire.county fire) /\
                (exists fire', historical seasons fire' /\
                   CaliFire.cause fire' = CaliFire.cause fire)
          | Err e => e = IndexError /\ all_counties = []
          end)
    /\ (forall n g year season,
          dict_get (fst (predict_fire_season_data seasons n g)) year
          = Some season ->
          dict_get seasons year = Some season
          \/ forall fire, In fire (CaliFireSeason.top_five season) ->
               (exists fire', historical seasons fire' /\
                  CaliFire.county fire' = CaliFire.county fire) /\
               (exists fire', historical seasons fire' /\
                  CaliFire.cause fire' = CaliFire.cause fire)).
Proof.
  destruct (collect_sound seasons (dict_keys seasons) [] []
              (sound_sample_empty seasons) (fun _ H => H))
    as (cc & Hc & Hs).
  cbn [app] in *.
  set (ac := map CaliFire.county (records_of seasons (dict_keys seasons))) in *.
  assert (Hsyn : forall year fire, synthetic seasons year fire ->
             (exists fire', historical seasons fire' /\
                CaliFire.county fire' = CaliFire.county fire) /\
             (exists fire', historical seasons fire' /\
                CaliFire.cause fire' = CaliFire.cause fire)).
  { intros year fire (_ & _ & _ & f & Hh & Hcty & Hcause). split; exists f; auto. }
  exists ac, cc. split; [exact Hc|]. split; [exact (proj1 Hs)|]. split.
  - intros year g. destruct ac as [|c ac'] eqn:Eac.
    + cbn. auto.
    + destruct (predict_next_top_five_sound seasons year (c :: ac') cc g Hs)
        as (top & g' & -> & Hlen & Hall); [discriminate|].
      split; [exact Hlen|]. intros fire Hin.
      rewrite Forall_forall in Hall. specialize (Hall fire Hin).
      split; [|exact (Hsyn year fire Hall)].
      destruct Hall as (_ & _ & _ & f & (y & s & Hget & Hf) & Hcty & _).
      rewrite <- Hcty, <- Eac. unfold ac. apply in_map.
      unfold records_of. apply in_flat_map. exists y.
      split; [apply dict_get_in_keys; eauto|]. rewrite Hget. exact Hf.
  - intros n g year season Hget. unfold predict_fire_season_data in Hget.
    destruct (prepare seasons n) as [[[[nf na] ac1] cc1]|e] eqn:Hp;
      [|left; exact Hget].
    destruct (prepare_sample _ _ _ _ _ _ Hp) as (_ & Hs1 & _).
    destruct (register_entries seasons nf na ac1 cc1 Hs1 (range 1 (n + 1))
                seasons g year) as [Hsame|(_ & s & Hs' & Hf)].
    + unfold range. intros i Hi. apply in_map_iff in Hi as (k & <- & _). lia.
    + left. rewrite <- Hsame. exact Hget.
    + right. rewrite Hget in Hs'. inversion Hs'; subst s.
      destruct Hf as (_ & _ & _ & _ & Hall). rewrite Forall_forall in Hall.
      intros fire Hin. exact (Hsyn year fire (Hall fire Hin)).
Qed.

(** C3. For a season dictionary whose keys are all at most 2020 and a
    count [n > 0], [predict_fire_season_data] only adds entries: every year
    that had an entry keeps the season it had, and the keys afterwards are
    the former keys followed by 2021, 2022, ... up to [2020 + n] when the
    call returns (up to the last year stored when it raises). *)
Theorem forecast_only_adds (seasons : dict Z CaliFireSeason.t) (n : Z)
    (g : random.Rng) :
  (forall k, In k (dict_keys seasons) -> k <= 2020) ->
  0 < n ->
  let after := predict_fire_season_data seasons n g in
  (forall k season,
      dict_get seasons k = Some season ->
      dict_get (fst after) k = Some season)
  /\ (forall k, k <= 2020 -> dict_get (fst after) k = dict_get seasons k)
  /\ (exists j,
        0 <= j <= n /\
        dict_keys (fst after)
        = dict_keys seasons ++ map (Z.add 2020) (range 1 (j + 1)) /\
        (is_ok (snd after) = true -> j = n)).
Proof.
  intros Hkeys Hn after.
  assert (Hframe :
            (forall k, k <= 2020 -> dict_get (fst after) k = dict_get seasons k)
            /\ exists j,
                0 <= j <= n /\
                dict_keys (fst after)
                = dict_keys seasons ++ map (Z.add 2020) (range 1 (j + 1)) /\
                (is_ok (snd after) = true -> j = n)).
  { unfold after, predict_fire_season_data.
    destruct (prepare seasons n) as [[[[nf na] ac] cc]|e] eqn:Hp.
    - destruct (prepare_sample _ _ _ _ _ _ Hp) as (_ & Hs & _).
      destruct (register_keys seasons nf na ac cc Hs (Z.to_nat (n + 1 - 1)) 1
                  (n + 1) seasons g eq_refl)
        as (Hget & j & Hj & Hk & Hok); [lia| |].
      { intros k Hk. apply Hkeys in Hk. lia. }
      split; [intros k Hk'; apply Hget; lia|].
      exists (j - 1). replace (j - 1 + 1) with j by lia.
      split; [lia|]. split; [exact Hk|]. intros H. rewrite Hok by exact H. lia.
    - cbn. split; [reflexivity|]. exists 0. rewrite range_empty, app_nil_r by lia.
      split; [lia|]. split; [reflexivity|discriminate]. }
  destruct Hframe as [Hget Hj]. split; [|split; [exact Hget|exact Hj]].
  intros k season Hk. rewrite Hget; [exact Hk|].
  apply Hkeys, dict_get_in_keys. eauto.
Qed.

Lemma forecast_only_adds_witness :
  let top_five :=
    [CaliFire.mk 2008 "Butte" 47647 "Lightning" 117;
     CaliFire.mk 2008 "Mariposa" 34091 "Other" 133;
     CaliFire.mk 2008 "Riverside" 30305 "Structure" 245;
     CaliFire.mk 2008 "Shasta" 27936 "Lightning" 12;
     CaliFire.mk 2008 "Butte" 23344 "Arson" 351] in
  let seasons :=
    [(2008, CaliFireSeason.mk 2008 6255 1593690 top_five);
     (2009, CaliFireSeason.mk 2009 9159 451969 top_five)] in
  (forall k, In k (dict_keys seasons) -> k <= 2020) /\
  0 < 2 /\
  let after := predict_fire_season_data seasons 2 [3; 1; 4; 1; 5; 9]%nat in
  (forall k season,
      dict_get seasons k = Some season ->
      dict_get (fst after) k = Some season)
  /\ (forall k, k <= 2020 -> dict_get (fst after) k = dict_get seasons k)
  /\ (exists j,
        0 <= j <= 2 /\
        dict_keys (fst after)
        = dict_keys seasons ++ map (Z.add 2020) (range 1 (j + 1)) /\
        (is_ok (snd after) = true -> j = 2)).
Proof.
  intros top_five seasons.
  assert (Hkeys : forall k, In k (dict_keys seasons) -> k <= 2020)
    by (intros k Hk; simpl in Hk; lia).
  assert (Hn : 0 < 2) by lia.
  split; [exact Hkeys|]. split; [exact Hn|].
  exact (forecast_only_adds seasons 2 [3; 1; 4; 1; 5; 9]%nat Hkeys Hn).
Defined.

(** The two regressions on the seasons 2019 and 2020, evaluated in binary64
    arithmetic. *)
Lemma extrapolate_num_fires_2019_2020 :
  extrapolate_num_fires [2019; 2020] [5000; 6000] 1 = Ok [7000].
Proof. vm_compute. reflexivity. Qed.

Lemma extrapolate_acreages_2019_2020 :
  extrapolate_acreages [5000; 6000] [1000000; 1500000] [7000] = Ok [2000000].
Proof. vm_compute. reflexivity. Qed.

(** C1. For the seasons 2019 (5000 fires, 1000000 acres) and 2020 (6000
    fires, 1500000 acres), each with five records, and [n = 1],
    [predict_fire_season_data] returns and adds an entry for 2021 whose
    [fires] is exactly 7000 and whose [top_five] holds exactly five
    records, each with acreage 90000 and 32 structures destroyed. *)
Theorem forecast_2021_from_2019_2020 (top_2019 top_2020 : list CaliFire.t)
    (g : random.Rng) :
  List.length top_2019 = 5%nat ->
  List.length top_2020 = 5%nat ->
  let seasons :=
    [(2019, CaliFireSeason.mk 2019 5000 1000000 top_2019);
     (2020, CaliFireSeason.mk 2020 6000 1500000 top_2020)] in
  exists season g',
    predict_fire_season_data seasons 1 g
    = (seasons ++ [(2021, season)], Ok g') /\
    dict_get (fst (predict_fire_season_data seasons 1 g)) 2021 = Some season /\
    CaliFireSeason.year season = 2021 /\
    CaliFireSeason.fires season = 7000 /\
    CaliFireSeason.acreage season = 2000000 /\
    List.length (CaliFireSeason.top_five season) = 5%nat /\
    Forall (fun fire =>
              CaliFire.year fire = 2021 /\
              CaliFire.acreage fire = 90000 /\
              CaliFire.structures_destroyed fire = 32 /\
              In (CaliFire.county fire)
                 (map CaliFire.county (top_2019 ++ top_2020)))
           (CaliFireSeason.top_five season).
Proof.
  intros H19 H20 seasons.
  destruct (collect_sound seasons (dict_keys seasons) [] []
              (sound_sample_empty seasons) (fun _ H => H))
    as (cc & Hc & Hs).
  cbn [app] in Hc, Hs.
  assert (Hrec : records_of seasons (dict_keys seasons) = top_2019 ++ top_2020)
    by (cbn; rewrite app_nil_r; reflexivity).
  rewrite Hrec in Hc, Hs.
  set (ac := map CaliFire.county (top_2019 ++ top_2020)) in *.
  assert (Hne : ac <> [])
    by (unfold ac; destruct top_2019; [discriminate H19|discriminate]).
  destruct (predict_next_top_five_sound seasons 2021 ac cc g Hs Hne)
    as (top & g' & Hp & Hlen & Hall).
  assert (Hprep : prepare seasons 1 = Ok ([7000], [2000000], ac, cc)).
  { unfold prepare.
    change (column seasons CaliFireSeason.year) with (Ok [2019; 2020]).
    change (column seasons CaliFireSeason.fires) with (Ok [5000; 6000]).
    change (column seasons CaliFireSeason.acreage)
      with (Ok [1000000; 1500000]).
    cbn [bind].
    rewrite (eq_trans
               (eq_refl : collect seasons (dict_keys seasons) ([], []) = _) Hc).
    cbn [bind].
    rewrite extrapolate_num_fires_2019_2020. cbn [bind].
    rewrite extrapolate_acreages_2019_2020. reflexivity. }
  assert (Hrun : predict_fire_season_data seasons 1 g
                 = (seasons ++ [(2021, CaliFireSeason.mk 2021 7000 2000000 top)],
                    Ok g')).
  { unfold predict_fire_season_data. rewrite Hprep.
    change (range 1 (1 + 1)) with [1]. cbn [register].
    change (2020 + 1) with 2021.
    change (index [7000] (Z.to_nat (1 - 1))) with (@Ok Z 7000).
    change (index [2000000] (Z.to_nat (1 - 1))) with (@Ok Z 2000000).
    cbn [bind]. rewrite Hp. reflexivity. }
  exists (CaliFireSeason.mk 2021 7000 2000000 top), g'.
  rewrite Hrun. split; [reflexivity|]. split; [reflexivity|].
  repeat (split; [reflexivity|]). split; [exact Hlen|].
  apply Forall_forall. intros fire Hin.
  rewrite Forall_forall in Hall.
  destruct (Hall fire Hin) as (Hy & Ha & Hd & f & (y & s & Hget & Hf) & Hcty & _).
  repeat (split; [assumption|]).
  rewrite <- Hcty. unfold ac. apply in_map. rewrite <- Hrec.
  unfold records_of. apply in_flat_map. exists y.
  split; [apply dict_get_in_keys; eauto|]. rewrite Hget. exact Hf.
Qed.

Lemma forecast_2021_from_2019_2020_witness :
  let top_2019 :=
    [CaliFire.mk 2019 "Sonoma" 77758 "Electrical" 374;
     CaliFire.mk 2019 "Lassen" 54612 "Lightning" 3;
     CaliFire.mk 2019 "Ventura" 10042 "Unknown" 4;
     CaliFire.mk 2019 "Los Angeles" 8799 "Unknown" 88;
     CaliFire.mk 2019 "Tuolumne" 5513 "Lightning" 1] in
  let top_2020 :=
    [CaliFire.mk 2020 "Mendocino" 1032648 "Lightning" 935;
     CaliFire.mk 2020 "Santa Clara" 396624 "Lightning" 222;
     CaliFire.mk 2020 "Fresno" 379895 "Unknown" 856;
     CaliFire.mk 2020 "Napa" 363220 "Lightning" 1491;
     CaliFire.mk 2020 "Butte" 318935 "Lightning" 2352] in
  let seasons :=
    [(2019, CaliFireSeason.mk 2019 5000 1000000 top_2019);
     (2020, CaliFireSeason.mk 2020 6000 1500000 top_2020)] in
  List.length top_2019 = 5%nat /\
  List.length top_2020 = 5%nat /\
  exists season g',
    predict_fire_season_data seasons 1 [7; 2; 9; 4; 0; 1; 1; 8; 3; 5]%nat
    = (seasons ++ [(2021, season)], Ok g') /\
    CaliFireSeason.fires season = 7000 /\
    List.length (CaliFireSeason.top_five season) = 5%nat.
Proof.
  intros top_2019 top_2020 seasons.
  split; [reflexivity|]. split; [reflexivity|].
  destruct (forecast_2021_from_2019_2020 top_2019 top_2020
              [7; 2; 9; 4; 0; 1; 1; 8; 3; 5]%nat eq_refl eq_refl)
    as (season & g' & Hrun & _ & _ & Hfires & _ & Hlen & _).
  exists season, g'. auto.
Defined.

(** ** Binary64 rounding *)

Lemma digits2_pos_bounds (p : positive) :
  2 ^ (Zpos (digits2_pos p) - 1) <= Zpos p < 2 ^ Zpos (digits2_pos p).
Proof.
  induction p as [p IH|p IH|]; cbn [digits2_pos].
  - rewrite Pos2Z.inj_succ.
    replace (Z.succ (Zpos (digits2_pos p)) - 1)
      with (Z.succ (Zpos (digits2_pos p) - 1)) by lia.
    rewrite !Z.pow_succ_r by lia. lia.
  - rewrite Pos2Z.inj_succ.
    replace (Z.succ (Zpos (digits2_pos p)) - 1)
      with (Z.succ (Zpos (digits2_pos p) - 1)) by lia.
    rewrite !Z.pow_succ_r by lia. lia.
  - cbn. lia.
Qed.

Lemma Zdigits2_bounds (x : Z) :
  0 < x -> 0 < Zdigits2 x /\ 2 ^ (Zdigits2 x - 1) <= x < 2 ^ Zdigits2 x.
Proof.
  destruct x as [|p|p]; try lia. intros _. cbn [Zdigits2].
  split; [lia|apply digits2_pos_bounds].
Qed.

Lemma Zdigits2_unique (x d : Z) :
  0 < x -> 0 < d -> 2 ^ (d - 1) <= x < 2 ^ d -> Zdigits2 x = d.
Proof.
  intros Hx Hd Hb. destruct (Zdigits2_bounds x Hx) as [Hpos Hx'].
  destruct (Z.lt_trichotomy (Zdigits2 x) d) as [Hlt|[Heq|Hgt]]; [|exact Heq|].
  - assert (2 ^ Zdigits2 x <= 2 ^ (d - 1)) by (apply Z.pow_le_mono_r; lia). lia.
  - assert (2 ^ d <= 2 ^ (Zdigits2 x - 1)) by (apply Z.pow_le_mono_r; lia). lia.
Qed.

Lemma Zdigits2_shift (x j : Z) :
  0 < x -> 0 <= j -> Zdigits2 (x * 2 ^ j) = Zdigits2 x + j.
Proof.
  intros Hx Hj. destruct (Zdigits2_bounds x Hx) as [Hpos Hb].
  assert (0 < 2 ^ j) by (apply Z.pow_pos_nonneg; lia).
  apply Zdigits2_unique; [nia|lia|].
  replace (Zdigits2 x + j - 1) with (Zdigits2 x - 1 + j) by lia.
  rewrite !Z.pow_add_r by lia. nia.
Qed.

Lemma Zdigits2_mul (k m : Z) :
  0 < k -> 0 < m -> Zdigits2 (k * m) <= Zdigits2 k + Zdigits2 m.
Proof.
  intros Hk Hm.
  destruct (Zdigits2_bounds k Hk) as [Hpk Hbk].
  destruct (Zdigits2_bounds m Hm) as [Hpm Hbm].
  destruct (Zdigits2_bounds (k * m)) as [Hp Hb]; [nia|].
  destruct (Z.le_gt_cases (Zdigits2 (k * m)) (Zdigits2 k + Zdigits2 m)) as [H|H];
    [exact H|exfalso].
  assert (2 ^ (Zdigits2 k + Zdigits2 m) <= 2 ^ (Zdigits2 (k * m) - 1))
    by (apply Z.pow_le_mono_r; lia).
  rewrite Z.pow_add_r in * by lia. nia.
Qed.

Lemma iter_pos_nat {A : Type} (f : A -> A) (p : positive) (x : A) :
  iter_pos f p x = Nat.iter (Pos.to_nat p) f x.
Proof.
  revert x. induction p as [p IH|p IH|]; intros x; cbn [iter_pos].
  - rewrite !IH, Pos2Nat.inj_xI.
    replace (S (2 * Pos.to_nat p))
      with (Pos.to_nat p + (Pos.to_nat p + 1))%nat by lia.
    rewrite !Nat.iter_add. reflexivity.
  - rewrite !IH, Pos2Nat.inj_xO.
    replace (2 * Pos.to_nat p)%nat with (Pos.to_nat p + Pos.to_nat p)%nat by lia.
    rewrite Nat.iter_add. reflexivity.
  - reflexivity.
Qed.

Import PyFloat.

Lemma div_eucl_exact (k a : Z) : 0 < k -> Z.div_eucl (a * k) k = (a, 0).
Proof.
  intros Hk. assert (Hd := Z.div_mul a k ltac:(lia)).
  assert (Hm := Z.mod_mul a k ltac:(lia)).
  unfold Z.div, Z.modulo in Hd, Hm.
  destruct (Z.div_eucl (a * k) k) as [q r]. congruence.
Qed.

Lemma new_location_exact (k : Z) : new_location k 0 = loc_Exact.
Proof.
  unfold new_location, new_location_even, new_location_odd.
  destruct (Z.even k); reflexivity.
Qed.

Lemma div_core_exact (k M : Z) :
  0 < k -> 0 < M ->
  let s := Z.max 0 (- fexp prec emax (Zdigits2 (k * M) - Zdigits2 k)) in
  SFdiv_core_binary prec emax (k * M) 0 k 0 = (M * 2 ^ s, - s, loc_Exact).
Proof.
  intros Hk HM s. unfold SFdiv_core_binary.
  rewrite !Z.add_0_r, Z.sub_0_r.
  set (e' := Z.min (fexp prec emax (Zdigits2 (k * M) - Zdigits2 k)) 0).
  assert (Hs : 0 - e' = s) by (unfold e', s; lia).
  rewrite Hs.
  assert (Hm' : match s with
                | Z0 => k * M
                | Zpos _ => Z.shiftl (k * M) s
                | Zneg _ => 0
                end = M * 2 ^ s * k).
  { assert (0 <= s) by (unfold s; lia).
    destruct s as [|p|p] eqn:Es; [cbn; lia| |lia].
    rewrite Z.shiftl_mul_pow2 by lia. lia. }
  rewrite Hm', div_eucl_exact by exact Hk.
  rewrite new_location_exact. f_equal. f_equal. lia.
Qed.

Lemma shr_1_double (M : Z) :
  0 < M ->
  shr_1 (Build_shr_record (2 * M) false false) = Build_shr_record M false false.
Proof. destruct M as [|p|p]; try lia. reflexivity. Qed.

Lemma round_aux_double (sx : bool) (M e : Z) :
  0 < M -> e <= fexp prec emax (Zdigits2 M + e) ->
  binary_round_aux prec emax sx (2 * M) (e - 1) loc_Exact
  = binary_round_aux prec emax sx M e loc_Exact.
Proof.
  intros HM He. unfold binary_round_aux.
  assert (Hshr : shr_fexp prec emax (2 * M) (e - 1) loc_Exact
                 = shr_fexp prec emax M e loc_Exact).
  { unfold shr_fexp.
    replace (Zdigits2 (2 * M)) with (Zdigits2 M + 1)
      by (rewrite (Z.mul_comm 2 M); change 2 with (2 ^ 1);
          rewrite Zdigits2_shift by lia; reflexivity).
    replace (Zdigits2 M + 1 + (e - 1)) with (Zdigits2 M + e) by lia.
    set (F := fexp prec emax (Zdigits2 M + e)) in *.
    cbn [shr_record_of_loc]. unfold shr.
    destruct (F - e) as [|p|p] eqn:En; [| |lia].
    - replace (F - (e - 1)) with 1 by lia. cbn [iter_pos].
      rewrite shr_1_double by exact HM. f_equal. lia.
    - replace (F - (e - 1)) with (Zpos (Pos.succ p)) by lia.
      rewrite !iter_pos_nat, Pos2Nat.inj_succ, Nat.iter_succ_r.
      rewrite shr_1_double by exact HM. f_equal. lia. }
  rewrite Hshr. reflexivity.
Qed.

Lemma round_aux_shift (sx : bool) (j : nat) (M e : Z) :
  0 < M -> e <= fexp prec emax (Zdigits2 M + e) ->
  binary_round_aux prec emax sx (M * 2 ^ Z.of_nat j) (e - Z.of_nat j) loc_Exact
  = binary_round_aux prec emax sx M e loc_Exact.
Proof.
  intros HM He. induction j as [|j IH].
  - cbn [Z.of_nat]. rewrite Z.pow_0_r, Z.mul_1_r, Z.sub_0_r. reflexivity.
  - rewrite Nat2Z.inj_succ, Z.pow_succ_r by lia.
    replace (M * (2 * 2 ^ Z.of_nat j)) with (2 * (M * 2 ^ Z.of_nat j)) by lia.
    replace (e - Z.succ (Z.of_nat j)) with (e - Z.of_nat j - 1) by lia.
    assert (0 < 2 ^ Z.of_nat j) by (apply Z.pow_pos_nonneg; lia).
    rewrite round_aux_double; [exact IH|nia|].
    rewrite Zdigits2_shift by lia.
    replace (Zdigits2 M + Z.of_nat j + (e - Z.of_nat j)) with (Zdigits2 M + e)
      by lia.
    lia.
Qed.

Lemma iter_xO (p d : positive) : Zpos (Pos.iter xO p d) = Zpos p * 2 ^ Zpos d.
Proof.
  induction d as [|d IH] using Pos.peano_ind.
  - cbn. lia.
  - rewrite Pos.iter_succ, Pos2Z.inj_xO, IH, Pos2Z.inj_succ, Z.pow_succ_r by lia.
    lia.
Qed.

(** The conversion of a non-zero int, as one rounding of its magnitude
    scaled to at least 53 bits. *)
Lemma binary_round_scaled (sx : bool) (p : positive) :
  let t := Z.max 0 (- fexp prec emax (Zdigits2 (Zpos p))) in
  binary_round prec emax sx p 0
  = binary_round_aux prec emax sx (Zpos p * 2 ^ t) (- t) loc_Exact.
Proof.
  intros t. unfold binary_round, shl_align.
  rewrite Z.add_0_r, Z.sub_0_r.
  change (Zpos (digits2_pos p)) with (Zdigits2 (Zpos p)).
  unfold t. destruct (fexp prec emax (Zdigits2 (Zpos p))) as [|q|q] eqn:Ef.
  - cbn [Z.opp Z.max]. rewrite Z.mul_1_r. reflexivity.
  - replace (Z.max 0 (- Zpos q)) with 0 by lia.
    rewrite Z.mul_1_r. reflexivity.
  - replace (Z.max 0 (- Zneg q)) with (Zpos q) by lia.
    rewrite iter_xO. reflexivity.
Qed.

Lemma shr_zero (e n : Z) :
  fst (shr (Build_shr_record 0 false false) e n) = Build_shr_record 0 false false.
Proof.
  unfold shr. destruct n as [|p|p]; try reflexivity.
  cbn [fst]. rewrite iter_pos_nat.
  induction (Pos.to_nat p) as [|n IH]; [reflexivity|].
  rewrite Nat.iter_succ, IH. reflexivity.
Qed.

Lemma round_aux_zero (sx : bool) (e : Z) :
  binary_round_aux prec emax sx 0 e loc_Exact = S754_zero sx.
Proof.
  unfold binary_round_aux, shr_fexp. cbn [shr_record_of_loc].
  destruct (shr (Build_shr_record 0 false false) e _) as [mrs e1] eqn:E1.
  assert (H1 := shr_zero e (fexp prec emax (Zdigits2 0 + e) - e)).
  rewrite E1 in H1. cbn [fst] in H1. subst mrs.
  cbn [shr_m loc_of_shr_record round_nearest_even shr_record_of_loc].
  destruct (shr (Build_shr_record 0 false false) e1 _) as [mrs e2] eqn:E2.
  assert (H2 := shr_zero e1 (fexp prec emax (Zdigits2 0 + e1) - e1)).
  rewrite E2 in H2. cbn [fst] in H2. subst mrs. reflexivity.
Qed.

Lemma div_core_zero (k : Z) :
  0 < k -> exists e, SFdiv_core_binary prec emax 0 0 k 0 = (0, e, loc_Exact).
Proof.
  intros Hk. unfold SFdiv_core_binary.
  set (s := _ - _ - _).
  assert (Hm : match s with
               | Z0 => 0
               | Zpos _ => Z.shiftl 0 s
               | Zneg _ => 0
               end = 0)
    by (destruct s; try reflexivity; apply Z.shiftl_0_l).
  rewrite Hm. cbn [Z.div_eucl]. rewrite new_location_exact. eauto.
Qed.

(** The mean of [k] copies of an int is the float of that int. *)
Lemma round_quot_copies (k y : Z) :
  0 < k -> round_quot (k * y) k = round_int y.
Proof.
  intros Hk. unfold round_quot, round_int.
  assert (Hsign : xorb (k * y <? 0) (k <? 0) = (y <? 0)).
  { destruct (Z.ltb_spec k 0); [lia|]. rewrite xorb_false_r.
    destruct (Z.ltb_spec (k * y) 0), (Z.ltb_spec y 0); try reflexivity; nia. }
  rewrite Hsign, (Z.abs_eq k), Z.abs_mul, (Z.abs_eq k) by lia.
  assert (Hpos : forall sx p,
             (let '(q, e, l) :=
                SFdiv_core_binary prec emax (k * Zpos p) 0 k 0 in
              binary_round_aux prec emax sx q e l)
             = binary_round prec emax sx p 0).
  { intros sx p. rewrite div_core_exact by lia.
    rewrite binary_round_scaled.
    set (s := Z.max 0 (- fexp prec emax (Zdigits2 (k * Zpos p) - Zdigits2 k))).
    set (t := Z.max 0 (- fexp prec emax (Zdigits2 (Zpos p)))).
    assert (Hd := Zdigits2_mul k (Zpos p) Hk ltac:(lia)).
    assert (Hst : t <= s) by (unfold s, t, fexp; lia).
    assert (0 < 2 ^ t) by (apply Z.pow_pos_nonneg; unfold t; lia).
    replace (Zpos p * 2 ^ s)
      with (Zpos p * 2 ^ t * 2 ^ Z.of_nat (Z.to_nat (s - t))).
    2:{ rewrite Z2Nat.id by lia. rewrite <- Z.mul_assoc, <- Z.pow_add_r
          by (unfold t; lia). f_equal. f_equal. lia. }
    replace (- s) with (- t - Z.of_nat (Z.to_nat (s - t))) by lia.
    apply round_aux_shift; [nia|].
    rewrite Zdigits2_shift by (unfold t; lia).
    unfold t, fexp. lia. }
  destruct y as [|p|p].
  - rewrite Z.mul_0_r. destruct (div_core_zero k Hk) as [e ->].
    apply round_aux_zero.
  - apply Hpos.
  - apply Hpos.
Qed.

Lemma shr_1_nonneg (mrs : shr_record) :
  0 <= shr_m mrs -> 0 <= shr_m (shr_1 mrs).
Proof.
  destruct mrs as [m r s]. destruct m as [|[p|p|]|p]; cbn; lia.
Qed.

Lemma shr_nonneg (mrs : shr_record) (e n : Z) :
  0 <= shr_m mrs -> 0 <= shr_m (fst (shr mrs e n)).
Proof.
  intros Hm. unfold shr. destruct n as [|p|p]; try exact Hm.
  cbn [fst]. rewrite iter_pos_nat.
  induction (Pos.to_nat p) as [|n IH]; [exact Hm|].
  rewrite Nat.iter_succ. apply shr_1_nonneg, IH.
Qed.

Lemma round_aux_not_nan (sx : bool) (M e : Z) (l : location) :
  0 <= M -> binary_round_aux prec emax sx M e l <> S754_nan.
Proof.
  intros HM. unfold binary_round_aux, shr_fexp.
  destruct (shr (shr_record_of_loc M l) e _) as [mrs1 e1] eqn:E1.
  assert (H1 : 0 <= shr_m mrs1).
  { change mrs1 with (fst (mrs1, e1)). rewrite <- E1. apply shr_nonneg.
    destruct l as [|[]]; exact HM. }
  assert (Hr : 0 <= round_nearest_even (shr_m mrs1) (loc_of_shr_record mrs1)).
  { unfold round_nearest_even.
    destruct (loc_of_shr_record mrs1) as [|[]]; try lia.
    destruct (Z.even (shr_m mrs1)); lia. }
  set (rne := round_nearest_even _ _) in *.
  destruct (shr (shr_record_of_loc rne loc_Exact) e1 _) as [mrs2 e2] eqn:E2.
  assert (H2 : 0 <= shr_m mrs2).
  { change mrs2 with (fst (mrs2, e2)). rewrite <- E2. apply shr_nonneg.
    exact Hr. }
  destruct (shr_m mrs2) as [|p|p]; [discriminate| |lia].
  destruct (e2 <=? emax - prec); discriminate.
Qed.

Lemma round_int_not_nan (y : Z) : round_int y <> S754_nan.
Proof.
  unfold round_int, binary_normalize. destruct y as [|p|p]; [discriminate| |];
    unfold binary_round; destruct (shl_align _ _ _) as [mz ez];
    apply round_aux_not_nan; lia.
Qed.

Lemma sub_diag (x : float) :
  x <> S754_nan -> is_inf x = false -> sub x x = zero.
Proof.
  intros Hnan Hinf. destruct x as [s|s| |s m e]; try discriminate; try congruence.
  - destruct s; reflexivity.
  - unfold sub, SFsub. rewrite Z.sub_diag. reflexivity.
Qed.

Lemma int_sub_self (y : Z) (x : float) :
  of_int y = Ok x -> int_sub y x = Ok zero.
Proof.
  intros Hx. unfold int_sub. rewrite Hx. cbn [bind]. f_equal.
  unfold of_int in Hx. cbv zeta in Hx.
  destruct (is_inf (round_int y)) eqn:Hinf; [discriminate|].
  injection Hx as <-. apply sub_diag; [apply round_int_not_nan|exact Hinf].
Qed.

Lemma sumZ_copies (xs : list Z) (y : Z) :
  (forall x, In x xs -> x = y) -> sumZ xs = len xs * y.
Proof.
  intros Hall. induction xs as [|x xs IH]; [reflexivity|].
  rewrite sumZ_cons, IH by (intros x' Hx'; apply Hall; right; exact Hx').
  rewrite (Hall x) by (left; reflexivity). unfold len. cbn [List.length].
  lia.
Qed.

Lemma mean_of_copies (xs : list Z) (y : Z) :
  xs <> [] -> (forall x, In x xs -> x = y) ->
  int_truediv (sumZ xs) (len xs) = of_int y.
Proof.
  intros Hne Hall. rewrite (sumZ_copies xs y Hall).
  assert (Hlen : 0 < len xs)
    by (unfold len; destruct xs; [congruence|cbn [List.length]; lia]).
  unfold int_truediv, of_int.
  destruct (Z.eqb_spec (len xs) 0) as [?|_]; [lia|].
  rewrite round_quot_copies by exact Hlen. reflexivity.
Qed.

Lemma mapM_pointwise {A B : Type} (f : A -> result B) (g : A -> B)
    (xs : list A) :
  (forall x, In x xs -> f x = Ok (g x)) -> mapM f xs = Ok (map g xs).
Proof.
  induction xs as [|x xs IH]; intros Hall; [reflexivity|].
  cbn [mapM map]. rewrite (Hall x) by (left; reflexivity). cbn [bind].
  rewrite IH by (intros x' Hx'; apply Hall; right; exact Hx'). reflexivity.
Qed.

Lemma mapM_total {A B : Type} (f : A -> result B) (xs : list A) :
  (forall x, In x xs -> exists y, f x = Ok y) ->
  exists ys, mapM f xs = Ok ys.
Proof.
  induction xs as [|x xs IH]; intros Hall; [exists []; reflexivity|].
  destruct (Hall x (or_introl eq_refl)) as [y Hy].
  destruct IH as [ys Hys]; [intros x' Hx'; apply Hall; right; exact Hx'|].
  exists (y :: ys). cbn [mapM]. rewrite Hy. cbn [bind]. rewrite Hys.
  reflexivity.
Qed.

Lemma index_in_range {A : Type} (xs : list A) (i : nat) :
  In i (seq 0 (List.length xs)) -> exists x, index xs i = Ok x /\ In x xs.
Proof.
  intros Hi. apply in_seq in Hi. unfold index.
  destruct (nth_error xs i) as [x|] eqn:E.
  - exists x. split; [reflexivity|]. exact (nth_error_In _ _ E).
  - apply nth_error_None in E. lia.
Qed.

Lemma sum_zeros (k : nat) : sum (map (fun _ : nat => zero) (seq 0 k)) = zero.
Proof.
  unfold sum. generalize 0%nat. induction k as [|k IH]; intros start;
    [reflexivity|].
  cbn [seq map fold_left]. change (add zero zero) with zero. apply IH.
Qed.

(** The sum of squared deviations of a constant column is 0.0. *)
Lemma b_denominator_zero (xs : list Z) (y : Z) (avr_x : float) :
  (forall x, In x xs -> x = y) -> of_int y = Ok avr_x ->
  exists den_terms,
    mapM (fun i =>
            x_i <- index xs i ;;
            dx <- int_sub x_i avr_x ;;
            pow2 dx)
         (seq 0 (List.length xs))
    = Ok den_terms /\
    sum den_terms = zero.
Proof.
  intros Hall Hx. eexists. split; [|apply (sum_zeros (List.length xs))].
  apply mapM_pointwise. intros i Hi.
  destruct (index_in_range xs i Hi) as (x & -> & Hin). cbn [bind].
  rewrite (Hall x Hin), (int_sub_self y avr_x Hx). reflexivity.
Qed.


(** ** The float range *)

Lemma shr_1_halves (mrs : shr_record) :
  0 <= shr_m mrs ->
  0 <= shr_m (shr_1 mrs) /\ 2 * shr_m (shr_1 mrs) <= shr_m mrs.
Proof.
  destruct mrs as [m r s]. destruct m as [|[p|p|]|p]; cbn; lia.
Qed.

Lemma shr_iter_halves (n : nat) (mrs : shr_record) :
  0 <= shr_m mrs ->
  0 <= shr_m (Nat.iter n shr_1 mrs)
  /\ 2 ^ Z.of_nat n * shr_m (Nat.iter n shr_1 mrs) <= shr_m mrs.
Proof.
  intros Hm. induction n as [|n [IH0 IH]].
  - cbn [Nat.iter nat_rect Z.of_nat]. rewrite Z.pow_0_r. lia.
  - rewrite Nat.iter_succ, Nat2Z.inj_succ, Z.pow_succ_r by lia.
    destruct (shr_1_halves (Nat.iter n shr_1 mrs) IH0) as [H0 H2].
    split; [exact H0|].
    assert (0 < 2 ^ Z.of_nat n) by (apply Z.pow_pos_nonneg; lia). nia.
Qed.

(** A right shift by [n >= 0] places: the new exponent, and the mantissa
    scaled back is at most the old one. *)
Lemma shr_halves (mrs : shr_record) (e n : Z) :
  0 <= shr_m mrs -> 0 <= n ->
  snd (shr mrs e n) = e + n
  /\ 0 <= shr_m (fst (shr mrs e n))
  /\ 2 ^ n * shr_m (fst (shr mrs e n)) <= shr_m mrs.
Proof.
  intros Hm Hn. unfold shr. destruct n as [|p|p]; [|clear Hn|lia].
  - cbn [fst snd]. rewrite Z.add_0_r, Z.pow_0_r. lia.
  - cbn [fst snd]. split; [reflexivity|]. rewrite iter_pos_nat.
    rewrite <- (positive_nat_Z p) at 1. apply shr_iter_halves, Hm.
Qed.

Lemma Zdigits2_le (x d : Z) : 0 <= x -> 0 <= d -> x < 2 ^ d -> Zdigits2 x <= d.
Proof.
  intros Hx Hd Hlt. destruct (Z.eq_dec x 0) as [->|Hne]; [exact Hd|].
  destruct (Zdigits2_bounds x ltac:(lia)) as [Hpos Hb].
  destruct (Z.le_gt_cases (Zdigits2 x) d) as [H|H]; [exact H|exfalso].
  assert (2 ^ d <= 2 ^ (Zdigits2 x - 1)) by (apply Z.pow_le_mono_r; lia). lia.
Qed.

Lemma shr_record_of_loc_m (m : Z) (l : location) :
  shr_m (shr_record_of_loc m l) = m.
Proof. destruct l as [|[]]; reflexivity. Qed.

(** Rounding a mantissa that needs no left shift and whose magnitude is
    below [2 ^ 1023] gives no infinity. *)
Lemma round_aux_finite (sx : bool) (M e : Z) (l : location) :
  0 <= M ->
  e <= fexp prec emax (Zdigits2 M + e) ->
  Zdigits2 M + e <= 1023 ->
  is_inf (binary_round_aux prec emax sx M e l) = false.
Proof.
  intros HM He Hd. unfold binary_round_aux, shr_fexp.
  set (F := fexp prec emax (Zdigits2 M + e)) in *.
  destruct (shr_halves (shr_record_of_loc M l) e (F - e))
    as (He1 & H10 & H1); [rewrite shr_record_of_loc_m; exact HM|lia|].
  rewrite shr_record_of_loc_m in H1.
  destruct (shr (shr_record_of_loc M l) e (F - e)) as [mrs1 e1].
  cbn [fst snd] in He1, H10, H1.
  set (R := round_nearest_even (shr_m mrs1) (loc_of_shr_record mrs1)).
  assert (HR : 0 <= R <= shr_m mrs1 + 1).
  { unfold R, round_nearest_even.
    destruct (loc_of_shr_record mrs1) as [|[]]; try lia.
    destruct (Z.even (shr_m mrs1)); lia. }
  assert (HM1 : shr_m mrs1 < 2 ^ 53).
  { destruct (Z.eq_dec M 0) as [->|HM0].
    - assert (0 < 2 ^ (F - e)) by (apply Z.pow_pos_nonneg; lia).
      assert (0 < 2 ^ 53) by (apply Z.pow_pos_nonneg; lia). nia.
    - destruct (Zdigits2_bounds M ltac:(lia)) as [Hpos Hb].
      assert (Hpow : 2 ^ Zdigits2 M <= 2 ^ (F - e) * 2 ^ 53).
      { rewrite <- Z.pow_add_r by lia. apply Z.pow_le_mono_r; [lia|].
        unfold F, fexp, prec. lia. }
      assert (0 < 2 ^ (F - e)) by (apply Z.pow_pos_nonneg; lia).
      nia. }
  assert (HdR : Zdigits2 R <= 54).
  { apply Zdigits2_le; [lia|lia|].
    change (2 ^ 54) with (2 * 2 ^ 53). lia. }
  assert (HF : F <= 970) by (unfold F, fexp, prec, emax, emin; lia).
  assert (Hn2 : fexp prec emax (Zdigits2 R + e1) - e1 <= 1)
    by (unfold fexp, prec, emax, emin in *; lia).
  cbn [shr_record_of_loc].
  assert (He2 : snd (shr (Build_shr_record R false false) e1
                       (fexp prec emax (Zdigits2 R + e1) - e1)) <= 971).
  { unfold shr. destruct (fexp prec emax (Zdigits2 R + e1) - e1) as [|p|p];
      cbn [snd]; lia. }
  destruct (shr (Build_shr_record R false false) e1 _) as [mrs2 e2].
  cbn [snd] in He2.
  destruct (shr_m mrs2) as [|p|p]; try reflexivity.
  change (emax - prec) with 971.
  destruct (Z.leb_spec e2 971); [reflexivity|lia].
Qed.

Lemma round_int_finite (v : Z) :
  Z.abs v < 2 ^ 1023 -> is_inf (round_int v) = false.
Proof.
  intros Hv. unfold round_int, binary_normalize.
  assert (Hpos : forall sx p, Zpos p < 2 ^ 1023 ->
             is_inf (binary_round prec emax sx p 0) = false).
  { intros sx p Hp. rewrite binary_round_scaled.
    set (t := Z.max 0 (- fexp prec emax (Zdigits2 (Zpos p)))).
    assert (Ht : 0 <= t) by (unfold t; lia).
    assert (0 < 2 ^ t) by (apply Z.pow_pos_nonneg; lia).
    assert (Hdp : Zdigits2 (Zpos p) <= 1023)
      by (apply Zdigits2_le; lia).
    apply round_aux_finite; [nia| |];
      rewrite Zdigits2_shift by lia; unfold t, fexp; lia. }
  destruct v as [|p|p]; [reflexivity| |]; apply Hpos; lia.
Qed.

Lemma in_float_range_bound (v : Z) : Z.abs v < 2 ^ 1023 -> in_float_range v.
Proof.
  intros Hv. unfold in_float_range, of_int. cbv zeta.
  rewrite (round_int_finite v Hv). reflexivity.
Qed.

Lemma div_eucl_pair (a b : Z) : Z.div_eucl a b = (a / b, a mod b).
Proof. unfold Z.div, Z.modulo. destruct (Z.div_eucl a b). reflexivity. Qed.

Lemma div_core_shape (A B : Z) :
  0 < A -> 0 < B ->
  let e' := Z.min (fexp prec emax (Zdigits2 A - Zdigits2 B)) 0 in
  SFdiv_core_binary prec emax A 0 B 0
  = (A * 2 ^ (- e') / B, e', new_location B ((A * 2 ^ (- e')) mod B)).
Proof.
  intros HA HB e'. unfold SFdiv_core_binary.
  rewrite !Z.add_0_r, Z.sub_0_r. fold e'.
  replace (0 - e') with (- e') by lia.
  assert (Hm : match - e' with
               | Z0 => A
               | Zpos _ => Z.shiftl A (- e')
               | Zneg _ => 0
               end = A * 2 ^ (- e')).
  { assert (0 <= - e') by (unfold e'; lia).
    destruct (- e') as [|p|p] eqn:Es; [cbn; lia| |lia].
    rewrite Z.shiftl_mul_pow2 by lia. reflexivity. }
  rewrite Hm, div_eucl_pair. reflexivity.
Qed.

Lemma round_quot_finite (a b : Z) :
  b <> 0 -> Z.abs a < 2 ^ 1023 -> is_inf (round_quot a b) = false.
Proof.
  intros Hb Ha. unfold round_quot.
  destruct (Z.eq_dec a 0) as [->|Ha0].
  - destruct (div_core_zero (Z.abs b) ltac:(lia)) as [e He].
    change (Z.abs 0) with 0. rewrite He, round_aux_zero. reflexivity.
  - set (A := Z.abs a) in *. set (B := Z.abs b).
    assert (HA : 0 < A) by (unfold A; lia).
    assert (HB : 0 < B) by (unfold B; lia).
    rewrite (div_core_shape A B HA HB).
    set (e' := Z.min (fexp prec emax (Zdigits2 A - Zdigits2 B)) 0).
    set (q := A * 2 ^ (- e') / B).
    destruct (Zdigits2_bounds A HA) as [HdA HbA].
    destruct (Zdigits2_bounds B HB) as [HdB HbB].
    assert (Hs : 0 <= - e') by (unfold e'; lia).
    assert (Hpow : 0 < 2 ^ (- e')) by (apply Z.pow_pos_nonneg; lia).
    assert (Hq0 : 0 <= q) by (apply Z.div_pos; nia).
    assert (Hqle : q <= A * 2 ^ (- e')).
    { unfold q. apply Z.div_le_upper_bound; [exact HB|]. nia. }
    assert (HdA' : Zdigits2 A <= 1023) by (apply Zdigits2_le; lia).
    assert (Hdq : Zdigits2 q <= Zdigits2 A - e').
    { apply Zdigits2_le; [exact Hq0|lia|].
      replace (Zdigits2 A - e') with (Zdigits2 A + - e') by lia.
      rewrite Z.pow_add_r by lia. nia. }
    apply round_aux_finite; [exact Hq0| |lia].
    destruct (Z.eq_dec e' (emin prec emax)) as [Hmin|Hmin].
    + unfold fexp. lia.
    + assert (Hk : 53 <= Zdigits2 A - Zdigits2 B - e')
        by (unfold e', fexp, emin, prec, emax in *; lia).
      assert (Hlow : 2 ^ (Zdigits2 A - Zdigits2 B - e' - 1) <= q).
      { unfold q. apply Z.div_le_lower_bound; [exact HB|].
        assert (Hsplit : 2 ^ (Zdigits2 A - 1) * 2 ^ (- e')
                         = 2 ^ Zdigits2 B
                           * 2 ^ (Zdigits2 A - Zdigits2 B - e' - 1)).
        { rewrite <- !Z.pow_add_r by lia. f_equal. lia. }
        assert (0 < 2 ^ (Zdigits2 A - Zdigits2 B - e' - 1))
          by (apply Z.pow_pos_nonneg; lia).
        nia. }
      assert (Hdq' : Zdigits2 A - Zdigits2 B - e' <= Zdigits2 q).
      { assert (Hqpos : 0 < q).
        { assert (0 < 2 ^ (Zdigits2 A - Zdigits2 B - e' - 1))
            by (apply Z.pow_pos_nonneg; lia). lia. }
        destruct (Zdigits2_bounds q Hqpos) as [_ Hbq].
        destruct (Z.le_gt_cases (Zdigits2 A - Zdigits2 B - e') (Zdigits2 q))
          as [H|H]; [exact H|exfalso].
        assert (2 ^ Zdigits2 q <= 2 ^ (Zdigits2 A - Zdigits2 B - e' - 1))
          by (apply Z.pow_le_mono_r; lia).
        lia. }
      unfold e', fexp in *. lia.
Qed.

Lemma mean_in_float_range_bound (vs : list Z) :
  vs <> [] -> Z.abs (sumZ vs) < 2 ^ 1023 -> mean_in_float_range vs.
Proof.
  intros Hne Hs. unfold mean_in_float_range, int_truediv.
  assert (Hlen : len vs <> 0)
    by (unfold len; destruct vs; [congruence|cbn [List.length]; lia]).
  destruct (Z.eqb_spec (len vs) 0) as [?|_]; [contradiction|].
  rewrite (round_quot_finite _ _ Hlen Hs). reflexivity.
Qed.

Lemma regression_degenerate {A : Type} (xs : list Z) (c : Z)
    (mean_y : result float) (count : nat)
    (term : float -> float -> nat -> result float)
    (finish : float -> float -> float -> result A) :
  xs <> [] -> (forall x, In x xs -> x = c) ->
  let run :=
    avr_x <- int_truediv (sumZ xs) (len xs) ;;
    avr_y <- mean_y ;;
    num_terms <- mapM (term avr_x avr_y) (seq 0 count) ;;
    let b_numerator := sum num_terms in
    den_terms <-
      mapM (fun i =>
              x_i <- index xs i ;;
              dx <- int_sub x_i avr_x ;;
              pow2 dx)
           (seq 0 (List.length xs)) ;;
    let b_denominator := sum den_terms in
    b <- truediv b_numerator b_denominator ;;
    finish avr_x avr_y b in
  (exists e, run = Err e)
  /\ (in_float_range c ->
      (forall avr_x, of_int c = Ok avr_x ->
         exists avr_y,
           mean_y = Ok avr_y /\
           forall i, In i (seq 0 count) -> exists v, term avr_x avr_y i = Ok v) ->
      run = Err ZeroDivisionError).
Proof.
  intros Hne Hall run. unfold run. rewrite (mean_of_copies xs c Hne Hall).
  destruct (of_int c) as [avr_x|e] eqn:Hx; cbn [bind].
  - assert (Hstop : forall (num_terms : list float) (avr_y : float),
               (den_terms <-
                  mapM (fun i =>
                          x_i <- index xs i ;;
                          dx <- int_sub x_i avr_x ;;
                          pow2 dx)
                       (seq 0 (List.length xs)) ;;
                b <- truediv (sum num_terms) (sum den_terms) ;;
                finish avr_x avr_y b)
               = Err ZeroDivisionError).
    { intros nt ay. destruct (b_denominator_zero xs c avr_x Hall Hx)
        as (dt & Hd & Hs).
      rewrite Hd. cbn [bind]. rewrite Hs. reflexivity. }
    split.
    + destruct mean_y as [avr_y|e]; cbn [bind]; [|eauto].
      destruct (mapM (term avr_x avr_y) (seq 0 count)) as [nt|e]; cbn [bind];
        [|eauto].
      cbv zeta. rewrite Hstop. eauto.
    + intros _ Hwf. destruct (Hwf avr_x eq_refl) as (avr_y & -> & Hterms).
      cbn [bind].
      destruct (mapM_total (term avr_x avr_y) (seq 0 count) Hterms) as [nt ->].
      cbn [bind]. cbv zeta. apply Hstop.
  - split; [eauto|]. intros Hr. unfold in_float_range in Hr.
    rewrite Hx in Hr. discriminate.
Qed.

Lemma product_term_total (xs ys : list Z) (c : Z) (avr_x avr_y : float) (i : nat) :
  (forall x, In x xs -> x = c) ->
  List.length ys = List.length xs ->
  (forall v, In v ys -> in_float_range v) ->
  of_int c = Ok avr_x ->
  In i (seq 0 (List.length xs)) ->
  exists v,
    (x_i <- index xs i ;;
     dx <- int_sub x_i avr_x ;;
     y_i <- index ys i ;;
     dy <- int_sub y_i avr_y ;;
     Ok (mul dx dy)) = Ok v.
Proof.
  intros Hall Hlen Hys Hx Hi.
  destruct (index_in_range xs i Hi) as (x & -> & Hin). cbn [bind].
  rewrite (Hall x Hin), (int_sub_self c avr_x Hx). cbn [bind].
  rewrite <- Hlen in Hi.
  destruct (index_in_range ys i Hi) as (v & -> & Hv). cbn [bind].
  specialize (Hys v Hv). unfold in_float_range in Hys. unfold int_sub.
  destruct (of_int v); [|discriminate]. cbn [bind]. eauto.
Qed.

Lemma regression_input_range (xs ys : list Z) (c : Z) :
  xs <> [] ->
  regression_input xs ys c ->
  List.length ys = List.length xs /\
  in_float_range c /\
  (forall v, In v ys -> in_float_range v) /\
  mean_in_float_range ys.
Proof.
  intros Hne (Hlen & Hc & Hys & Hsum).
  split; [exact Hlen|]. split; [exact (in_float_range_bound c Hc)|].
  split; [intros v Hv; exact (in_float_range_bound v (Hys v Hv))|].
  apply mean_in_float_range_bound; [|exact Hsum].
  destruct ys; [|discriminate]. destruct xs; [congruence|discriminate].
Qed.

(** C2. A regression whose independent column is constant fails: for every
    non-empty list of years that are all the same, [extrapolate_num_fires]
    returns no result but raises, and so does [extrapolate_acreages] when
    all fire counts are the same. On paired columns of ints below
    [2 ^ 1023] in magnitude the exception is the ZeroDivisionError of the
    slope [b_numerator / b_denominator], the denominator being 0.0. *)
Theorem degenerate_regression_fails (xs ys : list Z) (c : Z) :
  xs <> [] ->
  (forall x, In x xs -> x = c) ->
  (forall n,
      (exists e, extrapolate_num_fires xs ys n = Err e)
      /\ (regression_input xs ys c ->
          extrapolate_num_fires xs ys n = Err ZeroDivisionError))
  /\ (forall next_fires,
        (exists e, extrapolate_acreages xs ys next_fires = Err e)
        /\ (regression_input xs ys c ->
            extrapolate_acreages xs ys next_fires = Err ZeroDivisionError)).
Proof.
  intros Hne Hall. split.
  - intros n.
    destruct (regression_degenerate xs c (int_truediv (sumZ ys) (len ys))
                (List.length ys)
                (fun avr_x avr_y i =>
                   year_i <- index xs i ;;
                   dx <- int_sub year_i avr_x ;;
                   fires_i <- index ys i ;;
                   dy <- int_sub fires_i avr_y ;;
                   Ok (mul dx dy))
                (fun avr_x avr_y b =>
                   let a := sub avr_y (mul b avr_x) in
                   mapM (fun i => f a b (2020 + i)) (range 1 (n + 1)))
                Hne Hall) as [Hfail Hzero].
    split; [exact Hfail|].
    intros Hin. destruct (regression_input_range xs ys c Hne Hin)
      as (Hlen & Hc & Hys & Hmean).
    apply Hzero; [exact Hc|].
    intros avr_x Hx. unfold mean_in_float_range in Hmean.
    destruct (int_truediv (sumZ ys) (len ys)) as [avr_y|]; [|discriminate].
    exists avr_y. split; [reflexivity|]. intros i Hi.
    rewrite Hlen in Hi.
    exact (product_term_total xs ys c avr_x avr_y i Hall Hlen Hys Hx Hi).
  - intros next_fires.
    destruct (regression_degenerate xs c (int_truediv (sumZ ys) (len ys))
                (List.length xs)
                (fun avr_x avr_y i =>
                   fires_i <- index xs i ;;
                   dx <- int_sub fires_i avr_x ;;
                   acreages_i <- index ys i ;;
                   dy <- int_sub acreages_i avr_y ;;
                   Ok (mul dx dy))
                (fun avr_x avr_y b =>
                   let a := sub avr_y (mul b avr_x) in
                   mapM (fun fire => f a b fire) next_fires)
                Hne Hall) as [Hfail Hzero].
    split; [exact Hfail|].
    intros Hin. destruct (regression_input_range xs ys c Hne Hin)
      as (Hlen & Hc & Hys & Hmean).
    apply Hzero; [exact Hc|].
    intros avr_x Hx. unfold mean_in_float_range in Hmean.
    destruct (int_truediv (sumZ ys) (len ys)) as [avr_y|]; [|discriminate].
    exists avr_y. split; [reflexivity|]. intros i Hi.
    exact (product_term_total xs ys c avr_x avr_y i Hall Hlen Hys Hx Hi).
Qed.

Lemma degenerate_regression_fails_witness :
  [2019; 2019] <> [] /\
  (forall x, In x [2019; 2019] -> x = 2019) /\
  extrapolate_num_fires [2019; 2019] [5000; 6000] 1 = Err ZeroDivisionError /\
  extrapolate_acreages [2019; 2019] [5000; 6000] [7000]
  = Err ZeroDivisionError.
Proof.
  assert (Hne : [2019; 2019] <> []) by discriminate.
  assert (Hall : forall x, In x [2019; 2019] -> x = 2019)
    by (intros x [<-|[<-|[]]]; reflexivity).
  assert (Hin : regression_input [2019; 2019] [5000; 6000] 2019).
  { split; [reflexivity|]. split; [vm_compute; reflexivity|].
    split; [|vm_compute; reflexivity].
    intros v [<-|[<-|[]]]; vm_compute; reflexivity. }
  destruct (degenerate_regression_fails [2019; 2019] [5000; 6000] 2019 Hne Hall)
    as [Hfires Hacres].
  split; [exact Hne|]. split; [exact Hall|]. split.
  - exact (proj2 (Hfires 1) Hin).
  - exact (proj2 (Hacres [7000]) Hin).
Defined.

(** ** Halves of ints in binary64 *)

Lemma round_aux_canonical (sx : bool) (m : positive) (e : Z) :
  Zdigits2 (Zpos m) = 53 -> -1074 <= e <= 971 ->
  binary_round_aux prec emax sx (Zpos m) e loc_Exact = S754_finite sx m e.
Proof.
  intros Hd He. unfold binary_round_aux, shr_fexp. rewrite Hd.
  replace (fexp prec emax (53 + e) - e) with 0
    by (unfold fexp, emin, prec, emax; lia).
  cbn [shr shr_record_of_loc shr_m loc_of_shr_record round_nearest_even].
  rewrite Hd.
  replace (fexp prec emax (53 + e) - e) with 0
    by (unfold fexp, emin, prec, emax; lia).
  cbn [shr shr_m]. change (emax - prec) with 971.
  destruct (Z.leb_spec e 971); [reflexivity|lia].
Qed.

(** Rounding what a canonical float represents gives that float. *)
Lemma binary_round_exact (sx : bool) (D m : positive) (ez e : Z) :
  Zdigits2 (Zpos m) = 53 -> -1074 <= e <= 971 ->
  (ez <= e -> Zpos D = Zpos m * 2 ^ (e - ez)) ->
  (e <= ez -> Zpos m = Zpos D * 2 ^ (ez - e)) ->
  binary_round prec emax sx D ez = S754_finite sx m e.
Proof.
  intros Hd He Hlow Hhigh. unfold binary_round, shl_align.
  change (Zpos (digits2_pos D)) with (Zdigits2 (Zpos D)).
  destruct (Z.le_gt_cases ez e) as [Hle|Hgt].
  - specialize (Hlow Hle).
    assert (HdD : Zdigits2 (Zpos D) = 53 + (e - ez))
      by (rewrite Hlow, Zdigits2_shift, Hd by lia; reflexivity).
    rewrite HdD.
    replace (fexp prec emax (53 + (e - ez) + ez) - ez) with (e - ez)
      by (unfold fexp, emin, prec, emax; lia).
    assert (Hround : binary_round_aux prec emax sx (Zpos D) ez loc_Exact
                     = S754_finite sx m e).
    { rewrite Hlow.
      replace ez with (e - Z.of_nat (Z.to_nat (e - ez))) at 2 by lia.
      replace (e - ez) with (Z.of_nat (Z.to_nat (e - ez))) at 1 by lia.
      rewrite round_aux_shift;
        [apply round_aux_canonical; assumption|lia|].
      rewrite Hd. unfold fexp, emin, prec, emax. lia. }
    destruct (e - ez) as [|p|p] eqn:Ej; [exact Hround|exact Hround|lia].
  - specialize (Hhigh ltac:(lia)).
    assert (HdD : Zdigits2 (Zpos D) = 53 - (ez - e)).
    { assert (H := Zdigits2_shift (Zpos D) (ez - e) ltac:(lia) ltac:(lia)).
      rewrite <- Hhigh, Hd in H. lia. }
    rewrite HdD.
    replace (fexp prec emax (53 - (ez - e) + ez) - ez) with (e - ez)
      by (unfold fexp, emin, prec, emax; lia).
    destruct (e - ez) as [|p|p] eqn:Ej; [lia|lia|].
    assert (Hm : Pos.iter xO D p = m).
    { apply Pos2Z.inj. rewrite iter_xO, Hhigh. f_equal. f_equal. lia. }
    rewrite Hm.
    replace (fexp prec emax (53 - (ez - e) + ez)) with e
      by (unfold fexp, emin, prec, emax; lia).
    apply round_aux_canonical; assumption.
Qed.

(** The canonical mantissa of half an int between 1 and [2 ^ 53]. *)
Lemma half_mantissa (v : Z) :
  0 < v < 2 ^ 53 ->
  let m := Z.to_pos (v * 2 ^ (53 - Zdigits2 v)) in
  Zpos m = v * 2 ^ (53 - Zdigits2 v)
  /\ Zdigits2 (Zpos m) = 53
  /\ 1 <= Zdigits2 v <= 53.
Proof.
  intros Hv m.
  destruct (Zdigits2_bounds v ltac:(lia)) as [Hpos Hb].
  assert (Hd : Zdigits2 v <= 53) by (apply Zdigits2_le; lia).
  assert (0 < 2 ^ (53 - Zdigits2 v)) by (apply Z.pow_pos_nonneg; lia).
  assert (Hm : Zpos m = v * 2 ^ (53 - Zdigits2 v))
    by (unfold m; rewrite Z2Pos.id by nia; reflexivity).
  split; [exact Hm|]. split; [|lia].
  rewrite Hm, Zdigits2_shift by lia. lia.
Qed.

Lemma round_quot_half (w : Z) :
  0 < w < 2 ^ 53 -> round_quot w 2 = half_float false w.
Proof.
  intros Hw. destruct (half_mantissa w Hw) as (Hm & Hdm & Hdw).
  unfold round_quot, half_float.
  rewrite (Z.abs_eq w) by lia. change (Z.abs 2) with 2.
  rewrite (div_core_shape w 2) by lia.
  change (Zdigits2 2) with 2.
  set (e' := Z.min (fexp prec emax (Zdigits2 w - 2)) 0).
  assert (He' : e' = Zdigits2 w - 55)
    by (unfold e', fexp, emin, prec, emax; lia).
  assert (Hsplit : w * 2 ^ (- e') = w * 2 ^ (- e' - 1) * 2).
  { replace (- e') with (Z.succ (- e' - 1)) at 1 by lia.
    rewrite Z.pow_succ_r by lia. lia. }
  rewrite Hsplit, Z.div_mul, Z.mod_mul, new_location_exact by lia.
  replace (w <? 0) with false by (symmetry; apply Z.ltb_ge; lia).
  cbn [Z.ltb Z.compare xorb].
  replace (w * 2 ^ (- e' - 1))
    with (Zpos (Z.to_pos (w * 2 ^ (53 - Zdigits2 w))) * 2 ^ Z.of_nat 1).
  2:{ rewrite Hm, He'. change (2 ^ Z.of_nat 1) with 2.
      replace (- (Zdigits2 w - 55) - 1) with (Z.succ (53 - Zdigits2 w)) by lia.
      rewrite Z.pow_succ_r by lia. lia. }
  replace e' with (Zdigits2 w - 54 - Z.of_nat 1) by (rewrite He'; cbn; lia).
  rewrite round_aux_shift; [apply round_aux_canonical; [exact Hdm|lia]|lia|].
  rewrite Hdm. unfold fexp, emin, prec, emax. lia.
Qed.

Lemma shl_align_value (mx : positive) (ex ez : Z) :
  ez <= ex -> Zpos (fst (shl_align mx ex ez)) = Zpos mx * 2 ^ (ex - ez).
Proof.
  intros Hle. unfold shl_align.
  destruct (ez - ex) as [|d|d] eqn:Ed; [|lia|].
  - cbn [fst]. replace (ex - ez) with 0 by lia. lia.
  - cbn [fst]. rewrite iter_xO. f_equal. f_equal. lia.
Qed.

Lemma sub_halves (a b : Z) :
  0 < a < 2 ^ 53 -> 0 < b < 2 ^ 53 -> a <> b ->
  sub (half_float false a) (half_float false b)
  = half_float (a <? b) (Z.abs (a - b)).
Proof.
  intros Ha Hb Hne.
  destruct (half_mantissa a Ha) as (Hma & _ & Hda).
  destruct (half_mantissa b Hb) as (Hmb & _ & Hdb).
  destruct (half_mantissa (Z.abs (a - b)) ltac:(lia)) as (Hmv & Hdmv & Hdv).
  unfold sub, half_float, SFsub. cbv zeta. cbn [cond_Zopp].
  set (ez := Z.min (Zdigits2 a - 54) (Zdigits2 b - 54)).
  rewrite !shl_align_value by (unfold ez; lia).
  rewrite Hma, Hmb.
  assert (Hez : 0 <= - 1 - ez) by (unfold ez; lia).
  assert (HX : forall v, 1 <= Zdigits2 v <= 53 -> ez <= Zdigits2 v - 54 ->
             v * 2 ^ (53 - Zdigits2 v) * 2 ^ (Zdigits2 v - 54 - ez)
             = v * 2 ^ (- 1 - ez)).
  { intros v Hd Hle. rewrite <- Z.mul_assoc, <- Z.pow_add_r by lia.
    f_equal. f_equal. lia. }
  rewrite (HX a), (HX b) by (unfold ez; lia).
  rewrite <- Z.mul_sub_distr_r.
  assert (Hpow : 0 < 2 ^ (- 1 - ez)) by (apply Z.pow_pos_nonneg; lia).
  set (v := Z.abs (a - b)) in *.
  set (mv := Z.to_pos (v * 2 ^ (53 - Zdigits2 v))) in *.
  assert (Hround : forall sx p,
             Zpos p = v * 2 ^ (- 1 - ez) ->
             binary_round prec emax sx p ez
             = S754_finite sx mv (Zdigits2 v - 54)).
  { intros sx p Hp. apply binary_round_exact; [exact Hdmv|lia| |].
    - intros Hle. rewrite Hp, Hmv, (HX v) by lia. reflexivity.
    - intros Hle. rewrite Hp, Hmv, <- Z.mul_assoc, <- Z.pow_add_r by lia.
      f_equal. f_equal. lia. }
  destruct ((a - b) * 2 ^ (- 1 - ez)) as [|p|p] eqn:ED.
  - exfalso. nia.
  - cbn [binary_normalize].
    replace (a <? b) with false by (symmetry; apply Z.ltb_ge; nia).
    apply Hround. unfold v. rewrite Z.abs_eq by nia. lia.
  - cbn [binary_normalize].
    replace (a <? b) with true by (symmetry; apply Z.ltb_lt; nia).
    apply Hround. unfold v. rewrite Z.abs_neq by nia. lia.
Qed.

Lemma to_int_half (s : bool) (v : Z) :
  0 < v < 2 ^ 53 -> to_int (half_float s v) = Ok (cond_Zopp s (v / 2)).
Proof.
  intros Hv. destruct (half_mantissa v Hv) as (Hm & _ & Hd).
  unfold to_int, half_float. f_equal. f_equal.
  destruct (Zdigits2 v - 54) as [|p|p] eqn:Ee; [lia|lia|].
  rewrite Z.shiftr_div_pow2, Hm by lia.
  replace (Zpos p) with (Z.succ (53 - Zdigits2 v)) by lia.
  rewrite Z.pow_succ_r by lia.
  assert (0 < 2 ^ (53 - Zdigits2 v)) by (apply Z.pow_pos_nonneg; lia).
  rewrite Z.div_mul_cancel_r by lia. reflexivity.
Qed.

(** [int(screen_w / 2 - text_w / 2)] on the canvas of this program. *)
Lemma centre_exact (text_w : Z) :
  0 <= text_w < 2 ^ 53 ->
  exists half_screen half_text,
    int_truediv graphics_functions.WIDTH 2 = Ok half_screen /\
    int_truediv text_w 2 = Ok half_text /\
    to_int (sub half_screen half_text)
    = Ok (centred_x graphics_functions.WIDTH text_w).
Proof.
  intros Hw. unfold centred_x.
  change graphics_functions.WIDTH with 800.
  assert (H800 : int_truediv 800 2 = Ok (half_float false 800))
    by (vm_compute; reflexivity).
  exists (half_float false 800). rewrite H800.
  destruct (Z.eq_dec text_w 0) as [->|Hw0].
  - exists (S754_zero false).
    split; [reflexivity|]. split; vm_compute; reflexivity.
  - assert (Hhalf : int_truediv text_w 2 = Ok (half_float false text_w)).
    { unfold int_truediv. cbn [Z.eqb]. rewrite round_quot_half by lia.
      reflexivity. }
    exists (half_float false text_w). rewrite Hhalf.
    split; [reflexivity|]. split; [reflexivity|].
    destruct (Z.eq_dec text_w 800) as [->|Hne].
    + vm_compute. reflexivity.
    + rewrite sub_halves by lia.
      rewrite to_int_half by lia. f_equal.
      destruct (Z.ltb_spec 800 text_w) as [Hlt|Hge]; cbn [cond_Zopp].
      * rewrite Z.abs_neq by lia.
        replace (800 - text_w) with (- (text_w - 800)) by lia.
        rewrite Z.quot_opp_l, Z.quot_div_nonneg by lia.
        f_equal. f_equal. lia.
      * rewrite Z.abs_eq, Z.quot_div_nonneg by lia. reflexivity.
Qed.

(** ** The scene of a season *)

Lemma centerize_width_centred (size : colour_fonts.Font -> string -> Z * Z)
    (self : TextLabel.t) :
  0 <= fst (size (TextLabel._font self) (TextLabel.text self)) < 2 ^ 53 ->
  TextLabel.centerize_width size self graphics_functions.WIDTH
  = Ok (TextLabel.mk
          (ScrollableObject.mk
             (centred_x graphics_functions.WIDTH
                (fst (size (TextLabel._font self) (TextLabel.text self))))
             (ScrollableObject._y (TextLabel.base self)))
          (TextLabel.text self) (TextLabel._font self)
          (TextLabel._colour self)).
Proof.
  intros Hw. set (w := fst _) in *.
  destruct (centre_exact w Hw) as (hs & ht & Hhs & Hht & Hx).
  unfold TextLabel.centerize_width. fold w.
  rewrite Hhs. cbn [bind]. rewrite Hht. cbn [bind]. rewrite Hx. reflexivity.
Qed.

Lemma init_total (x y : Z) (fires : list CaliFire.t) :
  fires <> [] -> exists self, FireCircle.init x y fires = Ok self.
Proof.
  intros Hne. destruct fires as [|fire0 rest]; [congruence|].
  destruct (Z.le_gt_cases (CaliFire.year fire0) 2020) as [Hy|Hy].
  - destruct (init_historical x y fire0 rest Hy) as (self & Hi & _). eauto.
  - eexists. apply init_forecast, Hy.
Qed.

Lemma in_distinct (names : list string) (name : string) :
  In name (distinct names) <-> In name names.
Proof.
  induction names as [|a rest IH]; simpl; [tauto|].
  rewrite filter_In, IH. destruct (String.eqb_spec name a) as [->|Hne]; simpl.
  - split; auto.
  - split; [intros [?|[? _]]; auto|intros [?|?]; [congruence|auto]].
Qed.

Lemma distinct_snoc (names : list string) (name : string) :
  distinct (names ++ [name])
  = if in_dec string_dec name names then distinct names
    else distinct names ++ [name].
Proof.
  induction names as [|a rest IH]; [reflexivity|].
  cbn [app distinct]. rewrite IH.
  destruct (in_dec string_dec name rest) as [Hin|Hnin];
    destruct (in_dec string_dec name (a :: rest)) as [Hin'|Hnin'];
    try reflexivity.
  - exfalso. apply Hnin'. right. exact Hin.
  - rewrite filter_app. cbn [filter].
    destruct Hin' as [->|Hin']; [|contradiction].
    rewrite String.eqb_refl. cbn [negb]. rewrite app_nil_r. reflexivity.
  - rewrite filter_app. cbn [filter].
    destruct (String.eqb_spec name a) as [->|Hne].
    + exfalso. apply Hnin'. left. reflexivity.
    + reflexivity.
Qed.

Lemma county_records_snoc (seen : list CaliFire.t) (fire : CaliFire.t)
    (county : string) :
  county_records (seen ++ [fire]) county
  = county_records seen county
    ++ (if String.eqb (CaliFire.county fire) county then [fire] else []).
Proof. unfold county_records. rewrite filter_app. reflexivity. Qed.

Lemma county_records_nonempty (top_five : list CaliFire.t) (county : string) :
  In county (map CaliFire.county top_five) ->
  county_records top_five county <> [].
Proof.
  intros Hin. apply in_map_iff in Hin as (fire & Hc & Hf).
  assert (Hr : In fire (county_records top_five county)).
  { apply filter_In. split; [exact Hf|]. apply String.eqb_eq. exact Hc. }
  intros Hnil. rewrite Hnil in Hr. destruct Hr.
Qed.

Lemma county_records_empty (top_five : list CaliFire.t) (county : string) :
  ~ In county (map CaliFire.county top_five) ->
  county_records top_five county = [].
Proof.
  intros Hnin. unfold county_records.
  induction top_five as [|fire rest IH]; [reflexivity|].
  cbn [filter]. destruct (String.eqb_spec (CaliFire.county fire) county) as [E|_].
  - exfalso. apply Hnin. left. exact E.
  - apply IH. intros Hin. apply Hnin. right. exact Hin.
Qed.

Lemma file_fire_filed (seen : list CaliFire.t)
    (fire_dict : dict string (list CaliFire.t)) (fire : CaliFire.t) :
  filed seen fire_dict ->
  exists fire_dict',
    graphics_functions.file_fire fire_dict fire = Ok fire_dict' /\
    filed (seen ++ [fire]) fire_dict'.
Proof.
  intros [Hkeys Hget]. unfold graphics_functions.file_fire.
  set (c := CaliFire.county fire).
  assert (Hmem : dict_mem fire_dict c = true <-> In c (map CaliFire.county seen)).
  { unfold dict_mem. rewrite <- in_distinct. fold (distinct_counties seen).
    rewrite <- Hkeys, dict_get_in_keys.
    destruct (dict_get fire_dict c) as [l|]; split; eauto; try discriminate.
    intros [v Hv]. discriminate. }
  set (d1 := if dict_mem fire_dict c then fire_dict else dict_set fire_dict c []).
  assert (H1 : dict_get d1 c = Some (county_records seen c) /\
               (forall c', c <> c' -> dict_get d1 c' = dict_get fire_dict c') /\
               dict_keys d1 = distinct_counties (seen ++ [fire])).
  { unfold d1, distinct_counties. rewrite map_app. cbn [map]. fold c.
    rewrite distinct_snoc.
    destruct (dict_mem fire_dict c) eqn:Em.
    - assert (Hin := proj1 Hmem eq_refl).
      destruct (in_dec string_dec c (map CaliFire.county seen)) as [_|Hn];
        [|contradiction].
      split; [|split; [reflexivity|exact Hkeys]].
      rewrite Hget. apply county_records_nonempty in Hin.
      destruct (county_records seen c); [congruence|reflexivity].
    - assert (Hnin : ~ In c (map CaliFire.county seen))
        by (intros Hin; apply Hmem in Hin; discriminate).
      destruct (in_dec string_dec c (map CaliFire.county seen)) as [Hy|_];
        [contradiction|].
      rewrite county_records_empty by exact Hnin.
      split; [apply dict_get_set_same|].
      split; [intros c' Hne; apply dict_get_set_other, Hne|].
      rewrite dict_keys_set_new; [rewrite Hkeys; reflexivity|].
      rewrite Hkeys. unfold distinct_counties. rewrite in_distinct. exact Hnin. }
  destruct H1 as (Hc & Hother & Hk1).
  unfold getitem. rewrite Hc. cbn [bind]. eexists. split; [reflexivity|].
  split.
  - rewrite dict_keys_set_old; [exact Hk1|].
    apply dict_get_in_keys. eauto.
  - intros c'. rewrite county_records_snoc. fold c.
    destruct (String.eqb_spec c c') as [<-|Hne].
    + rewrite dict_get_set_same.
      destruct (county_records seen c); reflexivity.
    + rewrite dict_get_set_other, Hother, app_nil_r by exact Hne. apply Hget.
Qed.

Lemma file_fires_filed (top_five seen : list CaliFire.t)
    (fire_dict : dict string (list CaliFire.t)) :
  filed seen fire_dict ->
  exists fire_dict',
    graphics_functions.file_fires fire_dict top_five = Ok fire_dict' /\
    filed (seen ++ top_five) fire_dict'.
Proof.
  revert seen fire_dict. induction top_five as [|fire rest IH];
    intros seen d Hf.
  - exists d. rewrite app_nil_r. auto.
  - destruct (file_fire_filed seen d fire Hf) as (d1 & H1 & Hf1).
    destruct (IH _ d1 Hf1) as (d2 & H2 & Hf2).
    exists d2. cbn [graphics_functions.file_fires]. rewrite H1. cbn [bind].
    rewrite <- app_assoc in Hf2. auto.
Qed.

Section Circles.
Variable top_five : list CaliFire.t.
Variable fire_dict : dict string (list CaliFire.t).
Variable img_map : Image.t.
Hypothesis fire_dict_filed : filed top_five fire_dict.

Lemma fire_dict_records (county : string) :
  In county (distinct_counties top_five) ->
  dict_get fire_dict county = Some (county_records top_five county) /\
  county_records top_five county <> [].
Proof.
  intros Hin. apply (proj1 (in_distinct _ _)) in Hin.
  assert (Hne := county_records_nonempty top_five county Hin).
  split; [|exact Hne]. rewrite (proj2 fire_dict_filed).
  destruct (county_records top_five county); [congruence|reflexivity].
Qed.

Lemma place_circles_known (counties : list string)
    (circles_so_far : list FireCircle.t) :
  (forall county, In county counties ->
     In county (distinct_counties top_five) /\
     dict_mem county_mapping.MAPPING county = true) ->
  exists circles,
    graphics_functions.place_circles fire_dict img_map counties circles_so_far
    = Ok (circles_so_far ++ circles) /\
    Forall2 (placed top_five img_map) counties circles.
Proof.
  revert circles_so_far. induction counties as [|county rest IH];
    intros so_far Hall.
  - exists []. rewrite app_nil_r. split; [reflexivity|constructor].
  - destruct (Hall county (or_introl eq_refl)) as [Hd Hm].
    destruct (fire_dict_records county Hd) as [Hget Hne].
    unfold dict_mem in Hm.
    destruct (dict_get county_mapping.MAPPING county) as [[x1 y1]|] eqn:Hxy;
      [|discriminate].
    destruct (init_total (x1 + fst (Image.get_coords img_map))
                (y1 + snd (Image.get_coords img_map))
                (county_records top_five county) Hne) as [circle Hinit].
    destruct (IH (so_far ++ [circle])) as (circles & Hrest & Hplaced);
      [intros c Hc; apply Hall; right; exact Hc|].
    exists (circle :: circles).
    cbn [graphics_functions.place_circles]. unfold getitem.
    rewrite Hxy, Hget. cbn [bind]. cbn [Image.get_coords
      ScrollableObject.get_coords fst snd] in Hinit |- *.
    rewrite Hinit. cbn [bind]. rewrite Hrest, <- app_assoc.
    split; [reflexivity|]. constructor; [|exact Hplaced].
    exists x1, y1. split; [exact Hxy|]. split; [exact Hinit|].
    exact (init_fields _ _ _ _ Hinit).
Qed.

Lemma place_circles_unknown (counties : list string)
    (circles_so_far : list FireCircle.t) :
  (forall county, In county counties -> In county (distinct_counties top_five)) ->
  (exists county,
      In county counties /\ dict_mem county_mapping.MAPPING county = false) ->
  graphics_functions.place_circles fire_dict img_map counties circles_so_far
  = Err KeyError.
Proof.
  revert circles_so_far. induction counties as [|county rest IH];
    intros so_far Hall (bad & Hin & Hbad); [destruct Hin|].
  cbn [graphics_functions.place_circles]. unfold getitem.
  unfold dict_mem in Hbad.
  destruct (dict_get county_mapping.MAPPING county) as [[x1 y1]|] eqn:Hxy;
    [|reflexivity].
  destruct (fire_dict_records county (Hall county (or_introl eq_refl)))
    as [Hget Hne].
  destruct (init_total (x1 + fst (Image.get_coords img_map))
              (y1 + snd (Image.get_coords img_map))
              (county_records top_five county) Hne) as [circle Hinit].
  cbn [bind]. rewrite Hget. cbn [bind]. cbn [Image.get_coords
    ScrollableObject.get_coords fst snd] in Hinit |- *.
  rewrite Hinit. cbn [bind]. apply IH.
  - intros c Hc. apply Hall. right. exact Hc.
  - exists bad. split; [|exact Hbad].
    destruct Hin as [->|Hin]; [|exact Hin].
    rewrite Hxy in Hbad. discriminate.
Qed.
End Circles.

Lemma filed_empty : filed [] [].
Proof. split; [reflexivity|]. intros county. reflexivity. Qed.

Lemma get_counties_on_map_known (season : CaliFireSeason.t) (img_map : Image.t) :
  (forall fire, In fire (CaliFireSeason.top_five season) ->
     dict_mem county_mapping.MAPPING (CaliFire.county fire) = true) ->
  exists circles,
    graphics_functions.get_counties_on_map season img_map = Ok circles /\
    Forall2 (placed (CaliFireSeason.top_five season) img_map)
      (distinct_counties (CaliFireSeason.top_five season)) circles.
Proof.
  intros Hknown. unfold graphics_functions.get_counties_on_map.
  destruct (file_fires_filed (CaliFireSeason.top_five season) [] [] filed_empty)
    as (d & Hd & Hf).
  cbn [app] in Hf. rewrite Hd. cbn [bind]. rewrite (proj1 Hf).
  destruct (place_circles_known (CaliFireSeason.top_five season) d img_map Hf
              (distinct_counties (CaliFireSeason.top_five season)) [])
    as (circles & Hp & Hplaced).
  - intros county Hin. split; [exact Hin|].
    apply (proj1 (in_distinct _ _)), in_map_iff in Hin as (fire & <- & Hfire).
    auto.
  - exists circles. auto.
Qed.

Lemma get_counties_on_map_unknown (season : CaliFireSeason.t)
    (img_map : Image.t) :
  (exists fire,
      In fire (CaliFireSeason.top_five season) /\
      dict_mem county_mapping.MAPPING (CaliFire.county fire) = false) ->
  graphics_functions.get_counties_on_map season img_map = Err KeyError.
Proof.
  intros (fire & Hfire & Hbad). unfold graphics_functions.get_counties_on_map.
  destruct (file_fires_filed (CaliFireSeason.top_five season) [] [] filed_empty)
    as (d & Hd & Hf).
  cbn [app] in Hf. rewrite Hd. cbn [bind]. rewrite (proj1 Hf).
  apply (place_circles_unknown (CaliFireSeason.top_five season) d img_map Hf).
  - auto.
  - exists (CaliFire.county fire). split; [|exact Hbad].
    apply (proj2 (in_distinct _ _)), in_map. exact Hfire.
Qed.

(** C6. [get_scrollables_for_season] produces, in draw order: the
    season-summary label and the section-title label, both horizontally
    centred on the canvas width 800 (for a season after 2020 the two
    figures of the summary carry a leading tilde and the title reads
    [Five Vulnerable Counties:] instead of [Top Five Fires:]); the map
    image; and one FireCircle per distinct county of the season's top five,
    built from the records of that county and placed at the map origin plus
    the county's pixel offset. When a county of the top five has no entry
    in the coordinate table it fails with KeyError. The widths pygame
    measures for the two texts are taken non-negative and below [2 ^ 53],
    where halving and subtracting them is exact in binary64. *)
Theorem season_scene_in_draw_order
    (size : colour_fonts.Font -> string -> Z * Z)
    (season : CaliFireSeason.t) (img_map : Image.t) :
  let summary_w := fst (size colour_fonts.CALIBRI_24_B (summary_text season)) in
  let title_w := fst (size colour_fonts.CALIBRI_24_B (title_text season)) in
  0 <= summary_w < 2 ^ 53 ->
  0 <= title_w < 2 ^ 53 ->
  let summary :=
    TextLabel.mk (ScrollableObject.mk (centred_x 800 summary_w) 160)
      (summary_text season) colour_fonts.CALIBRI_24_B colour_fonts.BLACK in
  let title :=
    TextLabel.mk (ScrollableObject.mk (centred_x 800 title_w) 200)
      (title_text season) colour_fonts.CALIBRI_24_B colour_fonts.BLACK in
  ((forall fire, In fire (CaliFireSeason.top_five season) ->
      dict_mem county_mapping.MAPPING (CaliFire.county fire) = true) ->
   exists circles,
     graphics_functions.get_scrollables_for_season size season img_map
     = Ok ([ALabel summary; ALabel title; AnImage img_map]
           ++ map ACircle circles) /\
     Forall2 (placed (CaliFireSeason.top_five season) img_map)
       (distinct_counties (CaliFireSeason.top_five season)) circles)
  /\ ((exists fire,
         In fire (CaliFireSeason.top_five season) /\
         dict_mem county_mapping.MAPPING (CaliFire.county fire) = false) ->
      graphics_functions.get_scrollables_for_season size season img_map
      = Err KeyError)
  /\ (CaliFireSeason.year season > 2020 ->
      summary_text season
      = ("Total # of fires: ~" ++ str (CaliFireSeason.fires season)
         ++ "    Total acreage burned: ~"
         ++ str (CaliFireSeason.acreage season))%string
      /\ title_text season = "Five Vulnerable Counties:"%string)
  /\ (CaliFireSeason.year season <= 2020 ->
      summary_text season
      = ("Total # of fires: " ++ str (CaliFireSeason.fires season)
         ++ "    Total acreage burned: "
         ++ str (CaliFireSeason.acreage season))%string
      /\ title_text season = "Top Five Fires:"%string).
Proof.
  intros summary_w title_w Hsw Htw summary title.
  assert (Hlabels :
            graphics_functions.get_scrollables_for_season size season img_map
            = (county_circles <-
                 graphics_functions.get_counties_on_map season img_map ;;
               Ok ([ALabel summary; ALabel title; AnImage img_map]
                   ++ map ACircle county_circles))).
  { unfold graphics_functions.get_scrollables_for_season.
    assert (Htexts :
              (if CaliFireSeason.year season >? 2020
               then
                 (("Total # of fires: ~" ++ str (CaliFireSeason.fires season)
                   ++ "    " ++ "Total acreage burned: ~"
                   ++ str (CaliFireSeason.acreage season))%string,
                  "Five Vulnerable Counties:"%string)
               else
                 (("Total # of fires: " ++ str (CaliFireSeason.fires season)
                   ++ "    " ++ "Total acreage burned: "
                   ++ str (CaliFireSeason.acreage season))%string,
                  "Top Five Fires:"%string))
              = (summary_text season, title_text season)).
    { unfold summary_text, title_text.
      destruct (CaliFireSeason.year season >? 2020); reflexivity. }
    rewrite Htexts.
    rewrite (centerize_width_centred size
               (TextLabel.init 0 160 (summary_text season)
                  colour_fonts.CALIBRI_24_B colour_fonts.BLACK)) by exact Hsw.
    cbn [bind].
    rewrite (centerize_width_centred size
               (TextLabel.init 0 200 (title_text season)
                  colour_fonts.CALIBRI_24_B colour_fonts.BLACK)) by exact Htw.
    reflexivity. }
  split; [|split; [|split]].
  - intros Hknown.
    destruct (get_counties_on_map_known season img_map Hknown)
      as (circles & Hc & Hplaced).
    exists circles. rewrite Hlabels, Hc. split; [reflexivity|exact Hplaced].
  - intros Hbad. rewrite Hlabels.
    rewrite (get_counties_on_map_unknown season img_map Hbad). reflexivity.
  - intros Hy. unfold summary_text, title_text.
    destruct (Z.gtb_spec (CaliFireSeason.year season) 2020); [|lia].
    split; reflexivity.
  - intros Hy. unfold summary_text, title_text.
    destruct (Z.gtb_spec (CaliFireSeason.year season) 2020); [lia|].
    split; reflexivity.
Qed.

Lemma season_scene_in_draw_order_witness :
  let img_map := Image.init 190 240 "county_map.jpg" in
  let summary_w :=
    fst (sample_size colour_fonts.CALIBRI_24_B (summary_text sample_season)) in
  let title_w :=
    fst (sample_size colour_fonts.CALIBRI_24_B (title_text sample_season)) in
  0 <= summary_w < 2 ^ 53 /\
  0 <= title_w < 2 ^ 53 /\
  exists circles,
    graphics_functions.get_scrollables_for_season sample_size sample_season
      img_map
    = Ok ([ALabel
             (TextLabel.mk (ScrollableObject.mk (centred_x 800 summary_w) 160)
                (summary_text sample_season) colour_fonts.CALIBRI_24_B
                colour_fonts.BLACK);
           ALabel
             (TextLabel.mk (ScrollableObject.mk (centred_x 800 title_w) 200)
                (title_text sample_season) colour_fonts.CALIBRI_24_B
                colour_fonts.BLACK);
           AnImage img_map] ++ map ACircle circles) /\
    List.length circles = 4%nat.
Proof.
  intros img_map summary_w title_w.
  assert (Hsw : 0 <= summary_w < 2 ^ 53)
    by (vm_compute; split; [discriminate|reflexivity]).
  assert (Htw : 0 <= title_w < 2 ^ 53)
    by (vm_compute; split; [discriminate|reflexivity]).
  split; [exact Hsw|]. split; [exact Htw|].
  destruct (proj1 (season_scene_in_draw_order sample_size sample_season img_map
                     Hsw Htw)) as (circles & Hscene & Hplaced).
  - intros fire Hin. simpl in Hin.
    repeat (destruct Hin as [<-|Hin]; [reflexivity|]). destruct Hin.
  - exists circles. split; [exact Hscene|].
    apply Forall2_length in Hplaced. rewrite <- Hplaced. reflexivity.
Defined.

(** The circles that reach the hit test: those of a season's scene, built
    from records with positive acreages, and those scrolled afterwards,
    have their radius assigned. *)
Lemma placed_radius_assigned (top_five : list CaliFire.t) (img_map : Image.t)
    (county : string) (circle : FireCircle.t) :
  Forall (fun fire => 0 < CaliFire.acreage fire) top_five ->
  In county (distinct_counties top_five) ->
  placed top_five img_map county circle ->
  FireCircle._radius circle <> None.
Proof.
  intros Hpos Hin (x1 & y1 & _ & Hinit & _).
  destruct (init_assigns (x1 + fst (Image.get_coords img_map))
              (y1 + snd (Image.get_coords img_map))
              (county_records top_five county))
    as (self & c & r & Hi & _ & _ & Hr & _).
  - apply county_records_nonempty. exact (proj1 (in_distinct _ _) Hin).
  - unfold county_records. apply Forall_forall. intros fire Hf.
    apply filter_In in Hf as [Hf _]. rewrite Forall_forall in Hpos. auto.
  - rewrite Hinit in Hi. injection Hi as <-. rewrite Hr. discriminate.
Qed.

Lemma Forall2_in_right {A B : Type} (R : A -> B -> Prop) (xs : list A)
    (ys : list B) (y : B) :
  Forall2 R xs ys -> In y ys -> exists x, In x xs /\ R x y.
Proof.
  induction 1 as [|x y' xs ys HR _ IH]; intros Hin; [destruct Hin|].
  destruct Hin as [<-|Hin].
  - exists x. split; [left; reflexivity|exact HR].
  - destruct (IH Hin) as (x' & Hx' & HR'). exists x'. split; [right|]; auto.
Qed.

Lemma counties_known_or_not (top_five : list CaliFire.t) :
  (forall fire, In fire top_five ->
     dict_mem county_mapping.MAPPING (CaliFire.county fire) = true)
  \/ (exists fire,
        In fire top_five /\
        dict_mem county_mapping.MAPPING (CaliFire.county fire) = false).
Proof.
  induction top_five as [|fire rest [IH|(bad & Hin & Hbad)]].
  - left. intros fire [].
  - destruct (dict_mem county_mapping.MAPPING (CaliFire.county fire)) eqn:Hm.
    + left. intros fire' [<-|Hin]; auto.
    + right. exists fire. split; [left; reflexivity|exact Hm].
  - right. exists bad. split; [right; exact Hin|exact Hbad].
Qed.

Lemma get_counties_on_map_placed (season : CaliFireSeason.t)
    (img_map : Image.t) (circles : list FireCircle.t) :
  graphics_functions.get_counties_on_map season img_map = Ok circles ->
  Forall2 (placed (CaliFireSeason.top_five season) img_map)
    (distinct_counties (CaliFireSeason.top_five season)) circles.
Proof.
  intros Hc.
  destruct (counties_known_or_not (CaliFireSeason.top_five season))
    as [Hknown|Hbad].
  - destruct (get_counties_on_map_known season img_map Hknown)
      as (circles' & Hc' & Hplaced).
    rewrite Hc in Hc'. injection Hc' as <-. exact Hplaced.
  - rewrite (get_counties_on_map_unknown season img_map Hbad) in Hc.
    discriminate.
Qed.

Lemma scene_radii_assigned (size : colour_fonts.Font -> string -> Z * Z)
    (season : CaliFireSeason.t) (img_map : Image.t)
    (objects : list Scrollable) :
  Forall (fun fire => 0 < CaliFire.acreage fire)
    (CaliFireSeason.top_five season) ->
  graphics_functions.get_scrollables_for_season size season img_map
  = Ok objects ->
  radii_assigned objects.
Proof.
  intros Hpos Hscene.
  unfold graphics_functions.get_scrollables_for_season in Hscene.
  assert (Hcircles : exists l1 l2 circles,
             graphics_functions.get_counties_on_map season img_map = Ok circles
             /\ objects
                = [ALabel l1; ALabel l2; AnImage img_map] ++ map ACircle circles).
  { destruct (CaliFireSeason.year season >? 2020); bind_inv Hscene;
      injection Hscene as <-; do 3 eexists; split; reflexivity. }
  destruct Hcircles as (l1 & l2 & circles & Hc & ->).
  apply get_counties_on_map_placed in Hc.
  intros c Hin. destruct Hin as [Hin|[Hin|[Hin|Hin]]]; try discriminate.
  apply in_map_iff in Hin as (c' & Heq & Hin). injection Heq as ->.
  destruct (Forall2_in_right _ _ _ _ Hc Hin) as (county & Hcounty & Hpl).
  exact (placed_radius_assigned _ img_map county c Hpos Hcounty Hpl).
Qed.

Lemma scroll_radii_assigned (objects : list Scrollable) (scroll_amount : Z) :
  radii_assigned objects ->
  radii_assigned (graphics_functions.scroll_objects objects scroll_amount).
Proof.
  intros Hrad c Hc. unfold graphics_functions.scroll_objects in Hc.
  apply in_map_iff in Hc as (o & Ho & Hin).
  destruct o as [i|c0|l]; try discriminate.
  injection Ho as <-. exact (Hrad c0 Hin).
Qed.

(** ** Scrolling a scene *)

Lemma translate_compose (o : Scrollable) (dx1 dy1 dx2 dy2 : Z) :
  translate (translate o dx1 dy1) dx2 dy2 = translate o (dx1 + dx2) (dy1 + dy2).
Proof.
  destruct o as [[[x y] img]|[[x y] cty a fs r c]|[[x y] txt font c]];
    unfold translate, Image.translate, FireCircle.translate,
      TextLabel.translate, ScrollableObject.translate; cbn;
    rewrite !Z.add_assoc; reflexivity.
Qed.

Lemma translate_zero (o : Scrollable) : translate o 0 0 = o.
Proof.
  destruct o as [[[x y] img]|[[x y] cty a fs r c]|[[x y] txt font c]];
    unfold translate, Image.translate, FireCircle.translate,
      TextLabel.translate, ScrollableObject.translate; cbn;
    rewrite !Z.add_0_r; reflexivity.
Qed.

(** X1. Scrolling composes: scrolling a scene by [a] and then by [b] gives
    the very objects that scrolling once by [a + b] gives; scrolling by 0
    changes nothing; so scrolling back by [- a] restores every object, not
    only its coordinates. The number and the order of the objects never
    change. *)
Theorem scroll_objects_compose (scrollables : list Scrollable) (a b : Z) :
  graphics_functions.scroll_objects
    (graphics_functions.scroll_objects scrollables a) b
  = graphics_functions.scroll_objects scrollables (a + b)
  /\ graphics_functions.scroll_objects scrollables 0 = scrollables
  /\ graphics_functions.scroll_objects
       (graphics_functions.scroll_objects scrollables a) (- a)
     = scrollables
  /\ List.length (graphics_functions.scroll_objects scrollables a)
     = List.length scrollables.
Proof.
  unfold graphics_functions.scroll_objects.
  assert (Hcomp : forall a b,
             map (fun o => translate o 0 b)
                 (map (fun o => translate o 0 a) scrollables)
             = map (fun o => translate o 0 (a + b)) scrollables).
  { intros a' b'. rewrite map_map. apply map_ext. intros o.
    rewrite translate_compose. reflexivity. }
  assert (Hzero : map (fun o => translate o 0 0) scrollables = scrollables).
  { rewrite <- (map_id scrollables) at 2. apply map_ext. intros o.
    apply translate_zero. }
  split; [apply Hcomp|]. split; [exact Hzero|]. split.
  - rewrite Hcomp, Z.add_opp_diag_r. exact Hzero.
  - apply length_map.
Qed.

(** ** Hit-testing a scrolled scene *)

(** X2. The hit test moves with the scene: testing the point
    [(x, y + a)] against the scene scrolled by [a] gives what testing
    [(x, y)] against the scene gives, the circle found being the scrolled
    one; an exception or a miss stays what it was. *)
Theorem get_mouse_on_scrolled_scene (x y a : Z) (scrollables : list Scrollable) :
  graphics_functions.get_mouse_on_fire_circle x (y + a)
    (graphics_functions.scroll_objects scrollables a)
  = shifted a (graphics_functions.get_mouse_on_fire_circle x y scrollables).
Proof.
  induction scrollables as [|o rest IH]; [reflexivity|].
  unfold graphics_functions.scroll_objects in *. cbn [map].
  destruct o as [i|c|l]; cbn [translate graphics_functions.get_mouse_on_fire_circle];
    try exact IH.
  destruct c as [[cx cy] cty acc fs [r|] col];
    cbn [FireCircle.translate FireCircle.get_bounds FireCircle.radius
         FireCircle._radius FireCircle.base ScrollableObject.translate
         ScrollableObject._x ScrollableObject._y bind];
    [|reflexivity].
  replace (cx + 0 - r) with (cx - r) by lia.
  replace (cy + a - r <? y + a) with (cy - r <? y)
    by (destruct (Z.ltb_spec (cy - r) y), (Z.ltb_spec (cy + a - r) (y + a));
        try reflexivity; lia).
  replace (y + a <? cy + a - r + r * 2) with (y <? cy - r + r * 2)
    by (destruct (Z.ltb_spec y (cy - r + r * 2)),
          (Z.ltb_spec (y + a) (cy + a - r + r * 2)); try reflexivity; lia).
  destruct (((cx - r <? x) && (x <? cx - r + r * 2))
            && ((cy - r <? y) && (y <? cy - r + r * 2))).
  - reflexivity.
  - exact IH.
Qed.

(** ** The frame loop: scene and navigation *)

Section Navigation.
Variable size : colour_fonts.Font -> string -> Z * Z.
Variable fire_season_data : dict Z CaliFireSeason.t.
Variable years : list Z.

Lemma handle_scene_in_step (st st' : main.state) (ev : main.event) :
  scene_in_step size fire_season_data years st ->
  main.handle size fire_season_data years st ev = Ok st' ->
  scene_in_step size fire_season_data years st'.
Proof.
  intros (scene & Hscene & Hobjs) Hh. unfold main.handle in Hh.
  destruct ev as [|button|k|].
  - injection Hh as <-. exists scene. auto.
  - destruct (_ && _).
    + injection Hh as <-. exists scene. split; [exact Hscene|].
      cbn [main.scrollables main.scroll_amount]. rewrite Hobjs.
      unfold graphics_functions.scroll_objects. rewrite map_map.
      apply map_ext. intros o. rewrite translate_compose. f_equal. lia.
    + injection Hh as <-. exists scene. auto.
  - bind_inv Hh. injection Hh as <-.
    match goal with
    | E : main.season_scene _ _ _ _ = Ok ?s |- _ => exists s
    end.
    split; [assumption|]. cbn [main.scrollables main.scroll_amount].
    unfold graphics_functions.scroll_objects. cbn [Z.opp].
    rewrite <- (map_id a0) at 1. apply map_ext. intros o.
    symmetry. apply translate_zero.
  - injection Hh as <-. exists scene. auto.
Qed.

Lemma handle_all_scene_in_step (evs : list main.event) (st st' : main.state) :
  scene_in_step size fire_season_data years st ->
  main.handle_all size fire_season_data years st evs = Ok st' ->
  scene_in_step size fire_season_data years st'.
Proof.
  revert st. induction evs as [|ev evs IH]; intros st Hs Hh.
  - injection Hh as <-. exact Hs.
  - cbn [main.handle_all] in Hh.
    destruct (main.handle size fire_season_data years st ev) as [st1|e] eqn:H1;
      cbn [bind] in Hh; [|discriminate].
    apply (IH st1); [apply (handle_scene_in_step st st1 ev Hs H1)|exact Hh].
Qed.

Lemma reachable_scene_in_step (st : main.state) :
  main.reachable size fire_season_data years st ->
  scene_in_step size fire_season_data years st.
Proof.
  induction 1 as [st Hinit|st escape evs st' _ IH _ Hframe].
  - unfold main.initial in Hinit.
    destruct (main.season_scene _ _ _ _) as [scene|e] eqn:Hscene;
      cbn [bind] in Hinit; [|discriminate].
    injection Hinit as <-. exists scene. split; [exact Hscene|].
    cbn [main.scrollables main.scroll_amount Z.opp].
    unfold graphics_functions.scroll_objects.
    rewrite <- (map_id scene) at 1. apply map_ext. intros o.
    symmetry. apply translate_zero.
  - unfold main.frame in Hframe.
    apply (handle_all_scene_in_step evs _ st') in Hframe; [exact Hframe|].
    destruct escape; exact IH.
Qed.

Lemma scroll_objects_coords (scene : list Scrollable) (a : Z) :
  map get_coords (graphics_functions.scroll_objects scene a)
  = map (fun o => (fst (get_coords o), snd (get_coords o) + a)) scene.
Proof.
  unfold graphics_functions.scroll_objects. rewrite map_map.
  apply map_ext.
  intros [[[x y] img]|[[x y] cty ac fs r c]|[[x y] txt font c]];
    unfold translate, get_coords, Image.translate, FireCircle.translate,
      TextLabel.translate, Image.get_coords, FireCircle.get_coords,
      TextLabel.get_coords, ScrollableObject.translate,
      ScrollableObject.get_coords; cbn; rewrite Z.add_0_r; reflexivity.
Qed.

(** X3. Between frames the displayed objects are always the scene of the
    current season moved up by the scroll offset: the list the loop holds
    is the freshly built scene of [years[curr_index]] translated by minus
    the offset, so every object has its original x and its original y
    less the offset. *)
Theorem scene_follows_offset (st : main.state) :
  main.reachable size fire_season_data years st ->
  exists scene,
    main.season_scene size fire_season_data years (main.curr_index st)
    = Ok scene
    /\ main.scrollables st
       = graphics_functions.scroll_objects scene (- main.scroll_amount st)
    /\ map get_coords (main.scrollables st)
       = map (fun o => (fst (get_coords o),
                        snd (get_coords o) - main.scroll_amount st)) scene.
Proof.
  intros Hreach.
  destruct (reachable_scene_in_step st Hreach) as (scene & Hscene & Hobjs).
  exists scene. split; [exact Hscene|]. split; [exact Hobjs|].
  rewrite Hobjs, scroll_objects_coords. apply map_ext. intros o.
  f_equal.
Qed.

Lemma season_scene_nonempty (i : Z) (scene : list Scrollable) :
  main.season_scene size fire_season_data years i = Ok scene ->
  0 < len fire_season_data.
Proof.
  unfold main.season_scene. intros Hs. bind_inv Hs.
  destruct fire_season_data as [|p d]; [discriminate|].
  unfold len. cbn [List.length]. lia.
Qed.

Lemma wrap_range (x i : Z) :
  main.wrap fire_season_data x = Ok i ->
  0 <= i < len fire_season_data /\ i = x mod len fire_season_data.
Proof.
  unfold main.wrap. destruct (Z.eqb_spec (len fire_season_data) 0) as [|Hne];
    [discriminate|].
  intros [= <-]. split; [|reflexivity].
  apply Z.mod_pos_bound. unfold len in *. lia.
Qed.

Lemma handle_index_valid (st st' : main.state) (ev : main.event) :
  season_index_valid fire_season_data st ->
  main.handle size fire_season_data years st ev = Ok st' ->
  season_index_valid fire_season_data st'.
Proof.
  unfold season_index_valid. intros Hi Hh. unfold main.handle in Hh.
  destruct ev as [|button|k|].
  - injection Hh as <-. exact Hi.
  - destruct (_ && _); injection Hh as <-; exact Hi.
  - bind_inv Hh. injection Hh as <-. cbn [main.curr_index].
    destruct k.
    + match goal with E : main.wrap _ _ = Ok _ |- _ =>
        apply wrap_range in E; tauto end.
    + match goal with E : main.wrap _ _ = Ok _ |- _ =>
        apply wrap_range in E; tauto end.
    + match goal with E : Ok _ = Ok _ |- _ => injection E as <- end.
      exact Hi.
  - injection Hh as <-. exact Hi.
Qed.

Lemma handle_all_index_valid (evs : list main.event) (st st' : main.state) :
  season_index_valid fire_season_data st ->
  main.handle_all size fire_season_data years st evs = Ok st' ->
  season_index_valid fire_season_data st'.
Proof.
  revert st. induction evs as [|ev evs IH]; intros st Hs Hh.
  - injection Hh as <-. exact Hs.
  - cbn [main.handle_all] in Hh.
    destruct (main.handle size fire_season_data years st ev) as [st1|e] eqn:H1;
      cbn [bind] in Hh; [|discriminate].
    apply (IH st1); [apply (handle_index_valid st st1 ev Hs H1)|exact Hh].
Qed.

Lemma reachable_index_valid (st : main.state) :
  main.reachable size fire_season_data years st ->
  season_index_valid fire_season_data st.
Proof.
  induction 1 as [st Hinit|st escape evs st' _ IH _ Hframe].
  - unfold main.initial in Hinit.
    destruct (main.season_scene _ _ _ _) as [scene|e] eqn:Hscene;
      cbn [bind] in Hinit; [|discriminate].
    injection Hinit as <-. unfold season_index_valid. cbn [main.curr_index].
    apply season_scene_nonempty in Hscene. lia.
  - unfold main.frame in Hframe.
    apply (handle_all_index_valid evs _ st') in Hframe; [exact Hframe|].
    destruct escape; exact IH.
Qed.

Lemma keydown_shape (st st' : main.state) (k : main.key) :
  main.handle size fire_season_data years st (main.KEYDOWN k) = Ok st' ->
  main.running st' = main.running st
  /\ main.scroll_amount st' = 0
  /\ main.season_scene size fire_season_data years (main.curr_index st')
     = Ok (main.scrollables st')
  /\ main.curr_index st'
     = match k with
       | main.K_RIGHT => (main.curr_index st + 1) mod len fire_season_data
       | main.K_LEFT => (main.curr_index st - 1) mod len fire_season_data
       | main.K_other => main.curr_index st
       end.
Proof.
  intros Hh. unfold main.handle in Hh. bind_inv Hh. injection Hh as <-.
  cbn [main.running main.scroll_amount main.curr_index main.scrollables].
  split; [reflexivity|]. split; [reflexivity|]. split; [assumption|].
  destruct k.
  - match goal with E : main.wrap _ _ = Ok _ |- _ =>
      apply wrap_range in E; tauto end.
  - match goal with E : main.wrap _ _ = Ok _ |- _ =>
      apply wrap_range in E; tauto end.
  - match goal with E : Ok _ = Ok _ |- _ => injection E as <- end.
    reflexivity.
Qed.

(** X4. Season navigation stays on the data and wraps around: in every
    state the loop reaches the season index is a position of the data;
    a key press resets the scroll offset to 0 and shows the unscrolled
    scene of the season it selects; the right arrow selects the next
    season and from the last one the first, the left arrow the previous
    one and from the first one the last, any other key the same season;
    and a right arrow followed by a left arrow selects the season one
    started from. *)
Theorem navigation_wraps (st : main.state) :
  main.reachable size fire_season_data years st ->
  0 <= main.curr_index st < len fire_season_data
  /\ (forall k st',
        main.handle size fire_season_data years st (main.KEYDOWN k) = Ok st' ->
        main.running st' = main.running st
        /\ main.scroll_amount st' = 0
        /\ main.season_scene size fire_season_data years (main.curr_index st')
           = Ok (main.scrollables st')
        /\ main.curr_index st'
           = match k with
             | main.K_RIGHT =>
                 if main.curr_index st =? len fire_season_data - 1 then 0
                 else main.curr_index st + 1
             | main.K_LEFT =>
                 if main.curr_index st =? 0 then len fire_season_data - 1
                 else main.curr_index st - 1
             | main.K_other => main.curr_index st
             end)
  /\ (forall st1 st2,
        main.handle size fire_season_data years st (main.KEYDOWN main.K_RIGHT)
        = Ok st1 ->
        main.handle size fire_season_data years st1 (main.KEYDOWN main.K_LEFT)
        = Ok st2 ->
        st2 = main.mk (main.running st) (main.scrollables st2) 0
                (main.curr_index st)).
Proof.
  intros Hreach.
  assert (Hi := reachable_index_valid st Hreach).
  unfold season_index_valid in Hi.
  assert (Hnext : (main.curr_index st + 1) mod len fire_season_data
                  = if main.curr_index st =? len fire_season_data - 1 then 0
                    else main.curr_index st + 1).
  { destruct (Z.eqb_spec (main.curr_index st) (len fire_season_data - 1))
      as [->|Hne].
    - replace (len fire_season_data - 1 + 1) with (len fire_season_data) by lia.
      apply Z.mod_same. lia.
    - apply Z.mod_small. lia. }
  assert (Hprev : forall i, 0 <= i < len fire_season_data ->
            (i - 1) mod len fire_season_data
            = if i =? 0 then len fire_season_data - 1 else i - 1).
  { intros i Hr. destruct (Z.eqb_spec i 0) as [->|Hne].
    - symmetry. apply (Z.mod_unique _ _ (-1)); lia.
    - apply Z.mod_small. lia. }
  split; [exact Hi|]. split.
  - intros k st' Hh. destruct (keydown_shape st st' k Hh) as (H1 & H2 & H3 & H4).
    split; [exact H1|]. split; [exact H2|]. split; [exact H3|].
    rewrite H4. destruct k; [exact Hnext|apply Hprev; exact Hi|reflexivity].
  - intros st1 st2 Hr Hl.
    destruct (keydown_shape st st1 _ Hr) as (H1 & H2 & H3 & H4).
    destruct (keydown_shape st1 st2 _ Hl) as (G1 & G2 & G3 & G4).
    destruct st2 as [r2 o2 a2 i2].
    cbn [main.running main.scroll_amount main.curr_index main.scrollables] in *.
    subst r2 a2. rewrite H1. f_equal.
    rewrite G4, H4, Hnext.
    destruct (Z.eqb_spec (main.curr_index st) (len fire_season_data - 1))
      as [E|Hne].
    + rewrite Hprev by lia. cbn [Z.eqb]. lia.
    + rewrite Hprev by lia.
      destruct (Z.eqb_spec (main.curr_index st + 1) 0); lia.
Qed.
End Navigation.

Lemma scene_follows_offset_witness :
  exists st scene,
    main.reachable sample_size sample_data [2008] st /\
    main.scroll_amount st = 15 /\
    main.season_scene sample_size sample_data [2008] (main.curr_index st)
    = Ok scene /\
    map get_coords (main.scrollables st)
    = map (fun o => (fst (get_coords o), snd (get_coords o) - 15)) scene.
Proof.
  destruct (main.initial sample_size sample_data [2008]) as [st0|e] eqn:Hinit;
    [|vm_compute in Hinit; discriminate].
  assert (Hreach0 := main.reach_initial _ _ _ st0 Hinit).
  assert (Hshape : main.running st0 = true /\ main.scroll_amount st0 = 0).
  { unfold main.initial in Hinit.
    destruct (main.season_scene _ _ _ _); cbn [bind] in Hinit; [|discriminate].
    injection Hinit as <-. split; reflexivity. }
  destruct Hshape as [Hrun Hzero].
  set (st1 := main.mk (main.running st0)
                (graphics_functions.scroll_objects (main.scrollables st0) (-15))
                15 (main.curr_index st0)).
  assert (Hframe : main.frame sample_size sample_data [2008] st0 false
                     [main.MOUSEBUTTONDOWN 5] = Ok st1).
  { unfold main.frame. cbn [main.handle_all main.handle].
    rewrite Hzero. reflexivity. }
  assert (Hreach1 := main.reach_frame _ _ _ st0 false _ st1 Hreach0 Hrun Hframe).
  destruct (scene_follows_offset sample_size sample_data [2008] st1 Hreach1)
    as (scene & Hscene & _ & Hcoords).
  exists st1, scene. split; [exact Hreach1|]. split; [reflexivity|].
  split; [exact Hscene|exact Hcoords].
Defined.

Lemma navigation_wraps_witness :
  exists st,
    main.reachable sample_size sample_data [2008] st /\
    0 <= main.curr_index st < len sample_data.
Proof.
  destruct (main.initial sample_size sample_data [2008]) as [st0|e] eqn:Hinit;
    [|vm_compute in Hinit; discriminate].
  assert (Hreach0 := main.reach_initial _ _ _ st0 Hinit).
  exists st0. split; [exact Hreach0|].
  exact (proj1 (navigation_wraps sample_size sample_data [2008] st0 Hreach0)).
Defined.

(** ** FireCircle: construction at the edges *)

Lemma init_county (x y : Z) (fires : list CaliFire.t) (self : FireCircle.t) :
  FireCircle.init x y fires = Ok self ->
  exists fire0,
    hd_error fires = Some fire0 /\
    FireCircle._county self = CaliFire.county fire0 /\
    FireCircle._acreage self
    = (if CaliFire.year fire0 >? 2020 then 0 else accumulated fires).
Proof.
  intros Hi. destruct fires as [|fire0 rest]; [discriminate|].
  unfold FireCircle.init in Hi. cbn [index nth_error bind] in Hi.
  exists fire0. split; [reflexivity|].
  destruct (CaliFire.year fire0 >? 2020).
  - injection Hi as <-. split; reflexivity.
  - rewrite fold_add_acreage, apply_bounds_style in Hi.
    injection Hi as <-.
    cbn [FireCircle.base FireCircle._county FireCircle._acreage
         FireCircle._fires FireCircle._radius FireCircle._colour].
    destruct (style_of _) as [[c r]|]; split; reflexivity.
Qed.

(** X5. [FireCircle(x, y, fires)] fails on the empty record list only, and
    then with the IndexError of [fires[0]]; the lookups [bounds[bound]]
    never fail. A circle it returns stands at [(x, y)], holds the list it
    was given, carries the county of the first record, and has accumulated
    the acreages of all records unless the first record is a forecast one
    (year after 2020), where the acreage stays 0. *)
Theorem FireCircle_init_fails_on_empty_only (x y : Z)
    (fires : list CaliFire.t) :
  (forall e,
      FireCircle.init x y fires = Err e <-> fires = [] /\ e = IndexError)
  /\ (forall self,
        FireCircle.init x y fires = Ok self ->
        exists fire0,
          hd_error fires = Some fire0 /\
          FireCircle.get_coords self = (x, y) /\
          FireCircle.get_fires self = fires /\
          FireCircle._county self = CaliFire.county fire0 /\
          FireCircle._acreage self
          = (if CaliFire.year fire0 >? 2020 then 0 else accumulated fires)).
Proof.
  split.
  - intros e. split.
    + intros Hi. destruct fires as [|fire0 rest].
      * cbv in Hi. injection Hi as <-. split; reflexivity.
      * destruct (init_total x y (fire0 :: rest)) as (self & Hs);
          [discriminate|]. rewrite Hs in Hi. discriminate.
    + intros [-> ->]. reflexivity.
  - intros self Hi.
    destruct (init_county x y fires self Hi) as (fire0 & Hhd & Hc & Ha).
    destruct (init_fields x y fires self Hi) as [Hxy Hf].
    exists fire0. auto.
Qed.

(** X6. A circle of historical records (first year at most 2020) whose
    acreages add up to a negative number is built without a radius and a
    colour: no bound of the table is reached, the two attributes are never
    assigned, and [get_bounds], and with it the hit test of any scene in
    which no earlier circle is hit first, raises AttributeError. *)
Theorem FireCircle_unstyled_below_zero (x y : Z) (fire0 : CaliFire.t)
    (rest : list CaliFire.t) :
  CaliFire.year fire0 <= 2020 ->
  accumulated (fire0 :: rest) < 0 ->
  exists self,
    FireCircle.init x y (fire0 :: rest) = Ok self
    /\ FireCircle._radius self = None
    /\ FireCircle._colour self = None
    /\ FireCircle.get_bounds self = Err AttributeError
    /\ (forall px py before after,
          graphics_functions.get_mouse_on_fire_circle px py before = Ok None ->
          graphics_functions.get_mouse_on_fire_circle px py
            (before ++ ACircle self :: after)
          = Err AttributeError).
Proof.
  intros Hy Hneg.
  destruct (init_historical x y fire0 rest Hy) as (self & Hi & _ & _ & Hs).
  assert (Hst : style_of (accumulated (fire0 :: rest)) = None).
  { unfold style_of. destruct (Z.ltb_spec (accumulated (fire0 :: rest)) 0);
      [reflexivity|lia]. }
  rewrite Hst in Hs. destruct Hs as [Hc Hr].
  assert (Hb : FireCircle.get_bounds self = Err AttributeError).
  { unfold FireCircle.get_bounds, FireCircle.radius. rewrite Hr. reflexivity. }
  exists self. repeat (split; [assumption|]).
  intros px py before after. induction before as [|o before IH]; intros Hnone.
  - cbn [app graphics_functions.get_mouse_on_fire_circle]. rewrite Hb.
    reflexivity.
  - cbn [app graphics_functions.get_mouse_on_fire_circle] in *.
    destruct o as [i|c|l]; [exact (IH Hnone)| |exact (IH Hnone)].
    destruct (FireCircle.get_bounds c) as [[[[cx cy] w] h]|e];
      cbn [bind] in *; [|discriminate].
    destruct (_ && _); [discriminate|exact (IH Hnone)].
Qed.

Lemma FireCircle_unstyled_below_zero_witness :
  let fire0 := CaliFire.mk 2008 "Butte" (-5) "Lightning" 0 in
  CaliFire.year fire0 <= 2020 /\
  accumulated [fire0] < 0 /\
  exists self,
    FireCircle.init 302 367 [fire0] = Ok self /\
    FireCircle.get_bounds self = Err AttributeError.
Proof.
  intros fire0.
  assert (Hy : CaliFire.year fire0 <= 2020) by (cbn; lia).
  assert (Hneg : accumulated [fire0] < 0) by (cbv; reflexivity).
  split; [exact Hy|]. split; [exact Hneg|].
  destruct (FireCircle_unstyled_below_zero 302 367 fire0 [] Hy Hneg)
    as (self & Hi & _ & _ & Hb & _).
  exists self. split; [exact Hi|exact Hb].
Defined.

Lemma style_of_monotone (a b : Z) :
  0 <= a <= b ->
  exists ca ra cb rb,
    style_of a = Some (ca, ra) /\ style_of b = Some (cb, rb) /\
    10 <= ra <= rb /\ rb <= 25.
Proof.
  intros Hab. unfold style_of. split_order;
    do 4 eexists; (split; [reflexivity|]); (split; [reflexivity|]); lia.
Qed.

(** X7. The radius of a historical circle grows with the acreage: of two
    circles built from records of years up to 2020 with non-negative
    accumulated acreages, the one with the larger acreage has a radius at
    least as large, and both radii lie between 10 and 25. *)
Theorem FireCircle_radius_monotone (x1 y1 x2 y2 : Z)
    (fires1 fires2 : list CaliFire.t) (fire1 fire2 : CaliFire.t) :
  hd_error fires1 = Some fire1 -> CaliFire.year fire1 <= 2020 ->
  hd_error fires2 = Some fire2 -> CaliFire.year fire2 <= 2020 ->
  0 <= accumulated fires1 <= accumulated fires2 ->
  exists self1 self2 r1 r2,
    FireCircle.init x1 y1 fires1 = Ok self1 /\
    FireCircle.init x2 y2 fires2 = Ok self2 /\
    FireCircle._radius self1 = Some r1 /\
    FireCircle._radius self2 = Some r2 /\
    10 <= r1 <= r2 /\ r2 <= 25.
Proof.
  intros Hh1 Hy1 Hh2 Hy2 Hacc.
  destruct fires1 as [|f1 rest1]; [discriminate|]. injection Hh1 as ->.
  destruct fires2 as [|f2 rest2]; [discriminate|]. injection Hh2 as ->.
  destruct (init_historical x1 y1 fire1 rest1 Hy1) as (s1 & Hi1 & _ & _ & Hs1).
  destruct (init_historical x2 y2 fire2 rest2 Hy2) as (s2 & Hi2 & _ & _ & Hs2).
  destruct (style_of_monotone _ _ Hacc)
    as (ca & ra & cb & rb & Ha & Hb & Hle).
  rewrite Ha in Hs1. rewrite Hb in Hs2.
  exists s1, s2, ra, rb. intuition.
Qed.

Lemma FireCircle_radius_monotone_witness :
  let small := CaliFire.mk 2008 "Shasta" 27936 "Lightning" 12 in
  let large := CaliFire.mk 2008 "Butte" 47647 "Lightning" 117 in
  exists self1 self2 r1 r2,
    FireCircle.init 0 0 [small] = Ok self1 /\
    FireCircle.init 5 5 [large; small] = Ok self2 /\
    FireCircle._radius self1 = Some r1 /\
    FireCircle._radius self2 = Some r2 /\
    10 <= r1 <= r2 /\ r2 <= 25.
Proof.
  intros small large.
  apply (FireCircle_radius_monotone 0 0 5 5 [small] [large; small] small large).
  - reflexivity.
  - cbn. lia.
  - reflexivity.
  - cbn. lia.
  - vm_compute. split; discriminate.
Defined.

(** ** The circles of a season partition its top five *)

Lemma distinct_NoDup (names : list string) : NoDup (distinct names).
Proof.
  induction names as [|name rest IH]; [constructor|].
  cbn [distinct]. constructor.
  - intros Hin. apply filter_In in Hin as [_ Hne].
    rewrite String.eqb_refl in Hne. discriminate.
  - apply NoDup_filter. exact IH.
Qed.

Lemma distinct_length (names : list string) :
  (List.length (distinct names) <= List.length names)%nat.
Proof.
  induction names as [|name rest IH]; [apply le_n|].
  cbn [distinct List.length]. apply le_n_S.
  eapply Nat.le_trans; [apply filter_length_le|exact IH].
Qed.

Lemma county_records_split (top_five : list CaliFire.t) (county : string) :
  Permutation
    (county_records top_five county
     ++ filter (fun fire => negb (String.eqb (CaliFire.county fire) county))
          top_five)
    top_five.
Proof.
  unfold county_records.
  induction top_five as [|fire rest IH]; [constructor|].
  cbn [filter]. destruct (String.eqb (CaliFire.county fire) county); cbn [negb].
  - cbn [app]. constructor. exact IH.
  - apply Permutation_sym, Permutation_cons_app, Permutation_sym. exact IH.
Qed.

Lemma county_records_partition (counties : list string) :
  forall top_five : list CaliFire.t,
  NoDup counties ->
  (forall fire, In fire top_five -> In (CaliFire.county fire) counties) ->
  Permutation (flat_map (county_records top_five) counties) top_five.
Proof.
  induction counties as [|county counties IH]; intros top_five Hnd Hall.
  - destruct top_five as [|fire rest]; [constructor|].
    destruct (Hall fire (or_introl eq_refl)).
  - cbn [flat_map]. inversion Hnd as [|? ? Hnin Hnd']; subst.
    set (others :=
           filter (fun fire => negb (String.eqb (CaliFire.county fire) county))
             top_five).
    assert (Hsame : flat_map (county_records top_five) counties
                    = flat_map (county_records others) counties).
    { rewrite !flat_map_concat_map. f_equal. apply map_ext_in.
      intros name Hname. unfold county_records, others.
      clear - Hname Hnin. induction top_five as [|fire rest IHr];
        [reflexivity|].
      cbn [filter].
      destruct (String.eqb_spec (CaliFire.county fire) county) as [Ec|Ec];
        cbn [negb filter].
      - destruct (String.eqb_spec (CaliFire.county fire) name) as [En|En].
        + exfalso. apply Hnin. congruence.
        + exact IHr.
      - destruct (String.eqb (CaliFire.county fire) name);
          [f_equal|]; exact IHr. }
    rewrite Hsame.
    eapply Permutation_trans; [|apply (county_records_split top_five county)].
    apply Permutation_app_head. fold others. apply IH; [exact Hnd'|].
    intros fire Hin. unfold others in Hin. apply filter_In in Hin as [Hin Hne].
    destruct (Hall fire Hin) as [Heq|Hc]; [|exact Hc].
    rewrite Heq, String.eqb_refl in Hne. discriminate.
Qed.

Lemma placed_county (top_five : list CaliFire.t) (img_map : Image.t)
    (county : string) (circle : FireCircle.t) :
  placed top_five img_map county circle ->
  FireCircle._county circle = county
  /\ FireCircle.get_fires circle = county_records top_five county
  /\ FireCircle.get_fires circle <> [].
Proof.
  intros (x1 & y1 & _ & Hinit & _ & Hfires).
  destruct (init_county _ _ _ _ Hinit) as (fire0 & Hhd & Hc & _).
  split; [|split; [exact Hfires|]].
  - rewrite Hc.
    assert (Hin : In fire0 (county_records top_five county)).
    { destruct (county_records top_five county); [discriminate|].
      injection Hhd as ->. left. reflexivity. }
    apply filter_In in Hin as [_ Heq]. apply String.eqb_eq. exact Heq.
  - rewrite Hfires. destruct (county_records top_five county); discriminate.
Qed.

Lemma placed_shape (top_five : list CaliFire.t) (img_map : Image.t)
    (counties : list string) (circles : list FireCircle.t) :
  Forall2 (placed top_five img_map) counties circles ->
  map FireCircle._county circles = counties
  /\ map FireCircle.get_fires circles = map (county_records top_five) counties
  /\ Forall (fun circle =>
               FireCircle.get_fires circle <> [] /\
               FireCircle.get_fires circle
               = county_records top_five (FireCircle._county circle))
       circles.
Proof.
  induction 1 as [|county circle counties circles Hpl _ IH].
  - repeat split; constructor.
  - destruct (placed_county _ _ _ _ Hpl) as (Hcty & Hf & Hne).
    destruct IH as (IH1 & IH2 & IH3).
    cbn [map]. rewrite IH1, IH2, Hcty, Hf. repeat split.
    constructor; [|exact IH3].
    cbv beta. rewrite Hcty. split; [exact Hne|exact Hf].
Qed.

(** X8. The circles [get_counties_on_map] returns partition the season's
    top five by county: no two circles carry the same county, every circle
    holds at least one record and only records of its own county, the
    records of all circles together are the top five (each record in
    exactly one circle), and there are at most as many circles as
    records. *)
Theorem get_counties_on_map_partitions (season : CaliFireSeason.t)
    (img_map : Image.t) (circles : list FireCircle.t) :
  graphics_functions.get_counties_on_map season img_map = Ok circles ->
  NoDup (map FireCircle._county circles)
  /\ Forall (fun circle =>
               FireCircle.get_fires circle <> [] /\
               FireCircle.get_fires circle
               = county_records (CaliFireSeason.top_five season)
                   (FireCircle._county circle))
       circles
  /\ Permutation (List.concat (map FireCircle.get_fires circles))
       (CaliFireSeason.top_five season)
  /\ (List.length circles
      <= List.length (CaliFireSeason.top_five season))%nat.
Proof.
  intros Hc. apply get_counties_on_map_placed in Hc.
  set (top_five := CaliFireSeason.top_five season) in *.
  destruct (placed_shape top_five img_map _ _ Hc) as (Hcounties & Hfires & Hall).
  split; [rewrite Hcounties; apply distinct_NoDup|].
  split; [exact Hall|]. split.
  - rewrite Hfires, <- flat_map_concat_map.
    apply county_records_partition; [apply distinct_NoDup|].
    intros fire Hin. apply (proj2 (in_distinct _ _)), in_map. exact Hin.
  - rewrite <- (length_map FireCircle._county), Hcounties.
    unfold distinct_counties.
    rewrite <- (length_map CaliFire.county top_five).
    apply distinct_length.
Qed.

Lemma get_counties_on_map_partitions_witness :
  exists circles,
    graphics_functions.get_counties_on_map sample_season
      (Image.init 190 240 "county_map.jpg") = Ok circles /\
    map FireCircle._county circles
    = ["Butte"; "Mariposa"; "Riverside"; "Shasta"]%string /\
    Permutation (List.concat (map FireCircle.get_fires circles))
      (CaliFireSeason.top_five sample_season).
Proof.
  destruct (graphics_functions.get_counties_on_map sample_season
              (Image.init 190 240 "county_map.jpg")) as [circles|e] eqn:Hc;
    [|vm_compute in Hc; discriminate].
  exists circles. split; [reflexivity|]. split.
  - vm_compute in Hc. injection Hc as <-. reflexivity.
  - exact (proj1 (proj2 (proj2
             (get_counties_on_map_partitions sample_season
                (Image.init 190 240 "county_map.jpg") circles Hc)))).
Defined.

(** ** The forecaster: what it needs and what it stores *)

Lemma dict_get_In {V : Type} (d : dict Z V) (k : Z) (v : V) :
  dict_get d k = Some v -> In (k, v) d.
Proof.
  induction d as [|[k' v'] d IH]; cbn [dict_get]; [discriminate|].
  cbn [keqb KeyEq_Z]. destruct (Z.eqb_spec k k') as [->|Hne].
  - intros [= ->]. left. reflexivity.
  - intros Hg. right. exact (IH Hg).
Qed.

Lemma dict_get_app_new {V : Type} (before d : dict Z V) (k : Z) :
  ~ In k (dict_keys before) -> dict_get (before ++ d) k = dict_get d k.
Proof.
  induction before as [|[k' v'] before IH]; intros Hnew; [reflexivity|].
  cbn [app dict_get keqb KeyEq_Z].
  destruct (Z.eqb_spec k k') as [->|Hne].
  - exfalso. apply Hnew. left. reflexivity.
  - apply IH. intros Hin. apply Hnew. right. exact Hin.
Qed.

Lemma mapM_length {A B : Type} (f : A -> result B) (xs : list A)
    (ys : list B) :
  mapM f xs = Ok ys -> List.length ys = List.length xs.
Proof.
  revert ys. induction xs as [|x xs IH]; intros ys Hm.
  - injection Hm as <-. reflexivity.
  - cbn [mapM] in Hm. bind_inv Hm. injection Hm as <-.
    cbn [List.length]. f_equal. apply IH. reflexivity.
Qed.

Lemma mapM_elements {A B : Type} (f : A -> result B) (xs : list A)
    (ys : list B) (y : B) :
  mapM f xs = Ok ys -> In y ys -> exists x, In x xs /\ f x = Ok y.
Proof.
  revert ys. induction xs as [|x xs IH]; intros ys Hm Hy.
  - injection Hm as <-. destruct Hy.
  - cbn [mapM] in Hm. bind_inv Hm. injection Hm as <-.
    destruct Hy as [<-|Hy].
    + exists x. split; [left; reflexivity|assumption].
    + destruct (IH _ eq_refl Hy) as (x' & Hx' & Hf).
      exists x'. split; [right; exact Hx'|exact Hf].
Qed.

(** The elements of a column are read off seasons of the dictionary. *)
Lemma column_elements {A : Type} (seasons : dict Z CaliFireSeason.t)
    (g : CaliFireSeason.t -> A) (vs : list A) :
  column seasons g = Ok vs ->
  List.length vs = List.length seasons /\
  forall v, In v vs -> exists k season, In (k, season) seasons /\ v = g season.
Proof.
  unfold column. intros Hc. split.
  - rewrite (mapM_length _ _ _ Hc). unfold dict_keys. apply length_map.
  - intros v Hv. destruct (mapM_elements _ _ _ _ Hc Hv) as (k & _ & Hk).
    unfold getitem in Hk. destruct (dict_get seasons k) as [s|] eqn:Hg;
      cbn [bind] in Hk; [|discriminate].
    injection Hk as <-. exists k, s. split; [apply dict_get_In, Hg|reflexivity].
Qed.

(** With keys that are pairwise distinct, as those of a [dict] are, a
    column holds one value per season, in the order of the dictionary. *)
Lemma column_values {A : Type} (seasons : dict Z CaliFireSeason.t)
    (g : CaliFireSeason.t -> A) :
  NoDup (dict_keys seasons) ->
  column seasons g = Ok (map (fun entry => g (snd entry)) seasons).
Proof.
  unfold column.
  assert (Hgen : forall before d : dict Z CaliFireSeason.t,
             NoDup (dict_keys (before ++ d)) ->
             mapM (fun year => s <- getitem (before ++ d) year ;; Ok (g s))
               (dict_keys d)
             = Ok (map (fun entry => g (snd entry)) d)).
  { intros before d. revert before.
    induction d as [|[k s] d IH]; intros before Hnd; [reflexivity|].
    cbn [dict_keys map fst snd mapM].
    assert (Hnew : ~ In k (dict_keys before)).
    { unfold dict_keys in Hnd. rewrite map_app in Hnd. cbn [map fst] in Hnd.
      apply NoDup_remove_2 in Hnd. intros Hin. apply Hnd.
      apply in_or_app. left. exact Hin. }
    unfold getitem at 1. rewrite (dict_get_app_new before _ k Hnew).
    cbn [dict_get keqb KeyEq_Z]. rewrite Z.eqb_refl. cbn [bind].
    specialize (IH (before ++ [(k, s)])).
    rewrite <- app_assoc in IH. cbn [app] in IH.
    fold (dict_keys d). rewrite (IH Hnd). reflexivity. }
  intros Hnd. exact (Hgen [] seasons Hnd).
Qed.

Lemma extrapolate_num_fires_constant (xs ys : list Z) (c n : Z) :
  xs <> [] -> (forall x, In x xs -> x = c) ->
  (exists e, extrapolate_num_fires xs ys n = Err e)
  /\ (regression_input xs ys c ->
      extrapolate_num_fires xs ys n = Err ZeroDivisionError).
Proof.
  intros Hne Hall.
  destruct (regression_degenerate xs c (int_truediv (sumZ ys) (len ys))
              (List.length ys)
              (fun avr_x avr_y i =>
                 year_i <- index xs i ;;
                 dx <- int_sub year_i avr_x ;;
                 fires_i <- index ys i ;;
                 dy <- int_sub fires_i avr_y ;;
                 Ok (mul dx dy))
              (fun avr_x avr_y b =>
                 let a := sub avr_y (mul b avr_x) in
                 mapM (fun i => f a b (2020 + i)) (range 1 (n + 1)))
              Hne Hall) as [Hfail Hzero].
  split; [exact Hfail|].
  intros Hin. destruct (regression_input_range xs ys c Hne Hin)
    as (Hlen & Hc & Hys & Hmean).
  apply Hzero; [exact Hc|].
  intros avr_x Hx. unfold mean_in_float_range in Hmean.
  destruct (int_truediv (sumZ ys) (len ys)) as [avr_y|]; [|discriminate].
  exists avr_y. split; [reflexivity|]. intros i Hi.
  rewrite Hlen in Hi.
  exact (product_term_total xs ys c avr_x avr_y i Hall Hlen Hys Hx Hi).
Qed.

Lemma collect_total (seasons : dict Z CaliFireSeason.t) :
  exists sample, collect seasons (dict_keys seasons) ([], []) = Ok sample.
Proof.
  destruct (collect_sound seasons (dict_keys seasons) [] []
              (sound_sample_empty seasons) (fun _ H => H))
    as (cc & Hc & _).
  eexists. exact Hc.
Qed.

(** X9. The forecaster needs seasons of two different years: on a
    dictionary that is empty, holds a single season, or holds seasons that
    all carry the same year, [predict_fire_season_data] raises and leaves
    the dictionary as it was. With pairwise distinct keys and fire counts
    below [2 ^ 1023] in magnitude the exception is ZeroDivisionError. *)
Theorem forecast_needs_two_years (seasons : dict Z CaliFireSeason.t)
    (n : Z) (g : random.Rng) (c : Z) :
  (forall k season, In (k, season) seasons -> CaliFireSeason.year season = c) ->
  exists e,
    predict_fire_season_data seasons n g = (seasons, Err e)
    /\ (NoDup (dict_keys seasons) ->
        Z.abs c < 2 ^ 1023 ->
        (forall k season, In (k, season) seasons ->
           Z.abs (CaliFireSeason.fires season) < 2 ^ 1023) ->
        Z.abs (sumZ (map (fun entry => CaliFireSeason.fires (snd entry))
                       seasons)) < 2 ^ 1023 ->
        e = ZeroDivisionError).
Proof.
  intros Hyears.
  assert (Hfail : forall all_years all_num_fires,
             column seasons CaliFireSeason.year = Ok all_years ->
             (exists e, extrapolate_num_fires all_years all_num_fires n = Err e)
             /\ (regression_input all_years all_num_fires c ->
                 extrapolate_num_fires all_years all_num_fires n
                 = Err ZeroDivisionError)).
  { intros all_years all_num_fires Hcol.
    destruct (column_elements _ _ _ Hcol) as [Hlen Hel].
    destruct all_years as [|y ys].
    - split; [exists ZeroDivisionError|intros _]; reflexivity.
    - apply extrapolate_num_fires_constant; [discriminate|].
      intros x Hx. destruct (Hel x Hx) as (k & s & Hin & ->).
      exact (Hyears k s Hin). }
  assert (Hprep : exists e, prepare seasons n = Err e).
  { unfold prepare.
    destruct (column seasons CaliFireSeason.year) as [all_years|e] eqn:Hy;
      cbn [bind]; [|eauto].
    destruct (column seasons CaliFireSeason.fires) as [all_num_fires|e];
      cbn [bind]; [|eauto].
    destruct (column seasons CaliFireSeason.acreage) as [all_acreage|e];
      cbn [bind]; [|eauto].
    destruct (collect_total seasons) as ([ac cc] & ->). cbn [bind].
    destruct (proj1 (Hfail all_years all_num_fires eq_refl)) as [e ->].
    cbn [bind]. eauto. }
  destruct Hprep as [e Hprep]. exists e. split.
  - unfold predict_fire_season_data. rewrite Hprep. reflexivity.
  - intros Hnd Hc Hfires Hsum.
    unfold prepare in Hprep.
    rewrite !column_values in Hprep by exact Hnd. cbn [bind] in Hprep.
    destruct (collect_total seasons) as ([ac cc] & Hcol).
    rewrite Hcol in Hprep. cbn [bind] in Hprep.
    rewrite (proj2 (Hfail _ (map (fun entry => CaliFireSeason.fires (snd entry))
                               seasons)
                      (column_values seasons CaliFireSeason.year Hnd)))
      in Hprep.
    + cbn [bind] in Hprep. congruence.
    + split; [rewrite !length_map; reflexivity|].
      split; [exact Hc|]. split; [|exact Hsum].
      intros v Hv. apply in_map_iff in Hv as ([k s] & <- & Hin).
      exact (Hfires k s Hin).
Qed.

Lemma forecast_needs_two_years_witness :
  (forall k season,
      In (k, season) sample_data -> CaliFireSeason.year season = 2008) /\
  predict_fire_season_data sample_data 10 [3; 1; 4]%nat
  = (sample_data, Err ZeroDivisionError).
Proof.
  assert (Hyears : forall k season,
             In (k, season) sample_data -> CaliFireSeason.year season = 2008).
  { intros k season [[= <- <-]|[]]. reflexivity. }
  split; [exact Hyears|].
  destruct (forecast_needs_two_years sample_data 10 [3; 1; 4]%nat 2008 Hyears)
    as (e & Hrun & He).
  rewrite Hrun. f_equal. f_equal. apply He.
  - repeat constructor. intros [].
  - vm_compute. reflexivity.
  - intros k season [[= <- <-]|[]]. vm_compute. reflexivity.
  - vm_compute. reflexivity.
Defined.


Lemma range_In (lo hi i : Z) : In i (range lo hi) <-> lo <= i < hi.
Proof.
  unfold range. rewrite in_map_iff. split.
  - intros (k & <- & Hk). apply in_seq in Hk. lia.
  - intros Hi. exists (Z.to_nat (i - lo)). split; [lia|].
    apply in_seq. lia.
Qed.





(** ** Centring a label on any canvas *)

Lemma int_truediv_half (w : Z) :
  0 <= w < 2 ^ 53 ->
  int_truediv w 2 = Ok (if w =? 0 then zero else half_float false w).
Proof.
  intros Hw. destruct (Z.eqb_spec w 0) as [->|Hne].
  - vm_compute. reflexivity.
  - unfold int_truediv. cbn [Z.eqb]. rewrite round_quot_half by lia.
    reflexivity.
Qed.

Lemma centre_exact_any (screen_w text_w : Z) :
  0 <= screen_w < 2 ^ 53 -> 0 <= text_w < 2 ^ 53 ->
  exists half_screen half_text,
    int_truediv screen_w 2 = Ok half_screen /\
    int_truediv text_w 2 = Ok half_text /\
    to_int (sub half_screen half_text) = Ok (centred_x screen_w text_w).
Proof.
  intros Hs Ht. rewrite (int_truediv_half screen_w Hs).
  rewrite (int_truediv_half text_w Ht).
  do 2 eexists. split; [reflexivity|]. split; [reflexivity|].
  unfold centred_x.
  destruct (Z.eqb_spec screen_w 0) as [->|Hs0];
    destruct (Z.eqb_spec text_w 0) as [->|Ht0].
  - reflexivity.
  - change (sub zero (half_float false text_w)) with (half_float true text_w).
    rewrite to_int_half by lia. cbn [cond_Zopp]. f_equal.
    replace (0 - text_w) with (- text_w) by lia.
    rewrite Z.quot_opp_l, Z.quot_div_nonneg by lia. reflexivity.
  - change (sub (half_float false screen_w) zero)
      with (half_float false screen_w).
    rewrite to_int_half by lia. cbn [cond_Zopp]. f_equal.
    rewrite Z.sub_0_r, Z.quot_div_nonneg by lia. reflexivity.
  - destruct (Z.eq_dec screen_w text_w) as [->|Hne].
    + rewrite sub_diag; [|unfold half_float; discriminate|reflexivity].
      rewrite Z.sub_diag. reflexivity.
    + rewrite sub_halves by lia.
      rewrite to_int_half by lia. f_equal.
      destruct (Z.ltb_spec screen_w text_w) as [Hlt|Hge]; cbn [cond_Zopp].
      * rewrite Z.abs_neq by lia.
        replace (screen_w - text_w) with (- (text_w - screen_w)) by lia.
        rewrite Z.quot_opp_l, Z.quot_div_nonneg by lia.
        f_equal. f_equal. lia.
      * rewrite Z.abs_eq, Z.quot_div_nonneg by lia. reflexivity.
Qed.

(** X11. [centerize_width] on any canvas: for a canvas width and a text
    width that are non-negative and below [2 ^ 53], the call returns, the
    new x is half the difference of the two widths rounded toward zero (the
    float arithmetic of [int(screen_w / 2 - text_w / 2)] is exact there),
    so the two margins differ by at most one pixel; y, text, font and
    colour are kept; the former x plays no part; and centring twice is
    centring once. *)
Theorem centerize_width_any_canvas
    (size : colour_fonts.Font -> string -> Z * Z) (self : TextLabel.t)
    (screen_w : Z) :
  0 <= screen_w < 2 ^ 53 ->
  0 <= fst (size (TextLabel._font self) (TextLabel.text self)) < 2 ^ 53 ->
  let text_w := fst (size (TextLabel._font self) (TextLabel.text self)) in
  let x := Z.quot (screen_w - text_w) 2 in
  let centred :=
    TextLabel.mk (ScrollableObject.mk x (ScrollableObject._y (TextLabel.base self)))
      (TextLabel.text self) (TextLabel._font self) (TextLabel._colour self) in
  TextLabel.centerize_width size self screen_w = Ok centred
  /\ Z.abs ((screen_w - (x + text_w)) - x) <= 1
  /\ TextLabel.centerize_width size centred screen_w = Ok centred
  /\ (forall dx dy,
        TextLabel.centerize_width size (TextLabel.translate self dx dy) screen_w
        = Ok (TextLabel.translate centred 0 dy)).
Proof.
  intros Hs Ht text_w x centred.
  assert (Hany : forall label,
             TextLabel.text label = TextLabel.text self ->
             TextLabel._font label = TextLabel._font self ->
             TextLabel._colour label = TextLabel._colour self ->
             TextLabel.centerize_width size label screen_w
             = Ok (TextLabel.mk
                     (ScrollableObject.mk x
                        (ScrollableObject._y (TextLabel.base label)))
                     (TextLabel.text self) (TextLabel._font self)
                     (TextLabel._colour self))).
  { intros label Htext Hfont Hcol.
    destruct (centre_exact_any screen_w text_w Hs Ht)
      as (hs & ht & Hhs & Hht & Hx).
    unfold TextLabel.centerize_width. rewrite Htext, Hfont, Hcol.
    fold text_w. rewrite Hhs. cbn [bind]. rewrite Hht. cbn [bind].
    rewrite Hx. reflexivity. }
  split; [apply Hany; reflexivity|]. split; [|split].
  - unfold x. pose proof (Z.quot_rem' (screen_w - text_w) 2) as Hq.
    pose proof (Z.rem_bound_abs (screen_w - text_w) 2 ltac:(lia)) as Hr.
    change (Z.abs 2) with 2 in Hr. lia.
  - apply Hany; reflexivity.
  - intros dx dy. rewrite Hany by reflexivity.
    unfold TextLabel.translate, ScrollableObject.translate, centred. cbn.
    rewrite Z.add_0_r. reflexivity.
Qed.

Lemma centerize_width_any_canvas_witness :
  let label :=
    TextLabel.init 0 200 "Top Five Fires:" colour_fonts.CALIBRI_24_B
      colour_fonts.BLACK in
  0 <= 1024 < 2 ^ 53 /\
  0 <= fst (sample_size (TextLabel._font label) (TextLabel.text label)) < 2 ^ 53 /\
  TextLabel.centerize_width sample_size label 1024
  = Ok (TextLabel.init 414 200 "Top Five Fires:" colour_fonts.CALIBRI_24_B
          colour_fonts.BLACK).
Proof.
  intros label.
  assert (Hs : 0 <= 1024 < 2 ^ 53) by (vm_compute; split; [discriminate|reflexivity]).
  assert (Ht : 0 <= fst (sample_size (TextLabel._font label)
                           (TextLabel.text label)) < 2 ^ 53)
    by (vm_compute; split; [discriminate|reflexivity]).
  split; [exact Hs|]. split; [exact Ht|].
  exact (proj1 (centerize_width_any_canvas sample_size label 1024 Hs Ht)).
Defined.

(** ** The hit test of the frame loop *)

Lemma hit_test_returns (x y : Z) (objects : list Scrollable) :
  radii_assigned objects ->
  graphics_functions.get_mouse_on_fire_circle x y objects
  = Ok (first_hit x y objects).
Proof.
  intros Hrad. induction objects as [|o objects IH]; [reflexivity|].
  assert (Hrest : radii_assigned objects)
    by (intros c Hc; apply Hrad; right; exact Hc).
  destruct o as [i|c0|l]; simpl; auto.
  destruct (FireCircle._radius c0) as [r|] eqn:Hr.
  - destruct (get_bounds_hit x y c0 r Hr) as (cx & cy & w & h & -> & Htest).
    cbn [bind]. rewrite Htest.
    destruct (circle_hit x y c0); auto.
  - exfalso. apply (Hrad c0); [left; reflexivity|exact Hr].
Qed.

Lemma scene_shape (size : colour_fonts.Font -> string -> Z * Z)
    (season : CaliFireSeason.t) (img_map : Image.t)
    (objects : list Scrollable) :
  graphics_functions.get_scrollables_for_season size season img_map
  = Ok objects ->
  exists l1 l2 circles,
    graphics_functions.get_counties_on_map season img_map = Ok circles /\
    objects = [ALabel l1; ALabel l2; AnImage img_map] ++ map ACircle circles.
Proof.
  intros Hscene.
  unfold graphics_functions.get_scrollables_for_season in Hscene.
  destruct (CaliFireSeason.year season >? 2020); bind_inv Hscene;
    injection Hscene as <-; do 3 eexists; split; reflexivity.
Qed.

Lemma scene_circles_hold_records
    (size : colour_fonts.Font -> string -> Z * Z)
    (season : CaliFireSeason.t) (img_map : Image.t)
    (objects : list Scrollable) (c : FireCircle.t) :
  graphics_functions.get_scrollables_for_season size season img_map
  = Ok objects ->
  In (ACircle c) objects ->
  FireCircle.get_fires c <> [] /\
  forall fire, In fire (FireCircle.get_fires c) ->
    In fire (CaliFireSeason.top_five season).
Proof.
  intros Hscene Hin.
  destruct (scene_shape _ _ _ _ Hscene) as (l1 & l2 & circles & Hc & ->).
  destruct Hin as [Hin|[Hin|[Hin|Hin]]]; try discriminate.
  apply in_map_iff in Hin as (c' & [= ->] & Hin).
  apply get_counties_on_map_placed in Hc.
  destruct (placed_shape _ _ _ _ Hc) as (_ & _ & Hall).
  rewrite Forall_forall in Hall. destruct (Hall c Hin) as [Hne Hrec].
  split; [exact Hne|]. intros fire Hf. rewrite Hrec in Hf.
  apply filter_In in Hf as [Hf _]. exact Hf.
Qed.

Section FrameHitTest.
Variable size : colour_fonts.Font -> string -> Z * Z.
Variable fire_season_data : dict Z CaliFireSeason.t.
Variable years : list Z.

(** X12. The hit test of the frame loop never raises on data that keeps
    the invariant of [CaliFire] (positive acreages): in every state the
    loop reaches and for every mouse position,
    [get_mouse_on_fire_circle] returns, and a circle it returns is one of
    the displayed objects and holds at least one record, all of them
    records of a season of the data, so that [fires[0]] in
    [display_county_fire_info] is defined. *)
Theorem frame_hit_test_never_raises (st : main.state) (mouse_x mouse_y : Z) :
  (forall k season fire,
      In (k, season) fire_season_data ->
      In fire (CaliFireSeason.top_five season) ->
      0 < CaliFire.acreage fire) ->
  main.reachable size fire_season_data years st ->
  exists hit,
    graphics_functions.get_mouse_on_fire_circle mouse_x mouse_y
      (main.scrollables st) = Ok hit
    /\ forall c, hit = Some c ->
         In (ACircle c) (main.scrollables st)
         /\ FireCircle.get_fires c <> []
         /\ forall fire, In fire (FireCircle.get_fires c) ->
              exists k season,
                In (k, season) fire_season_data /\
                In fire (CaliFireSeason.top_five season).
Proof.
  intros Hpos Hreach.
  destruct (reachable_scene_in_step size fire_season_data years st Hreach)
    as (scene & Hscene & Hobjs).
  unfold main.season_scene in Hscene.
  destruct (index years (Z.to_nat (main.curr_index st))) as [year|];
    cbn [bind] in Hscene; [|discriminate].
  unfold getitem in Hscene.
  destruct (dict_get fire_season_data year) as [season|] eqn:Hget;
    cbn [bind] in Hscene; [|discriminate].
  apply dict_get_In in Hget.
  assert (Hrad : radii_assigned (main.scrollables st)).
  { rewrite Hobjs. apply scroll_radii_assigned.
    apply (scene_radii_assigned size season
             (Image.init 190 240 "county_map.jpg") scene); [|exact Hscene].
    apply Forall_forall. intros fire Hf. exact (Hpos year season fire Hget Hf). }
  exists (first_hit mouse_x mouse_y (main.scrollables st)).
  split; [apply hit_test_returns, Hrad|].
  intros c Hc.
  destruct (first_hit_some _ _ _ _ Hc) as (before & after & Heq & _ & _).
  assert (Hin : In (ACircle c) (main.scrollables st))
    by (rewrite Heq; apply in_or_app; right; left; reflexivity).
  split; [exact Hin|].
  rewrite Hobjs in Hin. unfold graphics_functions.scroll_objects in Hin.
  apply in_map_iff in Hin as (o & Ho & Hin).
  destruct o as [i|c0|l]; try discriminate. injection Ho as <-.
  destruct (scene_circles_hold_records size season
              (Image.init 190 240 "county_map.jpg") scene c0 Hscene Hin)
    as [Hne Hrec].
  split; [exact Hne|].
  intros fire Hf. exists year, season. split; [exact Hget|exact (Hrec fire Hf)].
Qed.
End FrameHitTest.

Lemma frame_hit_test_never_raises_witness :
  (forall k season fire,
      In (k, season) sample_data ->
      In fire (CaliFireSeason.top_five season) ->
      0 < CaliFire.acreage fire) /\
  exists st hit,
    main.reachable sample_size sample_data [2008] st /\
    graphics_functions.get_mouse_on_fire_circle 310 370 (main.scrollables st)
    = Ok hit.
Proof.
  assert (Hpos : forall k season fire,
             In (k, season) sample_data ->
             In fire (CaliFireSeason.top_five season) ->
             0 < CaliFire.acreage fire).
  { intros k season fire [[= <- <-]|[]] Hf. cbn in Hf.
    repeat (destruct Hf as [<-|Hf]; [reflexivity|]). destruct Hf. }
  split; [exact Hpos|].
  destruct (main.initial sample_size sample_data [2008]) as [st0|e] eqn:Hinit;
    [|vm_compute in Hinit; discriminate].
  assert (Hreach0 := main.reach_initial _ _ _ st0 Hinit).
  destruct (frame_hit_test_never_raises sample_size sample_data [2008] st0
              310 370 Hpos Hreach0) as (hit & Hhit & _).
  exists st0, hit. split; [exact Hreach0|exact Hhit].
Defined.

(** ** Drawing: the information panel of a county *)

Lemma and_then_ok {A B : Type} (m : drawing A) (k : A -> drawing B) (a : A) :
  snd m = Ok a ->
  and_then m k = (fst m ++ fst (k a), snd (k a)).
Proof.
  destruct m as [calls [a'|e]]; cbn [fst snd and_then]; intros [= ->].
  destruct (k a). reflexivity.
Qed.

Lemma draw_rect_outline_lines (pixels : pygame.num -> Z) (rect : pygame.Rect)
    (c : colour_fonts.colour) (thickness : Z) :
  let x := pixels (pygame.left rect) in
  let y := pixels (pygame.top rect) in
  let w := pixels (pygame.width rect) in
  let h := pixels (pygame.height rect) in
  graphics_functions.draw_rect_outline pixels rect c thickness
  = ([pygame.draw_line c (x, y) (x + w, y) thickness;
      pygame.draw_line c (x, y + h) (x + w, y + h) thickness;
      pygame.draw_line c (x, y) (x, y + h) thickness;
      pygame.draw_line c (x + w, y) (x + w, y + h) thickness],
     Ok tt).
Proof. reflexivity. Qed.

Lemma for_each_completes {A : Type} (xs : list A) (body : A -> drawing unit) :
  (forall x, In x xs -> snd (body x) = Ok tt) ->
  for_each xs body = (flat_map (fun x => fst (body x)) xs, Ok tt).
Proof.
  induction xs as [|x xs IH]; intros Hall; [reflexivity|].
  cbn [for_each flat_map].
  rewrite (and_then_ok _ _ tt) by (apply Hall; left; reflexivity).
  rewrite IH by (intros x' Hx'; apply Hall; right; exact Hx').
  reflexivity.
Qed.

Lemma rendered_texts_app (a b : list pygame.call) :
  rendered_texts (a ++ b) = rendered_texts a ++ rendered_texts b.
Proof. unfold rendered_texts. apply flat_map_app. Qed.

Lemma enumerate_In {A : Type} (xs : list A) (i : Z) (x : A) :
  In (i, x) (enumerate xs) -> 0 <= i < len xs /\ In x xs.
Proof.
  unfold enumerate. intros Hin. split.
  - apply in_combine_l, in_map_iff in Hin as (k & <- & Hk).
    apply in_seq in Hk. unfold len. lia.
  - apply in_combine_r in Hin. exact Hin.
Qed.

Lemma enumerate_values {A : Type} (xs : list A) :
  map snd (enumerate xs) = xs.
Proof.
  unfold enumerate. generalize 0%nat.
  induction xs as [|x xs IH]; intros start; [reflexivity|].
  cbn [List.length seq map combine snd]. f_equal. apply IH.
Qed.

Lemma of_int_small (z : Z) :
  Z.abs z < 2 ^ 1023 -> exists x, of_int z = Ok x.
Proof.
  intros Hz. pose proof (in_float_range_bound z Hz) as Hr.
  unfold in_float_range in Hr. destruct (of_int z) as [x|]; [|discriminate].
  exists x. reflexivity.
Qed.

Section Panel.
Variable pixels : pygame.num -> Z.

Lemma display_fire_lines (year x y height_per_fire : Z) (edge_offset : float)
    (font : colour_fonts.Font) (i : Z) (fire : CaliFire.t) :
  Z.abs x < 2 ^ 1023 ->
  Z.abs (y + i * height_per_fire) < 2 ^ 1023 ->
  let run :=
    graphics_functions.display_fire year x y 200 height_per_fire 20
      edge_offset font (i, fire) in
  snd run = Ok tt /\
  rendered_texts (fst run) = panel_lines (year >? 2020) fire.
Proof.
  intros Hx Hh.
  destruct (of_int_small x Hx) as [fx Hfx].
  destruct (of_int_small _ Hh) as [fh Hfh].
  assert (H20 : exists f20, of_int 20 = Ok f20) by (eexists; vm_compute; reflexivity).
  assert (H40 : exists f40, of_int (2 * 20) = Ok f40)
    by (eexists; vm_compute; reflexivity).
  assert (H60 : exists f60, of_int (3 * 20) = Ok f60)
    by (eexists; vm_compute; reflexivity).
  destruct H20 as [f20 H20]. destruct H40 as [f40 H40].
  destruct H60 as [f60 H60].
  unfold graphics_functions.display_fire, int_add, add_int, panel_lines.
  cbv zeta. rewrite Hfx, Hfh, H20, H40, H60.
  destruct (year >? 2020); destruct (i >=? 1); split; reflexivity.
Qed.

(** X13. The information panel of a county: for a circle with records at
    coordinates below [2 ^ 1000] in magnitude, [display_county_fire_info]
    completes; it first fills a white rectangle at the circle's
    coordinates, 200 wide and 90 high per record (45 for a forecast
    circle), and the texts it renders are, record by record, the county,
    the acreage, the cause and the destroyed structures; for a forecast
    circle (first record after 2020) only the county and the most likely
    cause, so the placeholder acreage and structure count of synthetic
    records are never shown. On a circle without records it raises
    IndexError before drawing anything. *)
Theorem county_panel_lines (circle : FireCircle.t) :
  let fires := FireCircle.get_fires circle in
  let x := fst (FireCircle.get_coords circle) in
  let y := snd (FireCircle.get_coords circle) in
  let run := graphics_functions.display_county_fire_info pixels circle in
  (fires = [] -> run = ([], Err IndexError))
  /\ (forall fire0 rest,
        fires = fire0 :: rest ->
        Z.abs x < 2 ^ 1000 -> Z.abs y < 2 ^ 1000 -> len fires < 2 ^ 1000 ->
        let forecast := CaliFire.year fire0 >? 2020 in
        snd run = Ok tt
        /\ hd_error (fst run)
           = Some (pygame.draw_rect colour_fonts.WHITE
                     (pygame.mkRect (pygame.Int x) (pygame.Int y)
                        (pygame.Int 200)
                        (pygame.Int ((if forecast then 45 else 90)
                                     * len fires))))
        /\ rendered_texts (fst run) = flat_map (panel_lines forecast) fires).
Proof.
  intros fires x y run. split.
  - intros Hnil. unfold run, graphics_functions.display_county_fire_info.
    fold fires. rewrite Hnil. reflexivity.
  - intros fire0 rest Hfires Hx Hy Hlen forecast.
    assert (Hbig : 2 ^ 1000 + 90 * 2 ^ 1000 < 2 ^ 1023)
      by (vm_compute; reflexivity).
    set (hpf := if forecast then 45 else 90).
    assert (Hhpf : 0 <= hpf <= 90) by (unfold hpf; destruct forecast; lia).
    assert (Hbody : forall entry, In entry (enumerate fires) ->
               let step :=
                 graphics_functions.display_fire (CaliFire.year fire0) x y 200
                   hpf 20 (S754_finite false 4503599627370496 (-49))
                   colour_fonts.CALIBRI_14_B entry in
               snd step = Ok tt /\
               rendered_texts (fst step) = panel_lines forecast (snd entry)).
    { intros [i fire] Hin. apply enumerate_In in Hin as [Hi _].
      set (P := 2 ^ 1000) in *. set (Q := 2 ^ 1023) in *.
      apply display_fire_lines; fold Q; [lia|]. nia. }
    assert (Hrun :
              run
              = ([pygame.draw_rect colour_fonts.WHITE
                    (pygame.mkRect (pygame.Int x) (pygame.Int y)
                       (pygame.Int 200) (pygame.Int (hpf * len fires)))]
                 ++ flat_map
                      (fun entry =>
                         fst (graphics_functions.display_fire
                                (CaliFire.year fire0) x y 200 hpf 20
                                (S754_finite false 4503599627370496 (-49))
                                colour_fonts.CALIBRI_14_B entry))
                      (enumerate fires)
                 ++ fst (graphics_functions.draw_rect_outline pixels
                           (pygame.mkRect (pygame.Int x) (pygame.Int y)
                              (pygame.Int 200) (pygame.Int (hpf * len fires)))
                           colour_fonts.BLACK 1),
                 Ok tt)).
    { unfold run, graphics_functions.display_county_fire_info.
      unfold x, y, hpf, forecast in *. clear x y hpf forecast run.
      unfold fires in *. clear fires.
      destruct (FireCircle.get_coords circle) as [cx cy].
      cbn [fst snd] in *.
      change (int_truediv 200 25)
        with (@Ok float (S754_finite false 4503599627370496 (-49))).
      rewrite Hfires in *.
      assert (Hloop := for_each_completes _ _ (fun e He => proj1 (Hbody e He))).
      cbn [index nth_error and_then lift emit].
      rewrite Hloop, draw_rect_outline_lines. reflexivity. }
    rewrite Hrun. cbn [fst snd]. split; [reflexivity|].
    split; [reflexivity|].
    rewrite !rendered_texts_app.
    rewrite draw_rect_outline_lines.
    cbn [rendered_texts flat_map app]. rewrite app_nil_r.
    change (flat_map (fun c => match c with
                               | pygame.blit (pygame.render _ text _ _) _ => [text]
                               | _ => []
                               end))
      with rendered_texts.
    rewrite <- (enumerate_values fires) at 2.
    generalize (enumerate fires) Hbody. intros entries.
    induction entries as [|entry entries IH]; intros Hall; [reflexivity|].
    cbn [flat_map map]. rewrite rendered_texts_app.
    rewrite (proj2 (Hall entry (or_introl eq_refl))).
    rewrite IH by (intros e He; apply Hall; right; exact He). reflexivity.
Qed.
End Panel.

Lemma county_panel_lines_witness :
  let circle :=
    FireCircle.mk (ScrollableObject.mk 302 367) "Butte" 0
      [CaliFire.mk 2021 "Butte" 90000 "Lightning" 32;
       CaliFire.mk 2021 "Butte" 90000 "Arson" 32]
      (Some 25) (Some colour_fonts.LIGHT_RED) in
  let run :=
    graphics_functions.display_county_fire_info
      (fun n => match n with pygame.Int z => z | pygame.Float _ => 0 end)
      circle in
  snd run = Ok tt /\
  rendered_texts (fst run)
  = ["County: Butte"; "Most Likely Cause: Lightning";
     "County: Butte"; "Most Likely Cause: Arson"]%string.
Proof.
  intros circle run.
  destruct (proj2 (county_panel_lines
                     (fun n => match n with
                               | pygame.Int z => z
                               | pygame.Float _ => 0
                               end) circle)
              (CaliFire.mk 2021 "Butte" 90000 "Lightning" 32)
              [CaliFire.mk 2021 "Butte" 90000 "Arson" 32] eq_refl)
    as (Hok & _ & Htexts); try (vm_compute; reflexivity).
  split; [exact Hok|exact Htexts].
Defined.

(** ** Drawing: the graph of the seasons *)

Lemma for_each_inv {A : Type} (xs : list A) (body : A -> drawing unit) :
  snd (for_each xs body) = Ok tt ->
  (forall x, In x xs -> snd (body x) = Ok tt) /\
  fst (for_each xs body) = flat_map (fun x => fst (body x)) xs.
Proof.
  induction xs as [|x xs IH]; intros Hok.
  - split; [intros x []|reflexivity].
  - cbn [for_each] in *. destruct (body x) as [calls [[]|e]] eqn:Hb;
      cbn [and_then] in *; [|discriminate].
    destruct (for_each xs body) as [calls' r]. cbn [fst snd] in *.
    destruct (IH Hok) as [Hall Hcalls].
    split.
    + intros x' [<-|Hx']; [rewrite Hb; reflexivity|exact (Hall x' Hx')].
    + cbn [flat_map]. rewrite Hb, Hcalls. reflexivity.
Qed.

Ltac run_steps H :=
  cbn [and_then lift emit graphics_functions.draw_rect_outline app] in H |- *;
  repeat match type of H with
    | context [match ?r with Ok _ => _ | Err _ => _ end] =>
        destruct r eqn:?;
        cbn [and_then lift emit graphics_functions.draw_rect_outline app] in H |- *;
        try (cbn [snd] in H; discriminate H)
    | context [if ?b then _ else _] =>
        destruct b eqn:?;
        cbn [and_then lift emit graphics_functions.draw_rect_outline app] in H |- *
    end.

Section Graph.
Variable size : colour_fonts.Font -> string -> Z * Z.
Variable pixels : pygame.num -> Z.

Lemma display_section_shape (current_index : Z) (years : list Z)
    (all_num_fires all_acreage : list Z) (max_num_fires max_acreage : Z)
    (section_width bar_width : float) (x : Z) :
  let step :=
    graphics_functions.display_section size pixels current_index years
      all_num_fires all_acreage max_num_fires max_acreage 20 10 100 5
      section_width bar_width colour_fonts.CALIBRI_14_B x in
  snd step = Ok tt ->
  exists year num_fires acreage red_bar_height orange_bar_height
         section_x red_bar_x text_x text_y,
    index years (Z.to_nat x) = Ok year
    /\ index all_num_fires (Z.to_nat x) = Ok num_fires
    /\ index all_acreage (Z.to_nat x) = Ok acreage
    /\ bar_height num_fires max_num_fires = Ok red_bar_height
    /\ bar_height acreage max_acreage = Ok orange_bar_height
    /\ let red_bar :=
         pygame.mkRect (pygame.Float red_bar_x)
           (pygame.Int (100 - red_bar_height + 10)) (pygame.Float bar_width)
           (pygame.Int red_bar_height) in
       let orange_bar :=
         pygame.mkRect (pygame.Float (add red_bar_x bar_width))
           (pygame.Int (100 - orange_bar_height + 10))
           (pygame.Float bar_width) (pygame.Int orange_bar_height) in
       fst step
       = (if x =? current_index
          then [pygame.draw_rect colour_fonts.LIGHT_BLUE
                  (pygame.mkRect (pygame.Float section_x) (pygame.Int 0)
                     (pygame.Float section_width) (pygame.Int 130))]
          else [])
         ++ [pygame.draw_rect
               (if year >? 2020 then colour_fonts.LIGHT_RED
                else colour_fonts.RED) red_bar;
             pygame.draw_rect
               (if year >? 2020 then colour_fonts.LIGHT_ORANGE
                else colour_fonts.ORANGE) orange_bar;
             pygame.blit
               (pygame.render colour_fonts.CALIBRI_14_B (str year) true
                  colour_fonts.BLACK)
               (pygame.Float text_x, pygame.Float text_y)]
         ++ (if num_fires =? max_num_fires
             then fst (graphics_functions.draw_rect_outline pixels red_bar
                         colour_fonts.BLACK 3)
             else [])
         ++ (if acreage =? max_acreage
             then fst (graphics_functions.draw_rect_outline pixels orange_bar
                         colour_fonts.BLACK 3)
             else []).
Proof.
  intros step Hok. unfold step in *. clear step.
  unfold graphics_functions.display_section in *.
  change (100 - 10) with 90 in *. change (100 + 3 * 10) with 130 in *.
  run_steps Hok.
  all: try (cbn [snd] in Hok; discriminate Hok).
  all: repeat match goal with |- @ex _ _ => eapply ex_intro end.
  all: try exact zero.
  all: repeat (split; [reflexivity|]).
  all: unfold bar_height.
  all: repeat match goal with
         | |- bind ?r _ = _ /\ _ =>
             match goal with
             | E : r = Ok _ |- _ => rewrite E; cbn [bind]
             end
         | |- ?r = Ok _ /\ _ =>
             match goal with
             | E : r = Ok _ |- _ => split; [exact E|]
             end
         end.
  all: repeat (split; [reflexivity|]).
  all: repeat match goal with
         | E : ?b = _ |- context [if ?b then _ else _] => rewrite E
         end.
  all: reflexivity.
Qed.

Lemma seasons_list_total (seasons : dict Z CaliFireSeason.t) :
  exists seasons_list,
    mapM (fun s => getitem seasons s) (dict_keys seasons) = Ok seasons_list
    /\ List.length seasons_list = List.length seasons
    /\ (forall season, In season seasons_list ->
          exists k, In (k, season) seasons)
    /\ (NoDup (dict_keys seasons) -> seasons_list = map snd seasons).
Proof.
  destruct (mapM_total (fun s => getitem seasons s) (dict_keys seasons))
    as [l Hl].
  { intros k Hk. apply dict_get_in_keys in Hk as [v Hv].
    exists v. unfold getitem. rewrite Hv. reflexivity. }
  exists l. split; [exact Hl|]. split; [|split].
  - rewrite (mapM_length _ _ _ Hl). unfold dict_keys. apply length_map.
  - intros season Hin. destruct (mapM_elements _ _ _ _ Hl Hin) as (k & _ & Hk).
    unfold getitem in Hk. destruct (dict_get seasons k) as [s|] eqn:Hg;
      [|discriminate].
    injection Hk as <-. exists k. apply dict_get_In, Hg.
  - intros Hnd.
    pose proof (column_values seasons (fun s => s) Hnd) as Hc.
    unfold column in Hc.
    assert (Hsame : mapM (fun s => getitem seasons s) (dict_keys seasons)
                    = mapM (fun year => s <- getitem seasons year ;; Ok s)
                        (dict_keys seasons)).
    { clear. induction (dict_keys seasons) as [|k ks IH]; [reflexivity|].
      cbn [mapM]. rewrite IH. destruct (getitem seasons k); reflexivity. }
    rewrite Hsame, Hc in Hl. injection Hl as <-. reflexivity.
Qed.

Lemma max_of_spec (xs : list Z) (m : Z) :
  graphics_functions.max_of xs = Ok m ->
  In m xs /\ forall v, In v xs -> v <= m.
Proof.
  destruct xs as [|x xs]; [discriminate|].
  cbn [graphics_functions.max_of]. intros [= <-].
  revert x. induction xs as [|y ys IH]; intros x.
  - cbn. split; [left; reflexivity|]. intros v [<-|[]]. lia.
  - cbn [fold_left]. destruct (IH (Z.max x y)) as [Hin Hle]. split.
    + destruct Hin as [Hin|Hin]; [|right; right; exact Hin].
      rewrite <- Hin. destruct (Z.max_spec x y) as [[_ ->]|[_ ->]];
        [right; left|left]; reflexivity.
    + intros v [Hv|[Hv|Hv]].
      * specialize (Hle (Z.max x y) (or_introl eq_refl)). lia.
      * specialize (Hle (Z.max x y) (or_introl eq_refl)). lia.
      * apply Hle. right. exact Hv.
Qed.

Lemma display_season_data_run (seasons : dict Z CaliFireSeason.t)
    (current_index : Z) :
  seasons <> [] ->
  exists seasons_list max_num_fires max_acreage section_width bar_width,
    mapM (fun s => getitem seasons s) (dict_keys seasons) = Ok seasons_list
    /\ graphics_functions.max_of (map CaliFireSeason.fires seasons_list)
       = Ok max_num_fires
    /\ graphics_functions.max_of (map CaliFireSeason.acreage seasons_list)
       = Ok max_acreage
    /\ graphics_functions.display_season_data size pixels seasons
         current_index
       = and_then (graph_frame, Ok tt)
           (fun _ =>
              for_each (range 0 (len seasons))
                (graphics_functions.display_section size pixels current_index
                   (dict_keys seasons)
                   (map CaliFireSeason.fires seasons_list)
                   (map CaliFireSeason.acreage seasons_list)
                   max_num_fires max_acreage 20 10 100 5 section_width
                   bar_width colour_fonts.CALIBRI_14_B)).
Proof.
  intros Hne.
  destruct (seasons_list_total seasons) as (l & Hl & Hlen & _).
  assert (Hl0 : l <> []).
  { destruct l; [|discriminate]. destruct seasons; [congruence|discriminate]. }
  assert (Hlen0 : len seasons <> 0)
    by (unfold len; destruct seasons; [congruence|cbn [List.length]; lia]).
  destruct (graphics_functions.max_of (map CaliFireSeason.fires l))
    as [maxf|] eqn:Hmf; [|destruct l; [congruence|discriminate]].
  destruct (graphics_functions.max_of (map CaliFireSeason.acreage l))
    as [maxa|] eqn:Hma; [|destruct l; [congruence|discriminate]].
  assert (Hsw : exists sw, int_truediv 760 (len seasons) = Ok sw).
  { unfold int_truediv. destruct (Z.eqb_spec (len seasons) 0); [contradiction|].
    rewrite round_quot_finite by (try assumption; vm_compute; reflexivity).
    eexists. reflexivity. }
  destruct Hsw as [sw Hsw].
  exists l, maxf, maxa, sw.
  unfold graphics_functions.display_season_data.
  rewrite Hl. cbn [and_then lift].
  change (graphics_functions.WIDTH - 2 * 20) with 760. rewrite Hsw.
  cbn [and_then lift].
  assert (H10 : forall x, sub_int x (2 * 5) = Ok (sub x (round_int 10)))
    by reflexivity.
  assert (H2 : forall x,
             truediv_int x 2 = Ok (SFdiv prec emax x (round_int 2)))
    by reflexivity.
  assert (H5 : int_truediv 20 4 = Ok (round_int 5))
    by (vm_compute; reflexivity).
  assert (H50 : int_truediv 100 2 = Ok (round_int 50))
    by (vm_compute; reflexivity).
  assert (H40 : sub_int (round_int 50) 10 = Ok (round_int 40))
    by (vm_compute; reflexivity).
  rewrite H10, H2, Hmf, Hma, H5, H50, H40.
  cbn [and_then lift emit app].
  exists (SFdiv prec emax (sub sw (round_int 10)) (round_int 2)).
  repeat (split; [reflexivity|]).
  unfold graph_frame.
  destruct (for_each _ _) as [calls r]. reflexivity.
Qed.




Lemma bar_height_full (v : Z) : 0 < v -> bar_height v v = Ok 90.
Proof.
  intros Hv. unfold bar_height, int_truediv.
  destruct (Z.eqb_spec v 0) as [?|_]; [lia|].
  replace (round_quot v v) with (round_int 1)
    by (rewrite <- (round_quot_copies v 1 Hv), Z.mul_1_r; reflexivity).
  reflexivity.
Qed.

(** X14. The graph of the seasons needs a season with fires: on an empty
    dictionary [display_season_data] raises ZeroDivisionError before it
    draws anything, and on a dictionary whose seasons all count 0 fires it
    raises ZeroDivisionError after drawing only the white background and
    the two axis labels. *)
Theorem graph_needs_fires (seasons : dict Z CaliFireSeason.t)
    (current_index : Z) :
  (forall k season, In (k, season) seasons -> CaliFireSeason.fires season = 0) ->
  graphics_functions.display_season_data size pixels seasons current_index
  = (match seasons with [] => [] | _ :: _ => graph_frame end,
     Err ZeroDivisionError).
Proof.
  intros Hzero. destruct seasons as [|[k0 s0] rest] eqn:Hs; [reflexivity|].
  rewrite <- Hs in *.
  assert (Hne : seasons <> []) by (rewrite Hs; discriminate).
  destruct (display_season_data_run seasons current_index Hne)
    as (l & maxf & maxa & sw & bw & Hl & Hmf & Hma & ->).
  destruct (seasons_list_total seasons) as (l' & Hl' & Hlen & Hfrom & _).
  rewrite Hl in Hl'. injection Hl' as <-.
  assert (Hall : forall v, In v (map CaliFireSeason.fires l) -> v = 0).
  { intros v Hv. apply in_map_iff in Hv as (s & <- & Hin).
    destruct (Hfrom s Hin) as [k Hk]. exact (Hzero k s Hk). }
  assert (Hmax : maxf = 0)
    by (apply Hall; exact (proj1 (max_of_spec _ _ Hmf))).
  subst maxf.
  assert (Hfirst : index (map CaliFireSeason.fires l) (Z.to_nat 0) = Ok 0).
  { destruct l as [|s l']; [rewrite Hs in Hlen; discriminate|].
    cbn. f_equal. apply Hall. left. reflexivity. }
  rewrite range_unfold
    by (unfold len; rewrite Hs; cbn [List.length]; lia).
  cbn [for_each].
  assert (Hstep :
            graphics_functions.display_section size pixels current_index
              (dict_keys seasons) (map CaliFireSeason.fires l)
              (map CaliFireSeason.acreage l) 0 maxa 20 10 100 5 sw bw
              colour_fonts.CALIBRI_14_B 0
            = ([], Err ZeroDivisionError)).
  { unfold graphics_functions.display_section.
    replace (int_mul 0 sw) with (Ok (mul (round_int 0) sw)) by reflexivity.
    cbn [and_then lift].
    replace (int_add 20 (mul (round_int 0) sw))
      with (Ok (add (round_int 20) (mul (round_int 0) sw))) by reflexivity.
    cbn [and_then lift].
    replace (add_int (add (round_int 20) (mul (round_int 0) sw)) 5)
      with (Ok (add (add (round_int 20) (mul (round_int 0) sw)) (round_int 5)))
      by reflexivity.
    cbn [and_then lift]. rewrite Hfirst. reflexivity. }
  rewrite Hstep. cbn [and_then]. rewrite app_nil_r. reflexivity.
Qed.

Lemma nth_error_column {A : Type} (seasons : dict Z CaliFireSeason.t)
    (g : CaliFireSeason.t -> A) (n : nat) (k : Z) (season : CaliFireSeason.t) :
  nth_error seasons n = Some (k, season) ->
  index (dict_keys seasons) (Z.to_nat (Z.of_nat n)) = Ok k
  /\ index (map g (map snd seasons)) (Z.to_nat (Z.of_nat n)) = Ok (g season).
Proof.
  intros Hn. unfold index, dict_keys. rewrite Nat2Z.id, map_map.
  rewrite !nth_error_map, Hn. split; reflexivity.
Qed.

Lemma largest_is_max (seasons : dict Z CaliFireSeason.t)
    (g : CaliFireSeason.t -> Z) (k : Z) (season : CaliFireSeason.t) (m : Z) :
  In (k, season) seasons ->
  (forall k' season', In (k', season') seasons -> g season' <= g season) ->
  graphics_functions.max_of (map g (map snd seasons)) = Ok m ->
  m = g season.
Proof.
  intros Hin Hmax Hm. destruct (max_of_spec _ _ Hm) as [Hm_in Hm_le].
  apply in_map_iff in Hm_in as (s & <- & Hs).
  apply in_map_iff in Hs as ([k' s'] & <- & Hs). cbn [snd] in *.
  specialize (Hmax k' s' Hs).
  specialize (Hm_le (g season)).
  assert (g season <= g s'); [|lia].
  apply Hm_le, in_map, in_map_iff. exists (k, season). auto.
Qed.

(** X16. The tallest bars are full and outlined: when
    [display_season_data] completes on a dictionary with distinct keys,
    the red bar of a season with the largest (positive) fire count has its
    top at 20 and the full height 90, whatever the counts are, and is
    framed by the four black lines of [draw_rect_outline]; likewise the
    orange bar of a season with the largest acreage. *)
Theorem tallest_bars_are_full (seasons : dict Z CaliFireSeason.t)
    (current_index k : Z) (season : CaliFireSeason.t) :
  let run :=
    graphics_functions.display_season_data size pixels seasons current_index in
  NoDup (dict_keys seasons) ->
  In (k, season) seasons ->
  snd run = Ok tt ->
  (0 < CaliFireSeason.fires season ->
   (forall k' season', In (k', season') seasons ->
      CaliFireSeason.fires season' <= CaliFireSeason.fires season) ->
   exists left width,
     let bar :=
       pygame.mkRect (pygame.Float left) (pygame.Int 20) (pygame.Float width)
         (pygame.Int 90) in
     In (pygame.draw_rect
           (if k >? 2020 then colour_fonts.LIGHT_RED else colour_fonts.RED) bar)
        (fst run)
     /\ incl (fst (graphics_functions.draw_rect_outline pixels bar
                     colour_fonts.BLACK 3))
          (fst run))
  /\ (0 < CaliFireSeason.acreage season ->
      (forall k' season', In (k', season') seasons ->
         CaliFireSeason.acreage season' <= CaliFireSeason.acreage season) ->
      exists left width,
        let bar :=
          pygame.mkRect (pygame.Float left) (pygame.Int 20)
            (pygame.Float width) (pygame.Int 90) in
        In (pygame.draw_rect
              (if k >? 2020 then colour_fonts.LIGHT_ORANGE
               else colour_fonts.ORANGE) bar)
           (fst run)
        /\ incl (fst (graphics_functions.draw_rect_outline pixels bar
                        colour_fonts.BLACK 3))
             (fst run)).
Proof.
  intros run Hnd Hin Hok. unfold run in *. clear run.
  assert (Hne : seasons <> []) by (destruct seasons; [destruct Hin|discriminate]).
  destruct (display_season_data_run seasons current_index Hne)
    as (l & maxf & maxa & sw & bw & Hl & Hmf & Hma & Hrun).
  destruct (seasons_list_total seasons) as (l' & Hl' & _ & _ & Hvalues).
  rewrite Hl in Hl'. injection Hl' as <-. rewrite (Hvalues Hnd) in *.
  rewrite Hrun in *. clear Hrun. cbn [and_then] in *.
  set (body :=
         graphics_functions.display_section size pixels current_index
           (dict_keys seasons) (map CaliFireSeason.fires (map snd seasons))
           (map CaliFireSeason.acreage (map snd seasons)) maxf maxa 20 10 100 5
           sw bw colour_fonts.CALIBRI_14_B) in *.
  assert (Hloop : snd (for_each (range 0 (len seasons)) body) = Ok tt)
    by (destruct (for_each _ _); exact Hok).
  destruct (for_each_inv _ _ Hloop) as [Hall Hcalls].
  destruct (In_nth_error _ _ Hin) as [n Hn].
  assert (Hx : In (Z.of_nat n) (range 0 (len seasons))).
  { apply range_In. assert (n < List.length seasons)%nat
      by (apply nth_error_Some; congruence).
    unfold len. lia. }
  assert (Hsub : incl (fst (body (Z.of_nat n)))
                   (fst (let '(calls', r) :=
                           for_each (range 0 (len seasons)) body in
                         (graph_frame ++ calls', r)))).
  { intros c Hc. destruct (for_each _ _) as [calls r]. cbn [fst] in *.
    apply in_or_app. right. rewrite Hcalls. apply in_flat_map.
    exists (Z.of_nat n). split; [exact Hx|exact Hc]. }
  destruct (display_section_shape current_index (dict_keys seasons)
              (map CaliFireSeason.fires (map snd seasons))
              (map CaliFireSeason.acreage (map snd seasons))
              maxf maxa sw bw (Z.of_nat n) (Hall _ Hx))
    as (year & v & a & rh & oh & sx & rx & tx & ty & Hy & Hv & Ha & Hrh & Hoh
        & Hshape).
  cbv zeta in Hshape. fold body in Hshape.
  destruct (nth_error_column seasons CaliFireSeason.fires n k season Hn)
    as [Hk Hfires].
  destruct (nth_error_column seasons CaliFireSeason.acreage n k season Hn)
    as [_ Hacres].
  rewrite Hk in Hy. injection Hy as <-.
  rewrite Hfires in Hv. injection Hv as <-.
  rewrite Hacres in Ha. injection Ha as <-.
  split.
  - intros Hpos Hmax.
    rewrite (largest_is_max seasons CaliFireSeason.fires k season maxf Hin
               Hmax Hmf) in *.
    rewrite (bar_height_full _ Hpos) in Hrh. injection Hrh as <-.
    rewrite Z.eqb_refl in Hshape. change (100 - 90 + 10) with 20 in Hshape.
    exists rx, bw. cbv zeta. split.
    + apply Hsub. rewrite Hshape. apply in_or_app. right.
      apply in_or_app. left. left. reflexivity.
    + intros c Hc. apply Hsub. rewrite Hshape. apply in_or_app. right.
      apply in_or_app. right. apply in_or_app. left. exact Hc.
  - intros Hpos Hmax.
    rewrite (largest_is_max seasons CaliFireSeason.acreage k season maxa Hin
               Hmax Hma) in *.
    rewrite (bar_height_full _ Hpos) in Hoh. injection Hoh as <-.
    rewrite (Z.eqb_refl (CaliFireSeason.acreage season)) in Hshape.
    change (100 - 90 + 10) with 20 in Hshape.
    exists (add rx bw), bw. cbv zeta. split.
    + apply Hsub. rewrite Hshape. apply in_or_app. right.
      apply in_or_app. left. right. left. reflexivity.
    + intros c Hc. apply Hsub. rewrite Hshape. apply in_or_app. right.
      apply in_or_app. right. apply in_or_app. right. exact Hc.
Qed.
End Graph.

Lemma graph_needs_fires_witness :
  let idle :=
    [(2019, CaliFireSeason.mk 2019 0 0 []);
     (2020, CaliFireSeason.mk 2020 0 12 [])] in
  (forall k season, In (k, season) idle -> CaliFireSeason.fires season = 0) /\
  graphics_functions.display_season_data sample_size sample_pixels idle 1
  = (graph_frame, Err ZeroDivisionError).
Proof.
  intros idle.
  assert (Hzero : forall k season,
             In (k, season) idle -> CaliFireSeason.fires season = 0).
  { intros k season [[= <- <-]|[[= <- <-]|[]]]; reflexivity. }
  split; [exact Hzero|].
  exact (graph_needs_fires sample_size sample_pixels idle 1 Hzero).
Defined.


Lemma tallest_bars_are_full_witness :
  let run :=
    graphics_functions.display_season_data sample_size sample_pixels
      sample_graph 1 in
  NoDup (dict_keys sample_graph) /\
  In (2021, sample_forecast) sample_graph /\
  snd run = Ok tt /\
  exists left width,
    In (pygame.draw_rect colour_fonts.LIGHT_RED
          (pygame.mkRect (pygame.Float left) (pygame.Int 20)
             (pygame.Float width) (pygame.Int 90)))
       (fst run).
Proof.
  intros run.
  assert (Hnd : NoDup (dict_keys sample_graph)).
  { repeat constructor; cbn; intuition discriminate. }
  assert (Hin : In (2021, sample_forecast) sample_graph)
    by (right; left; reflexivity).
  assert (Hok : snd run = Ok tt) by (vm_compute; reflexivity).
  split; [exact Hnd|]. split; [exact Hin|]. split; [exact Hok|].
  destruct (proj1 (tallest_bars_are_full sample_size sample_pixels sample_graph
                     1 2021 sample_forecast Hnd Hin Hok))
    as (left & width & Hbar & _).
  - reflexivity.
  - intros k' season' [[= <- <-]|[[= <- <-]|[]]]; vm_compute; discriminate.
  - exists left, width. exact Hbar.
Defined.

(** ** Drawing: the objects of a scene *)

Lemma of_int_as_half (z : Z) : of_int z = int_truediv (2 * z) 2.
Proof.
  unfold of_int, int_truediv. cbn [Z.eqb].
  rewrite round_quot_copies by lia. reflexivity.
Qed.

Section DrawObjects.
Variable size : colour_fonts.Font -> string -> Z * Z.

Lemma draw_unstyled (self : FireCircle.t) :
  FireCircle._colour self = None \/ FireCircle._radius self = None ->
  FireCircle.draw size self = ([], Err AttributeError).
Proof.
  intros Hnone. unfold FireCircle.draw, FireCircle.colour_of, FireCircle.radius.
  destruct (FireCircle._colour self) as [c|]; [|reflexivity].
  destruct Hnone as [Hc|Hr]; [discriminate|]. rewrite Hr. reflexivity.
Qed.

(** X17. [FireCircle.draw] centres the county name on the circle: for a
    styled circle at non-negative coordinates below [2 ^ 52] and a name
    measured at most [2 ^ 53] wide and high, it draws the disc with the
    circle's colour and radius at its coordinates and then blits the name
    at floats that truncate to [x - width / 2] and [y - height / 2] taken
    exactly (halves rounded toward zero after subtracting), so the name
    sits on the centre to within a pixel. A circle without colour or
    radius raises AttributeError before anything is drawn. *)
Theorem FireCircle_draw_centres_name (self : FireCircle.t) :
  let x := ScrollableObject._x (FireCircle.base self) in
  let y := ScrollableObject._y (FireCircle.base self) in
  let width := fst (size colour_fonts.CALIBRI_14_B (FireCircle._county self)) in
  let height := snd (size colour_fonts.CALIBRI_14_B (FireCircle._county self)) in
  (FireCircle._colour self = None \/ FireCircle._radius self = None ->
   FireCircle.draw size self = ([], Err AttributeError))
  /\ (forall c r,
        FireCircle._colour self = Some c -> FireCircle._radius self = Some r ->
        0 <= x < 2 ^ 52 -> 0 <= y < 2 ^ 52 ->
        0 <= width < 2 ^ 53 -> 0 <= height < 2 ^ 53 ->
        exists text_x text_y,
          FireCircle.draw size self
          = ([pygame.draw_circle c (x, y) r;
              pygame.blit
                (pygame.render colour_fonts.CALIBRI_14_B
                   (FireCircle._county self) true colour_fonts.BLACK)
                (pygame.Float text_x, pygame.Float text_y)],
             Ok tt)
          /\ to_int text_x = Ok (Z.quot (2 * x - width) 2)
          /\ to_int text_y = Ok (Z.quot (2 * y - height) 2)).
Proof.
  intros x y width height. split.
  - apply draw_unstyled.
  - intros c r Hc Hr Hx Hy Hw Hh.
    destruct (centre_exact_any (2 * x) width ltac:(lia) Hw)
      as (fx & hw & Hfx & Hhw & Htx).
    destruct (centre_exact_any (2 * y) height ltac:(lia) Hh)
      as (fy & hh & Hfy & Hhh & Hty).
    rewrite <- of_int_as_half in Hfx, Hfy.
    exists (sub fx hw), (sub fy hh).
    split; [|split; [exact Htx|exact Hty]].
    unfold FireCircle.draw, FireCircle.colour_of, FireCircle.radius,
      FireCircle.get_coords, ScrollableObject.get_coords, int_sub.
    rewrite Hc, Hr. fold x y.
    destruct (size colour_fonts.CALIBRI_14_B (FireCircle._county self))
      as [w h] eqn:Hsize.
    cbn [fst snd] in width, height. subst width height.
    cbn [and_then lift emit app].
    rewrite Hhw, Hfx. cbn [and_then lift emit app bind].
    rewrite Hhh, Hfy. reflexivity.
Qed.

Lemma draw_scrollables_app (before after : list Scrollable) :
  graphics_functions.draw_scrollables size (before ++ after)
  = (graphics_functions.draw_scrollables size before ;;;
     graphics_functions.draw_scrollables size after).
Proof.
  unfold graphics_functions.draw_scrollables.
  induction before as [|o before IH]; cbn [app for_each].
  - cbn [and_then]. destruct (for_each after (draw size)) as [calls r].
    reflexivity.
  - rewrite IH. destruct (draw size o) as [calls [[]|e]]; cbn [and_then];
      [|reflexivity].
    destruct (for_each before (draw size)) as [calls1 [[]|e1]];
      cbn [and_then].
    + destruct (for_each after (draw size)) as [calls2 r2].
      rewrite app_assoc. reflexivity.
    + reflexivity.
Qed.

(** X18. [draw_scrollables] draws in list order and stops at the first
    object that cannot be drawn: when the objects before a circle without
    colour or radius have been drawn, the call raises AttributeError with
    exactly their drawings on the screen, and no later object is drawn. *)
Theorem draw_scrollables_stops_at_unstyled (before after : list Scrollable)
    (c : FireCircle.t) :
  FireCircle._colour c = None \/ FireCircle._radius c = None ->
  snd (graphics_functions.draw_scrollables size before) = Ok tt ->
  graphics_functions.draw_scrollables size (before ++ ACircle c :: after)
  = (fst (graphics_functions.draw_scrollables size before),
     Err AttributeError).
Proof.
  intros Hnone Hok. rewrite draw_scrollables_app.
  destruct (graphics_functions.draw_scrollables size before)
    as [calls [[]|e]]; [|discriminate].
  cbn [and_then fst].
  unfold graphics_functions.draw_scrollables. cbn [for_each draw].
  rewrite (draw_unstyled c Hnone).
  cbn [and_then]. rewrite app_nil_r. reflexivity.
Qed.
End DrawObjects.

Lemma draw_scrollables_stops_at_unstyled_witness :
  let label :=
    ALabel (TextLabel.init 302 200 "Top Five Fires:" colour_fonts.CALIBRI_24_B
              colour_fonts.BLACK) in
  let map_image := AnImage (Image.init 190 240 "county_map.jpg") in
  let bare :=
    FireCircle.mk (ScrollableObject.mk 302 367) "Butte" (-5)
      [CaliFire.mk 2008 "Butte" (-5) "Lightning" 0] None None in
  (FireCircle._colour bare = None \/ FireCircle._radius bare = None) /\
  snd (graphics_functions.draw_scrollables sample_size [label; map_image])
  = Ok tt /\
  graphics_functions.draw_scrollables sample_size
    ([label; map_image] ++ [ACircle bare; label])
  = ([pygame.blit
        (pygame.render colour_fonts.CALIBRI_24_B "Top Five Fires:" true
           colour_fonts.BLACK) (pygame.Int 302, pygame.Int 200);
      pygame.blit (pygame.load "county_map.jpg")
        (pygame.Int 190, pygame.Int 240)],
     Err AttributeError).
Proof.
  intros label map_image bare.
  assert (Hnone : FireCircle._colour bare = None \/ FireCircle._radius bare = None)
    by (left; reflexivity).
  assert (Hok : snd (graphics_functions.draw_scrollables sample_size
                       [label; map_image]) = Ok tt) by reflexivity.
  split; [exact Hnone|]. split; [exact Hok|].
  exact (draw_scrollables_stops_at_unstyled sample_size [label; map_image]
           [label] bare Hnone Hok).
Defined.

Lemma FireCircle_draw_centres_name_witness :
  let circle :=
    FireCircle.mk (ScrollableObject.mk 302 367) "Butte" 70991
      [CaliFire.mk 2008 "Butte" 47647 "Lightning" 117;
       CaliFire.mk 2008 "Butte" 23344 "Arson" 351]
      (Some 20) (Some colour_fonts.ORANGE) in
  exists text_x text_y,
    FireCircle.draw sample_size circle
    = ([pygame.draw_circle colour_fonts.ORANGE (302, 367) 20;
        pygame.blit
          (pygame.render colour_fonts.CALIBRI_14_B "Butte" true
             colour_fonts.BLACK)
          (pygame.Float text_x, pygame.Float text_y)],
       Ok tt)
    /\ to_int text_x = Ok 269
    /\ to_int text_y = Ok 360.
Proof.
  intros circle.
  apply (proj2 (FireCircle_draw_centres_name sample_size circle)
           colour_fonts.ORANGE 20 eq_refl eq_refl);
    vm_compute; split; (discriminate || reflexivity).
Defined.

(** ** Loading the data file *)

Lemma comma_free_app (a b : string) :
  comma_free (a ++ b) = comma_free a && comma_free b.
Proof.
  induction a as [|c a IH]; [reflexivity|].
  cbn [append comma_free]. rewrite IH, andb_assoc. reflexivity.
Qed.

Lemma comma_free_digits (d : Decimal.uint) :
  comma_free (NilEmpty.string_of_uint d) = true.
Proof. induction d; cbn; auto. Qed.

Lemma comma_free_str (z : Z) : comma_free (str z) = true.
Proof.
  unfold str, NilZero.string_of_int, NilZero.string_of_uint.
  destruct (Z.to_int z) as [d|d]; destruct d;
    try reflexivity; cbn [comma_free]; apply comma_free_digits.
Qed.

Lemma split_field (field rest : string) :
  comma_free field = true ->
  split (field ++ "," ++ rest) = field :: split rest.
Proof.
  induction field as [|c field IH]; intros Hfree.
  - reflexivity.
  - cbn [comma_free] in Hfree. apply andb_prop in Hfree as [Hc Hfree].
    cbn [append split]. apply negb_true_iff in Hc. rewrite Hc.
    change (field ++ String "," rest)%string
      with (field ++ "," ++ rest)%string.
    rewrite (IH Hfree). reflexivity.
Qed.

Lemma split_last (field : string) :
  comma_free field = true -> split field = [field].
Proof.
  induction field as [|c field IH]; intros Hfree; [reflexivity|].
  cbn [comma_free] in Hfree. apply andb_prop in Hfree as [Hc Hfree].
  cbn [split]. apply negb_true_iff in Hc. rewrite Hc, (IH Hfree).
  reflexivity.
Qed.

Section Loader.
Variable parse_int : string -> result Z.
Variable isnumeric : string -> bool.

Lemma read_year_row (st : loader) (year : Z) :
  reads parse_int year ->
  read_entry parse_int isnumeric st (split (str year ++ newline))
  = Loaded (mk_loader (data_so_far st) (top_five_fires st) (Some year)).
Proof.
  intros [_ Hread].
  rewrite split_last
    by (rewrite comma_free_app, comma_free_str; reflexivity).
  unfold read_entry. cbn [len List.length Z.of_nat Z.eqb index nth_error bind].
  change (Z.of_nat 1 =? 1) with true. cbv iota.
  rewrite Hread. reflexivity.
Qed.

Lemma read_fire_row (st : loader) (year : Z) (county : string) (acreage : Z)
    (cause : string) (destroyed : Z) :
  curr_year st = Some year ->
  isnumeric county = false ->
  comma_free county = true -> comma_free cause = true ->
  reads parse_int acreage -> reads parse_int destroyed ->
  read_entry parse_int isnumeric st
    (split (fire_row (county, acreage, cause, destroyed)))
  = Loaded (mk_loader (data_so_far st)
              (top_five_fires st
               ++ [CaliFire.mk year county acreage cause destroyed])
              (Some year)).
Proof.
  intros Hyear Hnum Hcounty Hcause [Hacres _] [_ Hdestroyed].
  unfold fire_row.
  rewrite split_field by exact Hcounty.
  rewrite split_field by apply comma_free_str.
  rewrite split_field by exact Hcause.
  rewrite split_last
    by (rewrite comma_free_app, comma_free_str; reflexivity).
  unfold read_entry. change (len _ =? 1) with false. cbv iota.
  cbn [index nth_error]. rewrite Hnum. cbn [negb bind].
  rewrite Hacres. cbn [bind]. rewrite Hdestroyed. cbn [bind].
  rewrite Hyear. reflexivity.
Qed.

Lemma read_season_row (st : loader) (year num_fires acreage : Z) :
  curr_year st = Some year ->
  isnumeric (str num_fires) = true ->
  reads parse_int num_fires -> reads parse_int acreage ->
  read_entry parse_int isnumeric st
    (split (str num_fires ++ "," ++ str acreage ++ newline))
  = Loaded (mk_loader
              (dict_set (data_so_far st) year
                 (CaliFireSeason.mk year num_fires acreage (top_five_fires st)))
              [] (Some year)).
Proof.
  intros Hyear Hnum [Hfires _] [_ Hacres].
  rewrite split_field by apply comma_free_str.
  rewrite split_last
    by (rewrite comma_free_app, comma_free_str; reflexivity).
  unfold read_entry. change (len _ =? 1) with false. cbv iota.
  cbn [index nth_error]. rewrite Hnum. cbn [negb bind].
  rewrite Hfires. cbn [bind]. rewrite Hacres. cbn [bind].
  rewrite Hyear. reflexivity.
Qed.

Lemma read_entries_app (st : loader) (before after : list (list string)) :
  read_entries parse_int isnumeric st (before ++ after)
  = match read_entries parse_int isnumeric st before with
    | Loaded st' => read_entries parse_int isnumeric st' after
    | Raised e => Raised e
    | YearMissing => YearMissing
    end.
Proof.
  revert st. induction before as [|entry before IH]; intros st; [reflexivity|].
  cbn [app read_entries].
  destruct (read_entry parse_int isnumeric st entry); auto.
Qed.

Lemma read_fire_rows (year : Z) (fires : list (string * Z * string * Z)) :
  forall st,
  curr_year st = Some year ->
  Forall (fun fire : string * Z * string * Z =>
            let '(county, acreage, cause, destroyed) := fire in
            isnumeric county = false /\
            comma_free county = true /\
            comma_free cause = true /\
            reads parse_int acreage /\
            reads parse_int destroyed) fires ->
  read_entries parse_int isnumeric st (map split (map fire_row fires))
  = Loaded (mk_loader (data_so_far st)
              (top_five_fires st
               ++ map (fun fire : string * Z * string * Z =>
                         let '(county, acreage, cause, destroyed) := fire in
                         CaliFire.mk year county acreage cause destroyed)
                    fires)
              (Some year)).
Proof.
  induction fires as [|[[[county acreage] cause] destroyed] fires IH];
    intros st Hyear Hall.
  - cbn. rewrite app_nil_r. destruct st. cbn in *. subst. reflexivity.
  - inversion Hall as [|? ? Hhead Hrest]; subst.
    cbv beta iota in Hhead. destruct Hhead as (Hn & Hc1 & Hc2 & Ha & Hd).
    cbn [map read_entries].
    rewrite (read_fire_row st year county acreage cause destroyed)
      by assumption.
    rewrite IH by (reflexivity || exact Hrest).
    cbn [data_so_far top_five_fires map]. rewrite <- app_assoc. reflexivity.
Qed.

Lemma read_block (st : loader) (b : block) :
  top_five_fires st = [] ->
  readable parse_int isnumeric b ->
  read_entries parse_int isnumeric st (map split (block_rows b))
  = Loaded (mk_loader
              (dict_set (data_so_far st) (block_year b) (block_season b))
              [] (Some (block_year b))).
Proof.
  intros Hempty (Hy & Hn & Ha & Hnum & Hfires).
  unfold block_rows. rewrite !map_app. cbn [map app read_entries].
  rewrite read_year_row by exact Hy.
  rewrite read_entries_app.
  rewrite (read_fire_rows (block_year b)) by (reflexivity || exact Hfires).
  cbn [read_entries data_so_far top_five_fires].
  rewrite (read_season_row _ (block_year b)) by (reflexivity || assumption).
  cbn [data_so_far top_five_fires]. rewrite Hempty. reflexivity.
Qed.

(** X19. The loader reads back the file format: on the rows of a sequence
    of blocks (a year row, a row per top fire, a season row) whose numbers
    [int] reads back and whose county names are not numeric,
    [get_fire_data] returns the dictionary that holds, for each block in
    file order, the block's season under the block's year: the season
    carries the block's year, totals and fires, every fire carries the
    year, and a later block of the same year replaces the earlier one in
    place. *)
Theorem get_fire_data_reads_blocks (blocks : list block) :
  Forall (readable parse_int isnumeric) blocks ->
  get_fire_data parse_int isnumeric (flat_map block_rows blocks)
  = Loaded (fold_left
              (fun data b => dict_set data (block_year b) (block_season b))
              blocks []).
Proof.
  intros Hall. unfold get_fire_data.
  assert (Hgen : forall st,
             top_five_fires st = [] ->
             exists year,
               read_entries parse_int isnumeric st
                 (map split (flat_map block_rows blocks))
               = Loaded (mk_loader
                           (fold_left
                              (fun data b =>
                                 dict_set data (block_year b) (block_season b))
                              blocks (data_so_far st))
                           [] year)).
  { induction Hall as [|b blocks Hb _ IH]; intros st Hempty.
    - exists (curr_year st). destruct st. cbn in *. subst. reflexivity.
    - cbn [flat_map fold_left]. rewrite map_app, read_entries_app.
      rewrite (read_block st b Hempty Hb).
      apply (IH (mk_loader _ [] _)). reflexivity. }
  destruct (Hgen (mk_loader [] [] None) eq_refl) as [year ->].
  reflexivity.
Qed.
(** X20. A block without its season row is not stored and its fires are
    carried over: when the rows of a block stop before the season row and
    the next block follows, [get_fire_data] stores no season for the first
    year, and the season of the second year holds the fires of both
    blocks, those of the first still carrying the first year. The list of
    top fires is reset by a season row only. *)
Theorem unfinished_block_carries_over (b1 b2 : block) :
  readable parse_int isnumeric b1 ->
  readable parse_int isnumeric b2 ->
  get_fire_data parse_int isnumeric
    ([(str (block_year b1) ++ newline)%string]
     ++ map fire_row (block_fires b1) ++ block_rows b2)
  = Loaded
      [(block_year b2,
        CaliFireSeason.mk (block_year b2) (block_num_fires b2)
          (block_acreage b2)
          (CaliFireSeason.top_five (block_season b1)
           ++ CaliFireSeason.top_five (block_season b2)))].
Proof.
  intros (Hy1 & _ & _ & _ & Hfires1) (Hy2 & Hn2 & Ha2 & Hnum2 & Hfires2).
  unfold get_fire_data, block_rows. rewrite !map_app.
  cbn [map app read_entries].
  rewrite read_year_row by exact Hy1.
  rewrite read_entries_app.
  rewrite (read_fire_rows (block_year b1)) by (reflexivity || exact Hfires1).
  cbn [read_entries data_so_far top_five_fires app].
  rewrite read_year_row by exact Hy2.
  rewrite read_entries_app.
  rewrite (read_fire_rows (block_year b2)) by (reflexivity || exact Hfires2).
  cbn [read_entries data_so_far top_five_fires].
  rewrite (read_season_row _ (block_year b2)) by (reflexivity || assumption).
  reflexivity.
Qed.
End Loader.

Lemma get_fire_data_reads_blocks_witness :
  Forall (readable sample_int sample_isnumeric) [sample_block] /\
  get_fire_data sample_int sample_isnumeric (block_rows sample_block)
  = Loaded sample_data.
Proof.
  assert (Hall : Forall (readable sample_int sample_isnumeric) [sample_block]).
  { constructor; [|constructor].
    unfold readable, reads. cbn [sample_block block_year block_num_fires
                                   block_acreage block_fires].
    repeat split; try (vm_compute; reflexivity).
    repeat constructor; vm_compute; reflexivity. }
  split; [exact Hall|].
  pose proof (get_fire_data_reads_blocks sample_int sample_isnumeric
                [sample_block] Hall) as Hload.
  cbn [flat_map] in Hload. rewrite app_nil_r in Hload. exact Hload.
Defined.

Lemma unfinished_block_carries_over_witness :
  let later := mk_block 2009 [("Shasta", 27936, "Lightning", 12)]%string 9159 451969 in
  readable sample_int sample_isnumeric sample_block /\
  readable sample_int sample_isnumeric later /\
  exists season,
    get_fire_data sample_int sample_isnumeric
      ([(str 2008 ++ newline)%string]
       ++ map fire_row (block_fires sample_block) ++ block_rows later)
    = Loaded [(2009, season)] /\
    List.length (CaliFireSeason.top_five season) = 6%nat /\
    map CaliFire.year (CaliFireSeason.top_five season)
    = [2008; 2008; 2008; 2008; 2008; 2009].
Proof.
  intros later.
  assert (H1 : readable sample_int sample_isnumeric sample_block).
  { unfold readable, reads.
    cbn [sample_block block_year block_num_fires block_acreage block_fires].
    repeat split; try (vm_compute; reflexivity).
    repeat constructor; vm_compute; reflexivity. }
  assert (H2 : readable sample_int sample_isnumeric later).
  { unfold readable, reads, later.
    cbn [block_year block_num_fires block_acreage block_fires].
    repeat split; try (vm_compute; reflexivity).
    repeat constructor; vm_compute; reflexivity. }
  split; [exact H1|]. split; [exact H2|].
  eexists. split.
  - exact (unfinished_block_carries_over sample_int sample_isnumeric
             sample_block later H1 H2).
  - split; reflexivity.
Defined.
